(** * Eat-Glish: the simulation ticks of the three "muncher" games

    A shallow embedding of the per-frame game logic of the repository's three
    React components and the properties the specification states about them:

    - [CakeMuncher]        (src/App.tsx, second document): the point variant,
      MediaPipe FaceMesh, capture radius 60;
    - [WordMuncher]        (src/unnamed/part_000): word matching on FaceMesh,
      with the Gemini study buddy, capture radius 70;
    - [WordMuncherFaceApi] (src/unnamed/part_001): word matching on face-api.js,
      capture radius 70.

    Modelling conventions.

    - JavaScript numbers that hold coordinates, speeds and random draws are
      exact rationals ([Q]); counters, scores and millisecond clocks are
      integers ([Z]).  Rounding of binary64 arithmetic is not modelled.
      In the game logic [Math.sqrt] only occurs under a comparison, which is
      decided exactly on rationals ([JS.sqrt_ltb], [JS.sqrt_gtb]) and related
      to the real square root in the theorems.
    - [Math.random()] is an oracle: a tape [random : nat -> Q] read at a
      cursor kept in the state ([draws]).  [Number.prototype.toString(36)] is
      a parameter [toString36] of the spawners; [JS.toString36] is the
      positional expansion used for concrete runs.
    - A [useRef] cell is a field of the state record; the values a callback
      closes over (React state captured when the effect ran) are explicit
      arguments of the callback.
    - [setTimeout] callbacks are queued in the state and fired by an event of
      their own.  Canvas drawing has no effect on the game state and is left
      out.  The calls that start a pronunciation are logged in the state; the
      decoding of the audio they fetch is modelled on its own ([Audio]).
    - A [TypeError] (a property read on [undefined]) is the result [None]. *)

From Stdlib Require Import List String Ascii ZArith QArith Qround Qabs Bool.
From Stdlib Require Import Lia Psatz Reals Qreals.
Import ListNotations.

Close Scope R_scope.
Close Scope Q_scope.

Declare Scope opt_scope.
Notation "'let*' x := e 'in' k" :=
  (match e with Some x => k | None => None end)
  (at level 10, x pattern, e at level 100, k at level 200) : opt_scope.
Open Scope opt_scope.

(** ** JavaScript built-ins *)

Module JS.

(** [a < b] and [a > b] on numbers. *)
Definition ltb (a b : Q) : bool := negb (Qle_bool b a).
Definition gtb (a b : Q) : bool := ltb b a.
Definition leb (a b : Q) : bool := Qle_bool a b.

(** [Math.pow(d, 2)]. *)
Definition pow2 (d : Q) : Q := d * d.

(** [Math.sqrt(s) < c]: false when [s] is negative (the root is NaN) or [c]
    is not positive; otherwise the squares are compared. *)
Definition sqrt_ltb (s c : Q) : bool := leb 0 s && ltb 0 c && ltb s (c * c).

(** [Math.sqrt(s) > c]. *)
Definition sqrt_gtb (s c : Q) : bool := leb 0 s && (ltb c 0 || ltb (c * c) s).

(** [a.length] as a number. *)
Definition len {A} (a : list A) : Q := inject_Z (Z.of_nat (List.length a)).

(** [a[i]] for an integer-valued [i]: [None] is [undefined]. *)
Definition index {A} (a : list A) (i : Z) : option A :=
  if (i <? 0)%Z then None else nth_error a (Z.to_nat i).

(** [a.indexOf(v)], [-1] when absent. *)
Fixpoint indexOf {A} (eqb : A -> A -> bool) (a : list A) (v : A) : Z :=
  match a with
  | [] => -1
  | h :: rest =>
      if eqb h v then 0
      else let k := indexOf eqb rest v in if (k <? 0)%Z then -1 else (k + 1)
  end%Z.

(** [s.substr(start, n)] and [s.slice(start)]. *)
Definition substr (start n : nat) (s : string) : string := substring start n s.
Definition slice (start : nat) (s : string) : string :=
  substring start (String.length s - start) s.

(** Base-36 rendering of a draw in [0,1): ["0"] for zero, otherwise ["0."]
    and the digits of the positional expansion, at most eleven of them. *)
Definition digit36 (d : Z) : ascii :=
  nth (Z.to_nat d) (list_ascii_of_string "0123456789abcdefghijklmnopqrstuvwxyz") "0"%char.

Fixpoint fraction36 (n : nat) (f : Q) : string :=
  match n with
  | O => EmptyString
  | S k =>
      if Qeq_bool f 0 then EmptyString
      else let d := Qfloor (f * 36) in
           String (digit36 d) (fraction36 k (Qred (f * 36 - inject_Z d)))
  end.

Definition toString36 (r : Q) : string :=
  if Qeq_bool r 0 then "0"%string else ("0." ++ fraction36 11 r)%string.

End JS.

(** ** Data model (src/types.ts) *)

Module Point.
Record t := mk { x : Q; y : Q }.
End Point.

Inductive TreatType := cupcake | donut | cake | cookie | icecream | cherry.

Module WordTreat.
Record t := mk {
  id : string; x : Q; y : Q; type : TreatType;
  word : string; isCorrect : bool; active : bool; velocity : Q }.
Definition set_y (v : Q) (w : t) : t :=
  mk (id w) (x w) v (type w) (word w) (isCorrect w) (active w) (velocity w).
Definition set_active (v : bool) (w : t) : t :=
  mk (id w) (x w) (y w) (type w) (word w) (isCorrect w) v (velocity w).
End WordTreat.

Module Treat.
Record t := mk {
  id : string; x : Q; y : Q; type : TreatType; active : bool;
  points : Z; emoji : string; scale : Q; velocity : Q }.
Definition set_y (v : Q) (w : t) : t :=
  mk (id w) (x w) v (type w) (active w) (points w) (emoji w) (scale w) (velocity w).
Definition set_active (v : bool) (w : t) : t :=
  mk (id w) (x w) (y w) (type w) v (points w) (emoji w) (scale w) (velocity w).
End Treat.

Module Quiz.
Record t := mk { image : string; word : string; hint : string; category : string }.
(** Object identity of quiz entries, decided on their contents. *)
Definition eqb (a b : t) : bool :=
  String.eqb (image a) (image b) && String.eqb (word a) (word b)
  && String.eqb (hint a) (hint b) && String.eqb (category a) (category b).
End Quiz.

Module Particle.
Record t := mk { x : Q; y : Q; vx : Q; vy : Q; life : Q; color : string; size : Q }.
(** One frame of a particle: [p.x += p.vx; p.y += p.vy; p.life -= step]. *)
Definition age (step : Q) (p : t) : t :=
  mk (x p + vx p) (y p + vy p) (vx p) (vy p) (life p - step) (color p) (size p).
End Particle.

(** The particle loop shared by the three components: every particle ages,
    those whose life is used up are spliced out. *)
Definition particleLoop (step : Q) (ps : list Particle.t) : list Particle.t :=
  filter (fun p => negb (JS.leb (Particle.life p) 0)) (map (Particle.age step) ps).

(** The FaceMesh result: [results.multiFaceLandmarks], a list of faces, each
    a table of normalized landmark points (FaceMesh fills all of them). *)
Module Results.
Record t := mk { multiFaceLandmarks : option (list (nat -> Point.t)) }.
End Results.

(** ** WordMuncher on FaceMesh (src/unnamed/part_000) *)

Module WordMuncher.

Definition QUIZ_LIST : list Quiz.t :=
  [ Quiz.mk "🍎" "Apple" "사과" "Fruits";
    Quiz.mk "🍌" "Banana" "바나나" "Fruits";
    Quiz.mk "🐶" "Dog" "강아지" "Animals";
    Quiz.mk "🐱" "Cat" "고양이" "Animals";
    Quiz.mk "🚗" "Car" "자동차" "Transport";
    Quiz.mk "🌞" "Sun" "태양" "Nature";
    Quiz.mk "📚" "Book" "책" "Objects";
    Quiz.mk "⚽" "Ball" "공" "Sports" ]%string.

Definition MOUTH_OPEN_THRESHOLD : Q := 0.045%Q.

(** The component's refs ([treats] to [lastCaptureTime]), the React state the
    game logic reads or writes ([score], [currentQuiz], [isAiThinking]) and
    the environment: the cursor of the random tape, the pending
    [setTimeout(nextQuiz, 500)] callbacks (oldest first, each with the
    [currentQuiz] its closure captured), the words handed to
    [playWordPronunciation], and the [getStudyBuddyAdvice(screenshot,
    currentQuiz, score)] calls that have not been answered yet. *)
Record State := mkState {
  treats : list WordTreat.t;
  particles : list Particle.t;
  scoreRef : Z;
  mouthPos : Point.t;
  isMouthOpen : bool;
  lastCaptureTime : Z;
  score : Z;
  currentQuiz : Quiz.t;
  isAiThinking : bool;
  draws : nat;
  timeouts : list Quiz.t;
  spoken : list string;
  requests : list (Quiz.t * Z) }.

Definition set_treats v s := mkState v (particles s) (scoreRef s) (mouthPos s) (isMouthOpen s) (lastCaptureTime s) (score s) (currentQuiz s) (isAiThinking s) (draws s) (timeouts s) (spoken s) (requests s).
Definition set_particles v s := mkState (treats s) v (scoreRef s) (mouthPos s) (isMouthOpen s) (lastCaptureTime s) (score s) (currentQuiz s) (isAiThinking s) (draws s) (timeouts s) (spoken s) (requests s).
Definition set_scoreRef v s := mkState (treats s) (particles s) v (mouthPos s) (isMouthOpen s) (lastCaptureTime s) (score s) (currentQuiz s) (isAiThinking s) (draws s) (timeouts s) (spoken s) (requests s).
Definition set_mouthPos v s := mkState (treats s) (particles s) (scoreRef s) v (isMouthOpen s) (lastCaptureTime s) (score s) (currentQuiz s) (isAiThinking s) (draws s) (timeouts s) (spoken s) (requests s).
Definition set_isMouthOpen v s := mkState (treats s) (particles s) (scoreRef s) (mouthPos s) v (lastCaptureTime s) (score s) (currentQuiz s) (isAiThinking s) (draws s) (timeouts s) (spoken s) (requests s).
Definition set_lastCaptureTime v s := mkState (treats s) (particles s) (scoreRef s) (mouthPos s) (isMouthOpen s) v (score s) (currentQuiz s) (isAiThinking s) (draws s) (timeouts s) (spoken s) (requests s).
Definition setScore v s := mkState (treats s) (particles s) (scoreRef s) (mouthPos s) (isMouthOpen s) (lastCaptureTime s) v (currentQuiz s) (isAiThinking s) (draws s) (timeouts s) (spoken s) (requests s).
Definition setCurrentQuiz v s := mkState (treats s) (particles s) (scoreRef s) (mouthPos s) (isMouthOpen s) (lastCaptureTime s) (score s) v (isAiThinking s) (draws s) (timeouts s) (spoken s) (requests s).
Definition setIsAiThinking v s := mkState (treats s) (particles s) (scoreRef s) (mouthPos s) (isMouthOpen s) (lastCaptureTime s) (score s) (currentQuiz s) v (draws s) (timeouts s) (spoken s) (requests s).
Definition set_draws v s := mkState (treats s) (particles s) (scoreRef s) (mouthPos s) (isMouthOpen s) (lastCaptureTime s) (score s) (currentQuiz s) (isAiThinking s) v (timeouts s) (spoken s) (requests s).
Definition set_timeouts v s := mkState (treats s) (particles s) (scoreRef s) (mouthPos s) (isMouthOpen s) (lastCaptureTime s) (score s) (currentQuiz s) (isAiThinking s) (draws s) v (spoken s) (requests s).
Definition set_spoken v s := mkState (treats s) (particles s) (scoreRef s) (mouthPos s) (isMouthOpen s) (lastCaptureTime s) (score s) (currentQuiz s) (isAiThinking s) (draws s) (timeouts s) v (requests s).
Definition set_requests v s := mkState (treats s) (particles s) (scoreRef s) (mouthPos s) (isMouthOpen s) (lastCaptureTime s) (score s) (currentQuiz s) (isAiThinking s) (draws s) (timeouts s) (spoken s) v.

(** The state at mount: the [useRef] and [useState] initial values. *)
Definition init : State :=
  mkState [] [] 0 (Point.mk 0 0) false 0 0 (nth 0 QUIZ_LIST (Quiz.mk "" "" "" "")) false 0 [] [] [].

Section Oracle.
Variable random : nat -> Q.
Variable toString36 : Q -> string.

(** [Math.random()]. *)
Definition Math_random (s : State) : Q * State :=
  (random (draws s), set_draws (S (draws s)) s).

Definition types : list TreatType := [cupcake; cookie; donut; icecream; cake].

(** [spawnTreat(width, correctWord)], lines 128-152.  A type or a quiz entry
    read outside its array is [undefined]; the property read that follows
    throws. *)
Definition spawnTreat (width : Q) (correctWord : string) (s : State) : option State :=
  let (r, s) := Math_random s in
  let* type := JS.index types (Qfloor (r * JS.len types)) in
  let (r, s) := Math_random s in
  let isCorrect := JS.ltb r 0.3 in
  let* (word, s) :=
    if isCorrect then Some (correctWord, s)
    else
      let otherQuizzes :=
        filter (fun q => negb (String.eqb (Quiz.word q) correctWord)) QUIZ_LIST in
      let (r, s) := Math_random s in
      let* q := JS.index otherQuizzes (Qfloor (r * JS.len otherQuizzes)) in
      Some (Quiz.word q, s) in
  let (r, s) := Math_random s in
  let id := JS.substr 2 9 (toString36 r) in
  let (r, s) := Math_random s in
  let x := (r * (width - 150) + 75)%Q in
  let (r, s) := Math_random s in
  let velocity := (1.5 + r * 2)%Q in
  let newTreat := WordTreat.mk id x (-50) type word isCorrect true velocity in
  Some (set_treats (treats s ++ [newTreat]) s).

(** [createParticles(x, y, color, count)], lines 154-165. *)
Fixpoint createParticles (x y : Q) (color : string) (count : nat) (s : State) : State :=
  match count with
  | O => s
  | S n =>
      let (r1, s) := Math_random s in
      let (r2, s) := Math_random s in
      let (r3, s) := Math_random s in
      let p := Particle.mk x y ((r1 - 0.5) * 10) ((r2 - 0.5) * 10) 1 color (2 + r3 * 4) in
      createParticles x y color n (set_particles (particles s ++ [p]) s)
  end.

(** [nextQuiz], lines 167-171, as the closure that captured [captured] for
    [currentQuiz].  [indexOf] is at least -1, so the dividend of [%] is never
    negative and the index is below the length of the list: the read is
    never [undefined]. *)
Definition nextQuiz (captured : Quiz.t) (s : State) : State :=
  let nextIndex :=
    ((JS.indexOf Quiz.eqb QUIZ_LIST captured + 1) mod Z.of_nat (List.length QUIZ_LIST))%Z in
  let s := setCurrentQuiz (nth (Z.to_nat nextIndex) QUIZ_LIST captured) s in
  set_treats [] s.

(** The FaceMesh branch of [onResults], lines 207-230: with a face, the mouth
    position (mirrored) and the open flag are overwritten; without one they
    are left as they are. *)
Definition detect (results : Results.t) (width height : Q) (s : State) : State :=
  match Results.multiFaceLandmarks results with
  | Some (landmarks :: _) =>
      let topLip := landmarks 13%nat in
      let bottomLip := landmarks 14%nat in
      let cx := ((1 - (Point.x topLip + Point.x bottomLip) / 2) * width)%Q in
      let cy := ((Point.y topLip + Point.y bottomLip) / 2 * height)%Q in
      let s := set_mouthPos (Point.mk cx cy) s in
      let d2 := (JS.pow2 (Point.x topLip - Point.x bottomLip)
                 + JS.pow2 (Point.y topLip - Point.y bottomLip))%Q in
      set_isMouthOpen (JS.sqrt_gtb d2 MOUTH_OPEN_THRESHOLD) s
  | _ => s
  end.

(** The collision branch, lines 250-262, for the treat [t] (already moved). *)
Definition eat (captured : Quiz.t) (t : WordTreat.t) (s : State) : State :=
  if WordTreat.isCorrect t then
    let s := set_scoreRef (scoreRef s + 100) s in
    let s := setScore (scoreRef s) s in
    let s := createParticles (WordTreat.x t) (WordTreat.y t) "#4ade80" 20 s in
    let s := set_spoken (spoken s ++ [WordTreat.word t]) s in
    set_timeouts (timeouts s ++ [captured]) s
  else
    let s := set_scoreRef (Z.max 0 (scoreRef s - 50)) s in
    let s := setScore (scoreRef s) s in
    createParticles (WordTreat.x t) (WordTreat.y t) "#f87171" 10 s.

(** The squared distance under the root of [dToMouth], line 248. *)
Definition dToMouth2 (t : WordTreat.t) (s : State) : Q :=
  (JS.pow2 (WordTreat.x t - Point.x (mouthPos s))
   + JS.pow2 (WordTreat.y t - Point.y (mouthPos s)))%Q.

(** One iteration of the treat loop, lines 236-263: the treat as it stays in
    the array ([None] when spliced out) and the state after it. *)
Definition visit (captured : Quiz.t) (height : Q) (t : WordTreat.t) (s : State)
  : option WordTreat.t * State :=
  if negb (WordTreat.active t) then (None, s)
  else
    let t := WordTreat.set_y (WordTreat.y t + WordTreat.velocity t) t in
    if JS.gtb (WordTreat.y t) (height + 50) then (Some (WordTreat.set_active false t), s)
    else if isMouthOpen s && JS.sqrt_ltb (dToMouth2 t s) 70
    then (Some (WordTreat.set_active false t), eat captured t s)
    else (Some t, s).

(** The loop runs from the last index down to 0, so the tail is visited
    before the head; a splice at the current index moves no earlier entry. *)
Fixpoint treatLoop (captured : Quiz.t) (height : Q) (ts : list WordTreat.t) (s : State)
  : list WordTreat.t * State :=
  match ts with
  | [] => ([], s)
  | t :: rest =>
      let (rest', s) := treatLoop captured height rest s in
      let (t', s) := visit captured height t s in
      (match t' with Some t' => t' :: rest' | None => rest' end, s)
  end.

(** The advice trigger, lines 292-301. *)
Definition adviceTrigger (captured : Quiz.t) (now : Z) (s : State) : State :=
  if (now - lastCaptureTime s >? 7000)%Z then
    let s := set_lastCaptureTime now s in
    let s := setIsAiThinking true s in
    set_requests (requests s ++ [(captured, scoreRef s)]) s
  else s.

(** [onResults], lines 194-302, as created by the effect that captured
    [captured] for [currentQuiz]; [width] and [height] are the canvas size and
    [now] is [Date.now()]. *)
Definition onResults (captured : Quiz.t) (results : Results.t) (width height : Q)
    (now : Z) (s : State) : option State :=
  let s := detect results width height s in
  let (r, s) := Math_random s in
  let* s := if JS.ltb r 0.015 then spawnTreat width (Quiz.word captured) s else Some s in
  let (ts, s) := treatLoop captured height (treats s) s in
  let s := set_treats ts s in
  let s := set_particles (particleLoop 0.02 (particles s)) s in
  Some (adviceTrigger captured now s).

(** What can happen to the component: a camera frame, the oldest pending
    [nextQuiz] timer firing, the advice service answering.  The effect lists
    [currentQuiz] among its dependencies, so the [onResults] in force closes
    over the current quiz. *)
Inductive event :=
| Frame (results : Results.t) (width height : Q) (now : Z)
| NextQuizTimer
| AdviceAnswer.

Definition step (e : event) (s : State) : option State :=
  match e with
  | Frame results width height now => onResults (currentQuiz s) results width height now s
  | NextQuizTimer =>
      match timeouts s with
      | [] => None
      | captured :: rest => Some (nextQuiz captured (set_timeouts rest s))
      end
  | AdviceAnswer =>
      match requests s with
      | [] => None
      | _ :: rest => Some (setIsAiThinking false (set_requests rest s))
      end
  end.

Fixpoint run (es : list event) (s : State) : option State :=
  match es with
  | [] => Some s
  | e :: es => let* s := step e s in run es s
  end.

End Oracle.

End WordMuncher.

(** ** CakeMuncher, the point variant (src/App.tsx) *)

Module CakeMuncher.

(** [TREAT_CONFIG], lines 27-34.  The [emoji] strings are the three
    characters the source file holds. *)
Definition points_of (type : TreatType) : Z :=
  match type with
  | cupcake => 100 | cookie => 150 | donut => 200
  | icecream => 300 | cake => 500 | cherry => 1000
  end.

Definition emoji_of (type : TreatType) : string :=
  match type with
  | cupcake => "ðŸ§" | cookie => "ðŸª" | donut => "ðŸ©"
  | icecream => "ðŸ¦" | cake => "ðŸ°" | cherry => "ðŸ’"
  end.

Definition color_of (type : TreatType) : string :=
  match type with
  | cupcake => "#ff80ab" | cookie => "#a1887f" | donut => "#f06292"
  | icecream => "#81d4fa" | cake => "#ffd54f" | cherry => "#ef5350"
  end.

Definition MOUTH_OPEN_THRESHOLD : Q := 0.045%Q.

(** The refs, the React state the logic touches and the environment:
    [requests] holds the [getGourmetAdvice(screenshot, treats)] calls not yet
    answered.  [mouthOpenAmount] (a square root kept for drawing the mouth) is
    left out. *)
Record State := mkState {
  treats : list Treat.t;
  particles : list Particle.t;
  scoreRef : Z;
  mouthPos : Point.t;
  isMouthOpen : bool;
  lastCaptureTime : Z;
  score : Z;
  isAiThinking : bool;
  draws : nat;
  requests : list (list Treat.t) }.

Definition set_treats v s := mkState v (particles s) (scoreRef s) (mouthPos s) (isMouthOpen s) (lastCaptureTime s) (score s) (isAiThinking s) (draws s) (requests s).
Definition set_particles v s := mkState (treats s) v (scoreRef s) (mouthPos s) (isMouthOpen s) (lastCaptureTime s) (score s) (isAiThinking s) (draws s) (requests s).
Definition set_scoreRef v s := mkState (treats s) (particles s) v (mouthPos s) (isMouthOpen s) (lastCaptureTime s) (score s) (isAiThinking s) (draws s) (requests s).
Definition set_mouthPos v s := mkState (treats s) (particles s) (scoreRef s) v (isMouthOpen s) (lastCaptureTime s) (score s) (isAiThinking s) (draws s) (requests s).
Definition set_isMouthOpen v s := mkState (treats s) (particles s) (scoreRef s) (mouthPos s) v (lastCaptureTime s) (score s) (isAiThinking s) (draws s) (requests s).
Definition set_lastCaptureTime v s := mkState (treats s) (particles s) (scoreRef s) (mouthPos s) (isMouthOpen s) v (score s) (isAiThinking s) (draws s) (requests s).
Definition setScore v s := mkState (treats s) (particles s) (scoreRef s) (mouthPos s) (isMouthOpen s) (lastCaptureTime s) v (isAiThinking s) (draws s) (requests s).
Definition setIsAiThinking v s := mkState (treats s) (particles s) (scoreRef s) (mouthPos s) (isMouthOpen s) (lastCaptureTime s) (score s) v (draws s) (requests s).
Definition set_draws v s := mkState (treats s) (particles s) (scoreRef s) (mouthPos s) (isMouthOpen s) (lastCaptureTime s) (score s) (isAiThinking s) v (requests s).
Definition set_requests v s := mkState (treats s) (particles s) (scoreRef s) (mouthPos s) (isMouthOpen s) (lastCaptureTime s) (score s) (isAiThinking s) (draws s) v.

Definition init : State := mkState [] [] 0 (Point.mk 0 0) false 0 0 false 0 [].

(** What the callbacks close over: the [multiplier] and [isAiThinking] of the
    render in which they were created. *)
Record Closure := mkClosure { multiplier : Z; isAiThinking_seen : bool }.

Definition types : list TreatType := [cupcake; cookie; donut; icecream; cake; cherry].
Definition weights : list Z := [40; 30; 15; 8; 5; 2]%Z.

(** The weighting loop of [spawnTreat], lines 68-74, entered at index [i]
    with [n] iterations left, the running [sum] and the current [type]. *)
Fixpoint weightLoop (n i : nat) (rand : Q) (sum : Z) (type : TreatType) : TreatType :=
  match n with
  | O => type
  | S n' =>
      let sum := (sum + nth i weights 0)%Z in
      if JS.ltb rand (inject_Z sum) then nth i types type
      else weightLoop n' (S i) rand sum type
  end.

Section Oracle.
Variable random : nat -> Q.
Variable toString36 : Q -> string.

Definition Math_random (s : State) : Q * State :=
  (random (draws s), set_draws (S (draws s)) s).

(** [spawnTreat(width)], lines 61-89. *)
Definition spawnTreat (width : Q) (s : State) : State :=
  let (r, s) := Math_random s in
  let rand := (r * 100)%Q in
  let type := weightLoop (List.length weights) 0 rand 0 cupcake in
  let (r, s) := Math_random s in
  let id := JS.substr 2 9 (toString36 r) in
  let (r, s) := Math_random s in
  let x := (r * (width - 100) + 50)%Q in
  let (r, s) := Math_random s in
  let velocity := (2 + r * 3)%Q in
  let newTreat :=
    Treat.mk id x (-50) type true (points_of type) (emoji_of type) 1 velocity in
  set_treats (treats s ++ [newTreat]) s.

(** [createCrumbs(x, y, color)], lines 91-102. *)
Fixpoint createCrumbsLoop (n : nat) (x y : Q) (color : string) (s : State) : State :=
  match n with
  | O => s
  | S n =>
      let (r1, s) := Math_random s in
      let (r2, s) := Math_random s in
      let (r3, s) := Math_random s in
      let p := Particle.mk x y ((r1 - 0.5) * 10) ((r2 - 0.5) * 10) 1 color (3 + r3 * 5) in
      createCrumbsLoop n x y color (set_particles (particles s ++ [p]) s)
  end.

Definition createCrumbs (x y : Q) (color : string) (s : State) : State :=
  createCrumbsLoop 12 x y color s.

(** [handleAiAnalysis], lines 104-116, reading the [isAiThinking] its closure
    holds. *)
Definition handleAiAnalysis (c : Closure) (s : State) : State :=
  if isAiThinking_seen c || (List.length (filter Treat.active (treats s)) =? 0)%nat then s
  else
    let s := setIsAiThinking true s in
    set_requests (requests s ++ [treats s]) s.

(** The FaceMesh branch of [onResults], lines 151-186. *)
Definition detect (results : Results.t) (width height : Q) (s : State) : State :=
  match Results.multiFaceLandmarks results with
  | Some (landmarks :: _) =>
      let topLip := landmarks 13%nat in
      let bottomLip := landmarks 14%nat in
      let cx := ((Point.x topLip + Point.x bottomLip) / 2 * width)%Q in
      let cy := ((Point.y topLip + Point.y bottomLip) / 2 * height)%Q in
      let s := set_mouthPos (Point.mk cx cy) s in
      let d2 := (JS.pow2 (Point.x topLip - Point.x bottomLip)
                 + JS.pow2 (Point.y topLip - Point.y bottomLip))%Q in
      set_isMouthOpen (JS.sqrt_gtb d2 MOUTH_OPEN_THRESHOLD) s
  | _ => s
  end.

(** The collision branch, lines 207-210. *)
Definition eat (c : Closure) (t : Treat.t) (s : State) : State :=
  let s := set_scoreRef (scoreRef s + Treat.points t * multiplier c) s in
  let s := setScore (scoreRef s) s in
  createCrumbs (Treat.x t) (Treat.y t) (color_of (Treat.type t)) s.

Definition dToMouth2 (t : Treat.t) (s : State) : Q :=
  (JS.pow2 (Treat.x t - Point.x (mouthPos s))
   + JS.pow2 (Treat.y t - Point.y (mouthPos s)))%Q.

(** One iteration of the treat loop, lines 192-211. *)
Definition visit (c : Closure) (height : Q) (t : Treat.t) (s : State)
  : option Treat.t * State :=
  if negb (Treat.active t) then (None, s)
  else
    let t := Treat.set_y (Treat.y t + Treat.velocity t) t in
    if JS.gtb (Treat.y t) (height + 50) then (Some (Treat.set_active false t), s)
    else if isMouthOpen s && JS.sqrt_ltb (dToMouth2 t s) 60
    then (Some (Treat.set_active false t), eat c t s)
    else (Some t, s).

Fixpoint treatLoop (c : Closure) (height : Q) (ts : list Treat.t) (s : State)
  : list Treat.t * State :=
  match ts with
  | [] => ([], s)
  | t :: rest =>
      let (rest', s) := treatLoop c height rest s in
      let (t', s) := visit c height t s in
      (match t' with Some t' => t' :: rest' | None => rest' end, s)
  end.

(** The AI trigger, lines 245-248. *)
Definition aiTrigger (c : Closure) (now : Z) (s : State) : State :=
  if (now - lastCaptureTime s >? 5000)%Z then
    handleAiAnalysis c (set_lastCaptureTime now s)
  else s.

(** [onResults], lines 136-249; [clientWidth] and [clientHeight] are the
    container's, 0 standing for a missing value as well. *)
Definition onResults (c : Closure) (results : Results.t) (clientWidth clientHeight : Q)
    (now : Z) (s : State) : State :=
  let width := if Qeq_bool clientWidth 0 then 800%Q else clientWidth in
  let height := if Qeq_bool clientHeight 0 then 600%Q else clientHeight in
  let s := detect results width height s in
  let (r, s) := Math_random s in
  let s := if JS.ltb r 0.02 then spawnTreat width s else s in
  let (ts, s) := treatLoop c height (treats s) s in
  let s := set_treats ts s in
  let s := set_particles (particleLoop 0.02 (particles s)) s in
  aiTrigger c now s.

(** The closure in force.  The effect that creates [onResults] (lines
    118-266) lists [spawnTreat] and [multiplier] as its dependencies; the
    first is memoized with no dependency and nothing ever calls
    [setMultiplier], so the effect runs once and [onResults], with the
    [handleAiAnalysis] it calls, is the one of the first render: it sees the
    initial [multiplier] and the initial [isAiThinking]. *)
Definition mounted : Closure := mkClosure 1 false.

(** What can happen to the component: a camera frame, the analysis service
    answering the oldest pending request. *)
Inductive event :=
| Frame (results : Results.t) (clientWidth clientHeight : Q) (now : Z)
| AnalysisAnswer.

Definition step (e : event) (s : State) : option State :=
  match e with
  | Frame results clientWidth clientHeight now =>
      Some (onResults mounted results clientWidth clientHeight now s)
  | AnalysisAnswer =>
      match requests s with
      | [] => None
      | _ :: rest => Some (setIsAiThinking false (set_requests rest s))
      end
  end.

Fixpoint run (es : list event) (s : State) : option State :=
  match es with
  | [] => Some s
  | e :: es => let* s := step e s in run es s
  end.

End Oracle.

End CakeMuncher.

(** ** WordMuncher on face-api.js (src/unnamed/part_001) *)

Module WordMuncherFaceApi.

Definition QUIZ_LIST : list Quiz.t := WordMuncher.QUIZ_LIST.

Definition TREAT_TYPES : list TreatType := [cupcake; cookie; donut; icecream; cake].

Definition TREAT_EMOJIS (type : TreatType) : string :=
  match type with
  | cupcake => "🧁" | cookie => "🍪" | donut => "🍩"
  | icecream => "🍦" | cake => "🍰" | cherry => "🍒"
  end.

(** [interface FallingWord], lines 27-35; an [emoji] looked up at an
    [undefined] type is [None]. *)
Module FallingWord.
Record t := mk {
  id : string; x : Q; y : Q; word : string; emoji : option string;
  isCorrect : bool; velocity : Q }.
Definition set_y (v : Q) (w : t) : t :=
  mk (id w) (x w) v (word w) (emoji w) (isCorrect w) (velocity w).
End FallingWord.

Definition MOUTH_OPEN_THRESHOLD : Q := 0.06%Q.

(** What face-api returns for a face: the 68 landmark positions (video
    pixels) and the height of the detection box. *)
Module Detection.
Record t := mk { positions : nat -> Point.t; box_height : Q }.
End Detection.

(** The refs, the React state and the environment: [timeouts] counts the
    pending quiz-advance timers of lines 280-284. *)
Record State := mkState {
  wordsRef : list FallingWord.t;
  particlesRef : list Particle.t;
  mouthPosRef : Point.t;
  isMouthOpenRef : bool;
  scoreRef : Z;
  lastSpawnRef : Z;
  quizIndexRef : Z;
  runningRef : bool;
  score : Z;
  quizIndex : Z;
  mouthOpen : bool;
  faceDetected : bool;
  draws : nat;
  timeouts : nat }.

Definition set_wordsRef v s := mkState v (particlesRef s) (mouthPosRef s) (isMouthOpenRef s) (scoreRef s) (lastSpawnRef s) (quizIndexRef s) (runningRef s) (score s) (quizIndex s) (mouthOpen s) (faceDetected s) (draws s) (timeouts s).
Definition set_particlesRef v s := mkState (wordsRef s) v (mouthPosRef s) (isMouthOpenRef s) (scoreRef s) (lastSpawnRef s) (quizIndexRef s) (runningRef s) (score s) (quizIndex s) (mouthOpen s) (faceDetected s) (draws s) (timeouts s).
Definition set_mouthPosRef v s := mkState (wordsRef s) (particlesRef s) v (isMouthOpenRef s) (scoreRef s) (lastSpawnRef s) (quizIndexRef s) (runningRef s) (score s) (quizIndex s) (mouthOpen s) (faceDetected s) (draws s) (timeouts s).
Definition set_isMouthOpenRef v s := mkState (wordsRef s) (particlesRef s) (mouthPosRef s) v (scoreRef s) (lastSpawnRef s) (quizIndexRef s) (runningRef s) (score s) (quizIndex s) (mouthOpen s) (faceDetected s) (draws s) (timeouts s).
Definition set_scoreRef v s := mkState (wordsRef s) (particlesRef s) (mouthPosRef s) (isMouthOpenRef s) v (lastSpawnRef s) (quizIndexRef s) (runningRef s) (score s) (quizIndex s) (mouthOpen s) (faceDetected s) (draws s) (timeouts s).
Definition set_lastSpawnRef v s := mkState (wordsRef s) (particlesRef s) (mouthPosRef s) (isMouthOpenRef s) (scoreRef s) v (quizIndexRef s) (runningRef s) (score s) (quizIndex s) (mouthOpen s) (faceDetected s) (draws s) (timeouts s).
Definition set_quizIndexRef v s := mkState (wordsRef s) (particlesRef s) (mouthPosRef s) (isMouthOpenRef s) (scoreRef s) (lastSpawnRef s) v (runningRef s) (score s) (quizIndex s) (mouthOpen s) (faceDetected s) (draws s) (timeouts s).
Definition setScore v s := mkState (wordsRef s) (particlesRef s) (mouthPosRef s) (isMouthOpenRef s) (scoreRef s) (lastSpawnRef s) (quizIndexRef s) (runningRef s) v (quizIndex s) (mouthOpen s) (faceDetected s) (draws s) (timeouts s).
Definition setQuizIndex v s := mkState (wordsRef s) (particlesRef s) (mouthPosRef s) (isMouthOpenRef s) (scoreRef s) (lastSpawnRef s) (quizIndexRef s) (runningRef s) (score s) v (mouthOpen s) (faceDetected s) (draws s) (timeouts s).
Definition setMouthOpen v s := mkState (wordsRef s) (particlesRef s) (mouthPosRef s) (isMouthOpenRef s) (scoreRef s) (lastSpawnRef s) (quizIndexRef s) (runningRef s) (score s) (quizIndex s) v (faceDetected s) (draws s) (timeouts s).
Definition setFaceDetected v s := mkState (wordsRef s) (particlesRef s) (mouthPosRef s) (isMouthOpenRef s) (scoreRef s) (lastSpawnRef s) (quizIndexRef s) (runningRef s) (score s) (quizIndex s) (mouthOpen s) v (draws s) (timeouts s).
Definition set_draws v s := mkState (wordsRef s) (particlesRef s) (mouthPosRef s) (isMouthOpenRef s) (scoreRef s) (lastSpawnRef s) (quizIndexRef s) (runningRef s) (score s) (quizIndex s) (mouthOpen s) (faceDetected s) v (timeouts s).
Definition set_timeouts v s := mkState (wordsRef s) (particlesRef s) (mouthPosRef s) (isMouthOpenRef s) (scoreRef s) (lastSpawnRef s) (quizIndexRef s) (runningRef s) (score s) (quizIndex s) (mouthOpen s) (faceDetected s) (draws s) v.

Definition init : State :=
  mkState [] [] (Point.mk 0 0) false 0 0 0 true 0 0 false false 0 0.

Section Oracle.
Variable random : nat -> Q.
Variable toString36 : Q -> string.

Definition Math_random (s : State) : Q * State :=
  (random (draws s), set_draws (S (draws s)) s).

(** The word of an incorrect treat, lines 79-81: the quiz list without the
    target, read at a random index below [QUIZ_LIST.length - 1]. *)
Definition otherWord (quiz : Quiz.t) (r : Q) : option string :=
  let others := filter (fun q => negb (String.eqb (Quiz.word q) (Quiz.word quiz))) QUIZ_LIST in
  let* q := JS.index others (Qfloor (r * (JS.len QUIZ_LIST - 1))) in
  Some (Quiz.word q).

(** [spawnWord(width)], lines 73-92. *)
Definition spawnWord (width : Q) (s : State) : option State :=
  let (r, s) := Math_random s in
  let type := JS.index TREAT_TYPES (Qfloor (r * JS.len TREAT_TYPES)) in
  let* quiz := JS.index QUIZ_LIST (quizIndexRef s) in
  let (r, s) := Math_random s in
  let isCorrect := JS.ltb r 0.35 in
  let* (word, s) :=
    if isCorrect then Some (Quiz.word quiz, s)
    else
      let (r, s) := Math_random s in
      let* w := otherWord quiz r in
      Some (w, s) in
  let (r, s) := Math_random s in
  let id := JS.slice 2 (toString36 r) in
  let (r, s) := Math_random s in
  let x := (100 + r * (width - 200))%Q in
  let emoji := option_map TREAT_EMOJIS type in
  let (r, s) := Math_random s in
  let velocity := (2 + r * 2)%Q in
  Some (set_wordsRef
          (wordsRef s ++ [FallingWord.mk id x (-60) word emoji isCorrect velocity]) s).

(** [createParticles(x, y, color)], lines 95-104. *)
Fixpoint createParticlesLoop (n : nat) (x y : Q) (color : string) (s : State) : State :=
  match n with
  | O => s
  | S n =>
      let (r1, s) := Math_random s in
      let (r2, s) := Math_random s in
      let (r3, s) := Math_random s in
      let p := Particle.mk x y ((r1 - 0.5) * 12) ((r2 - 0.5) * 12) 1 color (3 + r3 * 5) in
      createParticlesLoop n x y color (set_particlesRef (particlesRef s ++ [p]) s)
  end.

Definition createParticles (x y : Q) (color : string) (s : State) : State :=
  createParticlesLoop 15 x y color s.

(** [detectFace], lines 169-209, on the outcome [detection] of the detector
    ([None]: no face) for a video of the given size and ready state.  The
    video size and the box height are positive whenever a face is found. *)
Definition detectFace (readyState : Z) (detection : option Detection.t)
    (canvasWidth canvasHeight videoWidth videoHeight : Q) (s : State) : State :=
  if negb (runningRef s) || (readyState <? 2)%Z then s
  else
    match detection with
    | Some d =>
        let s := setFaceDetected true s in
        let upperLip := Detection.positions d 62%nat in
        let lowerLip := Detection.positions d 66%nat in
        let faceHeight := Detection.box_height d in
        let scaleX := (canvasWidth / videoWidth)%Q in
        let scaleY := (canvasHeight / videoHeight)%Q in
        let mouthX := (canvasWidth - ((Point.x upperLip + Point.x lowerLip) / 2) * scaleX)%Q in
        let mouthY := (((Point.y upperLip + Point.y lowerLip) / 2) * scaleY)%Q in
        let s := set_mouthPosRef (Point.mk mouthX mouthY) s in
        let lipDist := Qabs (Point.y lowerLip - Point.y upperLip) in
        let mouthOpenRatio := (lipDist / faceHeight)%Q in
        let s := set_isMouthOpenRef (JS.gtb mouthOpenRatio MOUTH_OPEN_THRESHOLD) s in
        setMouthOpen (isMouthOpenRef s) s
    | None => setFaceDetected false s
    end.

(** The collision branch, lines 275-290, for the word [w] (already moved and
    spliced out). *)
Definition eat (w : FallingWord.t) (s : State) : State :=
  if FallingWord.isCorrect w then
    let s := set_scoreRef (scoreRef s + 100) s in
    let s := setScore (scoreRef s) s in
    let s := createParticles (FallingWord.x w) (FallingWord.y w) "#4ade80" s in
    set_timeouts (S (timeouts s)) s
  else
    let s := set_scoreRef (Z.max 0 (scoreRef s - 50)) s in
    let s := setScore (scoreRef s) s in
    createParticles (FallingWord.x w) (FallingWord.y w) "#f87171" s.

(** [dx * dx + dy * dy], lines 270-272, against the [mouth] read when the
    frame started. *)
Definition dist2 (mouth : Point.t) (w : FallingWord.t) : Q :=
  let dx := (FallingWord.x w - Point.x mouth)%Q in
  let dy := (FallingWord.y w - Point.y mouth)%Q in
  (dx * dx + dy * dy)%Q.

(** One iteration of the word loop, lines 261-291. *)
Definition visit (mouth : Point.t) (height : Q) (w : FallingWord.t) (s : State)
  : option FallingWord.t * State :=
  let w := FallingWord.set_y (FallingWord.y w + FallingWord.velocity w) w in
  if JS.gtb (FallingWord.y w) (height + 60) then (None, s)
  else if isMouthOpenRef s && JS.sqrt_ltb (dist2 mouth w) 70 then (None, eat w s)
  else (Some w, s).

Fixpoint wordLoop (mouth : Point.t) (height : Q) (ws : list FallingWord.t) (s : State)
  : list FallingWord.t * State :=
  match ws with
  | [] => ([], s)
  | w :: rest =>
      let (rest', s) := wordLoop mouth height rest s in
      let (w', s) := visit mouth height w s in
      (match w' with Some w' => w' :: rest' | None => rest' end, s)
  end.

(** [gameLoop], lines 212-328, on a canvas of the given size at
    [now = Date.now()]. *)
Definition gameLoop (width height : Q) (now : Z) (s : State) : option State :=
  if negb (runningRef s) then Some s
  else
    let mouth := mouthPosRef s in
    let* s :=
      if (now - lastSpawnRef s >? 1500)%Z
      then spawnWord width (set_lastSpawnRef now s)
      else Some s in
    let (ws, s) := wordLoop mouth height (wordsRef s) s in
    let s := set_wordsRef ws s in
    Some (set_particlesRef (particleLoop 0.025 (particlesRef s)) s).

(** The timer callback of lines 280-284; [%] takes the sign of the dividend
    ([Z.rem]). *)
Definition advanceQuiz (s : State) : State :=
  let s := set_quizIndexRef
             (Z.rem (quizIndexRef s + 1) (Z.of_nat (List.length QUIZ_LIST))) s in
  let s := setQuizIndex (quizIndexRef s) s in
  set_wordsRef [] s.

(** What can happen: an animation frame, a detection tick (every 100 ms), a
    pending quiz-advance timer firing. *)
Inductive event :=
| AnimationFrame (width height : Q) (now : Z)
| DetectionTick (readyState : Z) (detection : option Detection.t)
    (canvasWidth canvasHeight videoWidth videoHeight : Q)
| AdvanceTimer.

Definition step (e : event) (s : State) : option State :=
  match e with
  | AnimationFrame width height now => gameLoop width height now s
  | DetectionTick readyState detection cw ch vw vh =>
      Some (detectFace readyState detection cw ch vw vh s)
  | AdvanceTimer =>
      match timeouts s with
      | O => None
      | S n => Some (advanceQuiz (set_timeouts n s))
      end
  end.

Fixpoint run (es : list event) (s : State) : option State :=
  match es with
  | [] => Some s
  | e :: es => let* s := step e s in run es s
  end.

End Oracle.

End WordMuncherFaceApi.

(** ** Pronunciation audio (src/unnamed/part_000, lines 33-126) *)

Module Audio.

(** An [AudioBuffer]: its channel count, length in frames, sample rate and
    the samples of each channel. *)
Module AudioBuffer.
Record t := mk {
  numberOfChannels : nat; length : nat; sampleRate : Z; channelData : list (list Q) }.
End AudioBuffer.

(** [new Int16Array(data.buffer)] over the bytes of a [Uint8Array] that
    spans its buffer, as the one [decodeBase64] allocates does: a
    [RangeError] when the byte length is odd, otherwise the 16-bit two's
    complement elements, low byte first (the byte order of every platform
    that runs a browser). *)
Fixpoint Int16Array (bytes : list Z) : option (list Z) :=
  match bytes with
  | [] => Some []
  | lo :: hi :: rest =>
      let* elements := Int16Array rest in
      let u := (lo + 256 * hi)%Z in
      Some ((if (u <? 32768)%Z then u else (u - 65536)%Z) :: elements)
  | [_] => None
  end.

Section Browser.
(** [atob], with [None] for the exception it raises on malformed input; the
    binary string it returns has one character per byte. *)
Variable atob : string -> option string.
(** Whether [ctx.createBuffer] accepts a channel count, a length and a sample
    rate (it raises otherwise). *)
Variable supported : nat -> nat -> Z -> bool.

(** [decodeBase64], lines 36-44. *)
Definition decodeBase64 (base64 : string) : option (list Z) :=
  let* binaryString := atob base64 in
  Some (map (fun c => Z.of_nat (nat_of_ascii c)) (list_ascii_of_string binaryString)).

(** [decodeAudioData], lines 49-66.  [frameCount] is the quotient of the
    element count by the channel count; [createBuffer] takes its integer
    part as the length, and the writes of the copy loop beyond that length do
    nothing.  A channel count of zero is rejected by [createBuffer]. *)
Definition decodeAudioData (data : list Z) (sampleRate : Z) (numChannels : nat)
  : option AudioBuffer.t :=
  let* dataInt16 := Int16Array data in
  match numChannels with
  | O => None
  | S _ =>
      let frameCount := (List.length dataInt16 / numChannels)%nat in
      if supported numChannels frameCount sampleRate then
        Some (AudioBuffer.mk numChannels frameCount sampleRate
                (map (fun channel =>
                        map (fun i =>
                               (inject_Z (nth (i * numChannels + channel) dataInt16 0%Z)
                                / 32768)%Q)
                          (seq 0 frameCount))
                   (seq 0 numChannels)))
      else None
  end.

(** How [playWordPronunciation] ends, for the answer [base64Audio] of
    [speakWord] ([None] is [undefined]): a buffer handed to [source.start()],
    the silent branch, or an exception out of the decoding. *)
Inductive Playback :=
| Started (buffer : AudioBuffer.t)
| Silent
| Rejected.

(** [playWordPronunciation], lines 103-126, after [setIsPlayingAudio(true)]
    and the answer of [speakWord].  The creation and resumption of the audio
    context are left out. *)
Definition playWordPronunciation (base64Audio : option string) : Playback :=
  match base64Audio with
  | None => Silent
  | Some EmptyString => Silent
  | Some base64 =>
      match decodeBase64 base64 with
      | None => Rejected
      | Some audioBytes =>
          match decodeAudioData audioBytes 24000 1 with
          | None => Rejected
          | Some audioBuffer => Started audioBuffer
          end
      end
  end.

(** [isPlayingAudio] once the call has settled and before any [onended]: it
    was set before the request and only the silent branch clears it. *)
Definition isPlayingAudio (p : Playback) : bool :=
  match p with
  | Silent => false
  | Started _ | Rejected => true
  end.

End Browser.

End Audio.

(** ** Specification vocabulary *)

Module Spec.

(** The Euclidean distance of two screen points, as a real number. *)
Definition distance (a b : Point.t) : R :=
  sqrt ((Q2R (Point.x a) - Q2R (Point.x b)) * (Q2R (Point.x a) - Q2R (Point.x b))
        + (Q2R (Point.y a) - Q2R (Point.y b)) * (Q2R (Point.y a) - Q2R (Point.y b)))%R.

(** A tape of draws as [Math.random] produces them: each in [0,1). *)
Definition unit_draws (random : nat -> Q) : Prop :=
  forall n, (0 <= random n)%Q /\ (random n < 1)%Q.

(** A tape that replays the given draws and then settles on 1/2. *)
Definition replay (l : list Q) (n : nat) : Q := nth n l 0.5%Q.

(** A FaceMesh result with one face whose lips are at the given points. *)
Definition face (topLip bottomLip : Point.t) : Results.t :=
  Results.mk (Some [fun n => match n with 13%nat => topLip | _ => bottomLip end]).

(** The cumulative weight of the categories up to index [i] of the point
    variant's table. *)
Definition cumulative (i : nat) : Z :=
  fold_right Z.add 0%Z (firstn (S i) CakeMuncher.weights).

(** A visit of the treat loop is a collision when it changes the game state
    (score, particles, timers, audio log): only the collision branch does. *)
Definition mesh_fires (random : nat -> Q) (c : Quiz.t) (height : Q)
    (t : WordTreat.t) (s : WordMuncher.State) : Prop :=
  snd (WordMuncher.visit random c height t s) <> s.

Definition cake_fires (random : nat -> Q) (c : CakeMuncher.Closure) (height : Q)
    (t : Treat.t) (s : CakeMuncher.State) : Prop :=
  snd (CakeMuncher.visit random c height t s) <> s.

Definition faceapi_fires (random : nat -> Q) (mouth : Point.t) (height : Q)
    (w : WordMuncherFaceApi.FallingWord.t) (s : WordMuncherFaceApi.State) : Prop :=
  snd (WordMuncherFaceApi.visit random mouth height w s) <> s.

(** A treat is consumed on a tick, in the words of the specification: it is
    active, still in view after its move, the mouth is open and the moved
    treat is within the capture radius of the mouth. *)
Definition mesh_bites (height : Q) (t : WordTreat.t) (s : WordMuncher.State) : bool :=
  WordTreat.active t
  && JS.leb (WordTreat.y t + WordTreat.velocity t) (height + 50)
  && WordMuncher.isMouthOpen s
  && JS.sqrt_ltb
       (JS.pow2 (WordTreat.x t - Point.x (WordMuncher.mouthPos s))
        + JS.pow2 (WordTreat.y t + WordTreat.velocity t
                   - Point.y (WordMuncher.mouthPos s))) 70.

Definition faceapi_bites (mouth : Point.t) (height : Q)
    (w : WordMuncherFaceApi.FallingWord.t) (s : WordMuncherFaceApi.State) : bool :=
  JS.leb (WordMuncherFaceApi.FallingWord.y w + WordMuncherFaceApi.FallingWord.velocity w)
    (height + 60)
  && WordMuncherFaceApi.isMouthOpenRef s
  && JS.sqrt_ltb
       (JS.pow2 (WordMuncherFaceApi.FallingWord.x w - Point.x mouth)
        + JS.pow2 (WordMuncherFaceApi.FallingWord.y w
                   + WordMuncherFaceApi.FallingWord.velocity w - Point.y mouth)) 70.

(** The number of correct treats consumed among the treats a tick visits. *)
Definition mesh_correct_bites (height : Q) (ts : list WordTreat.t)
    (s : WordMuncher.State) : nat :=
  List.length (filter (fun t => mesh_bites height t s && WordTreat.isCorrect t) ts).

Definition faceapi_correct_bites (mouth : Point.t) (height : Q)
    (ws : list WordMuncherFaceApi.FallingWord.t) (s : WordMuncherFaceApi.State) : nat :=
  List.length
    (filter (fun w => faceapi_bites mouth height w s
                      && WordMuncherFaceApi.FallingWord.isCorrect w) ws).


Definition quiz_at (i : nat) : Quiz.t :=
  nth i WordMuncher.QUIZ_LIST (Quiz.mk "" "" "" "").

(** The quiz a [nextQuiz] closure installs when it has captured [captured]. *)
Definition successor_of (captured : Quiz.t) : Quiz.t :=
  WordMuncher.currentQuiz (WordMuncher.nextQuiz captured WordMuncher.init).


(** The states the word-matching components can be in. *)
Definition mesh_reachable (random : nat -> Q) (toString36 : Q -> string)
    (s : WordMuncher.State) : Prop :=
  exists es, WordMuncher.run random toString36 es WordMuncher.init = Some s.

Definition faceapi_reachable (random : nat -> Q) (toString36 : Q -> string)
    (s : WordMuncherFaceApi.State) : Prop :=
  exists es, WordMuncherFaceApi.run random toString36 es WordMuncherFaceApi.init = Some s.

(** Every treat in the store is flagged correct exactly when its word is the
    word of the quiz target in force. *)
Definition mesh_flags_agree (s : WordMuncher.State) : Prop :=
  forall t, In t (WordMuncher.treats s) ->
    (WordTreat.isCorrect t = true
     <-> WordTreat.word t = Quiz.word (WordMuncher.currentQuiz s)).


(** A treat after the move of one frame: [t.y += t.velocity]. *)
Definition mesh_fall (t : WordTreat.t) : WordTreat.t :=
  WordTreat.set_y (WordTreat.y t + WordTreat.velocity t) t.

Definition cake_fall (t : Treat.t) : Treat.t :=
  Treat.set_y (Treat.y t + Treat.velocity t) t.

Definition faceapi_fall (w : WordMuncherFaceApi.FallingWord.t)
  : WordMuncherFaceApi.FallingWord.t :=
  WordMuncherFaceApi.FallingWord.set_y
    (WordMuncherFaceApi.FallingWord.y w + WordMuncherFaceApi.FallingWord.velocity w) w.

(** Consumption on a tick of the point variant: capture radius 60. *)
Definition cake_bites (height : Q) (t : Treat.t) (s : CakeMuncher.State) : bool :=
  Treat.active t
  && JS.leb (Treat.y t + Treat.velocity t) (height + 50)
  && CakeMuncher.isMouthOpen s
  && JS.sqrt_ltb
       (JS.pow2 (Treat.x t - Point.x (CakeMuncher.mouthPos s))
        + JS.pow2 (Treat.y t + Treat.velocity t - Point.y (CakeMuncher.mouthPos s))) 60.

(** The points of the treats a tick of the point variant consumes. *)
Definition cake_gain (height : Q) (ts : list Treat.t) (s : CakeMuncher.State) : Z :=
  fold_right Z.add 0%Z (map Treat.points (filter (fun t => cake_bites height t s) ts)).

(** The number of incorrect treats consumed among the treats a tick visits. *)
Definition mesh_wrong_bites (height : Q) (ts : list WordTreat.t)
    (s : WordMuncher.State) : nat :=
  List.length (filter (fun t => mesh_bites height t s && negb (WordTreat.isCorrect t)) ts).

Definition faceapi_wrong_bites (mouth : Point.t) (height : Q)
    (ws : list WordMuncherFaceApi.FallingWord.t) (s : WordMuncherFaceApi.State) : nat :=
  List.length
    (filter (fun w => faceapi_bites mouth height w s
                      && negb (WordMuncherFaceApi.FallingWord.isCorrect w)) ws).

(** [n] consecutive frames of the particle loop. *)
Definition particle_frames (step : Q) (n : nat) (ps : list Particle.t) : list Particle.t :=
  Nat.iter n (particleLoop step) ps.

(** A normalized landmark inside the picture. *)
Definition in_picture (p : Point.t) : Prop :=
  (0 <= Point.x p <= 1)%Q /\ (0 <= Point.y p <= 1)%Q.

(** A particle as the three components create it at [(x, y)]: full life, the
    given colour, each velocity component in [[-reach, reach)] (the lower
    end is taken at draw 0) and a size in [[small, large)]. *)
Definition fresh_particle (x y : Q) (color : string) (reach small large : Q)
    (p : Particle.t) : Prop :=
  Particle.x p = x /\ Particle.y p = y /\ Particle.life p = 1%Q
  /\ Particle.color p = color
  /\ (- reach <= Particle.vx p < reach)%Q
  /\ (- reach <= Particle.vy p < reach)%Q
  /\ (small <= Particle.size p < large)%Q.

(** A byte of a [Uint8Array]. *)
Definition byte (b : Z) : Prop := (0 <= b < 256)%Z.

(** The signed 16-bit value of two bytes, low byte first. *)
Definition int16_le (lo hi : Z) : Z :=
  ((lo + 256 * hi + 32768) mod 65536 - 32768)%Z.

(** The books of the word-matching components: the displayed values mirror
    the refs, the quiz index is one of the list and every stored particle is
    alive and at most at full life. *)
Definition mesh_books_ok (s : WordMuncher.State) : Prop :=
  WordMuncher.score s = WordMuncher.scoreRef s
  /\ (forall p, In p (WordMuncher.particles s) -> (0 < Particle.life p <= 1)%Q).

(** The state a frame hands to its treat loop -- [onResults] up to the spawn
    of line 233 (part_000), of line 189 (App.tsx), [gameLoop] up to the spawn
    of lines 253-256 (part_001): the state after detection and the spawn
    draw, with the treat the spawner appended when the draw was below the
    spawn probability (when more than 1500 ms have passed since the last
    spawn in the face-api variant, which takes no draw for the decision). *)
Definition mesh_loop_start (random : nat -> Q) (toString36 : Q -> string)
    (c : Quiz.t) (r : Results.t) (w h : Q) (s : WordMuncher.State)
  : option WordMuncher.State :=
  let d := WordMuncher.detect r w h s in
  let (x, d) := WordMuncher.Math_random random d in
  if JS.ltb x 0.015 then WordMuncher.spawnTreat random toString36 w (Quiz.word c) d
  else Some d.

Definition cake_loop_start (random : nat -> Q) (toString36 : Q -> string)
    (r : Results.t) (clientWidth clientHeight : Q) (s : CakeMuncher.State)
  : CakeMuncher.State :=
  let width := if Qeq_bool clientWidth 0 then 800%Q else clientWidth in
  let height := if Qeq_bool clientHeight 0 then 600%Q else clientHeight in
  let d := CakeMuncher.detect r width height s in
  let (x, d) := CakeMuncher.Math_random random d in
  if JS.ltb x 0.02 then CakeMuncher.spawnTreat random toString36 width d else d.

Definition faceapi_loop_start (random : nat -> Q) (toString36 : Q -> string)
    (w : Q) (now : Z) (s : WordMuncherFaceApi.State)
  : option WordMuncherFaceApi.State :=
  if (now - WordMuncherFaceApi.lastSpawnRef s >? 1500)%Z
  then WordMuncherFaceApi.spawnWord random toString36 w
         (WordMuncherFaceApi.set_lastSpawnRef now s)
  else Some s.

(** The states the point variant can be in. *)
Definition cake_reachable (random : nat -> Q) (toString36 : Q -> string)
    (s : CakeMuncher.State) : Prop :=
  exists es, CakeMuncher.run random toString36 es CakeMuncher.init = Some s.

(** The books of the point variant: the displayed score mirrors the score
    ref, every stored treat is worth the points of its category and every
    stored particle is alive. *)
Definition cake_books_ok (s : CakeMuncher.State) : Prop :=
  CakeMuncher.score s = CakeMuncher.scoreRef s
  /\ (forall t, In t (CakeMuncher.treats s) ->
        Treat.points t = CakeMuncher.points_of (Treat.type t))
  /\ (forall p, In p (CakeMuncher.particles s) -> (0 < Particle.life p <= 1)%Q).

Definition cake_motion_ok (s : CakeMuncher.State) : Prop :=
  forall t, In t (CakeMuncher.treats s) ->
    (2 <= Treat.velocity t < 5)%Q /\ (-50 <= Treat.y t)%Q.

(** The motion of the falling treats: a speed within the range the spawner
    draws from, and a height no less than the line they are spawned on. *)
Definition mesh_motion_ok (s : WordMuncher.State) : Prop :=
  forall t, In t (WordMuncher.treats s) ->
    (1.5 <= WordTreat.velocity t < 3.5)%Q /\ (-50 <= WordTreat.y t)%Q.

Definition faceapi_books_ok (s : WordMuncherFaceApi.State) : Prop :=
  WordMuncherFaceApi.score s = WordMuncherFaceApi.scoreRef s
  /\ WordMuncherFaceApi.quizIndex s = WordMuncherFaceApi.quizIndexRef s
  /\ (0 <= WordMuncherFaceApi.quizIndexRef s < 8)%Z
  /\ (forall p, In p (WordMuncherFaceApi.particlesRef s) -> (0 < Particle.life p <= 1)%Q).

Definition faceapi_motion_ok (s : WordMuncherFaceApi.State) : Prop :=
  forall w, In w (WordMuncherFaceApi.wordsRef s) ->
    (2 <= WordMuncherFaceApi.FallingWord.velocity w < 4)%Q
    /\ (-60 <= WordMuncherFaceApi.FallingWord.y w)%Q.

End Spec.

(** ** Scenarios: concrete states, treats and runs *)

Module Scenario.

Definition apple : Quiz.t := nth 0 WordMuncher.QUIZ_LIST (Quiz.mk "" "" "" "").

(** A 800x600 canvas with the open mouth low in the picture, and a correct
    treat right under it that leaves the viewport on its next move. *)
Definition low_mouth : WordMuncher.State :=
  WordMuncher.mkState [] [] 0 (Point.mk 400 585) true 0 0 apple false 0 [] [] [].

Definition leaving_treat : WordTreat.t :=
  WordTreat.mk "i" 400 649 cupcake "Apple" true true 3.

(** That state with the leaving treat as its only treat. *)
Definition one_leaving : WordMuncher.State :=
  WordMuncher.set_treats [leaving_treat] low_mouth.

(** A treat 69 px, and one 71 px, above that mouth after its move. *)
Definition treat_at_69 : WordTreat.t :=
  WordTreat.mk "a" 400 514 cupcake "Apple" true true 2.

Definition treat_at_71 : WordTreat.t :=
  WordTreat.mk "b" 400 512 cupcake "Apple" true true 2.

(** A face whose open mouth is at the top edge: on a 800x600 canvas the mouth
    centre is (400, 15) and the lips are 0.05 apart. *)
Definition mouth_at_top : Results.t :=
  Spec.face (Point.mk 0.5 0) (Point.mk 0.5 0.05).

(** Two frames: the first sees that open mouth and spawns nothing (draw
    0.5); the second sees no face, spawns a correct treat in the middle column
    (draws: spawn test, type, correctness coin, identifier, column, speed) and
    eats it.  The particle draws that follow are 1/2. *)
Definition faceless_bite : option WordMuncher.State :=
  WordMuncher.run (Spec.replay [0.5; 0.01; 0; 0.1; 0.5; 0.5; 0.5]%Q) JS.toString36
    [WordMuncher.Frame mouth_at_top 800 600 1000;
     WordMuncher.Frame (Results.mk None) 800 600 1016] WordMuncher.init.

(** Two frames 7001 ms apart with no face and no spawn. *)
Definition idle_frame_1 : WordMuncher.event :=
  WordMuncher.Frame (Results.mk None) 800 600 7001.

Definition idle_frame_2 : WordMuncher.event :=
  WordMuncher.Frame (Results.mk None) 800 600 14002.

(** Two frames that each spawn a treat; both identifier draws are 1/2. *)
Definition twin_spawns : option WordMuncher.State :=
  WordMuncher.run
    (Spec.replay [0.01; 0; 0.1; 0.5; 0.5; 0.5; 0.01; 0; 0.1; 0.5; 0.25; 0.5]%Q)
    JS.toString36
    [WordMuncher.Frame (Results.mk None) 800 600 1000;
     WordMuncher.Frame (Results.mk None) 800 600 1016] WordMuncher.init.

(** The draws of a frame that spawns a correct treat in the middle column. *)
Definition correct_spawn : list Q := [0.01; 0; 0.1; 0.5; 0.5; 0.5]%Q.

(** The point variant holding one treat that was eaten on the last tick. *)
Definition only_flagged : CakeMuncher.State :=
  CakeMuncher.mkState
    [Treat.mk "i" 400 300 cupcake false 100 (CakeMuncher.emoji_of cupcake) 1 2] [] 100 (Point.mk 400 300) true
    0 100 false 40 [].

(** One frame in which an incorrect treat (draws: spawn test, type,
    correctness coin, word index, identifier, column, speed) is spawned right
    at that open mouth and eaten at once. *)
Definition wrong_bite : option WordMuncher.State :=
  WordMuncher.run (Spec.replay [0.01; 0; 0.9; 0; 0.5; 0.5; 0.5]%Q) JS.toString36
    [WordMuncher.Frame mouth_at_top 800 600 1000] WordMuncher.init.

(** A green particle of a fresh burst. *)
Definition spark : Particle.t := Particle.mk 10 20 3 (-4) 1 "#4ade80" 2.

(** A face-api detection whose lips are 20 px apart in a box 200 px high. *)
Definition open_face : WordMuncherFaceApi.Detection.t :=
  WordMuncherFaceApi.Detection.mk
    (fun n => match n with 62%nat => Point.mk 320 300 | _ => Point.mk 320 320 end) 200.

(** An [atob] that knows one string: the base64 form of the four bytes of
    [two_samples]. *)
Definition atob_pcm (base64 : string) : option string :=
  if String.eqb base64 "AID/fw=="
  then Some (String (ascii_of_nat 0) (String (ascii_of_nat 128)
               (String (ascii_of_nat 255) (String (ascii_of_nat 127) EmptyString))))
  else None.

(** Two frames of the point variant 5001 ms apart, with no face in either:
    the first spawns a treat (draws: spawn test, category, identifier, column,
    speed), the second spawns nothing. *)
Definition first_analysis : CakeMuncher.event :=
  CakeMuncher.Frame (Results.mk None) 800 600 5001.

Definition second_analysis : CakeMuncher.event :=
  CakeMuncher.Frame (Results.mk None) 800 600 10002.

Definition one_spawn : list Q := [0.01; 0.5; 0.5; 0.5; 0.5]%Q.

(** Four bytes of PCM: the 16-bit samples -32768 and 32767, low byte first. *)
Definition two_samples : list Z := [0; 128; 255; 127]%Z.

End Scenario.

(** * Properties *)

(** ** Comparisons and the square root *)

Lemma ltb_true (a b : Q) : JS.ltb a b = true <-> (a < b)%Q.
Proof.
  unfold JS.ltb. rewrite negb_true_iff.
  destruct (Qle_bool b a) eqn:E.
  - apply Qle_bool_iff in E. split; [discriminate | intro H; exfalso; lra].
  - split; [intros _ | reflexivity].
    destruct (Qlt_le_dec a b) as [H | H]; [exact H |].
    apply Qle_bool_iff in H. congruence.
Qed.

Lemma ltb_false (a b : Q) : JS.ltb a b = false <-> (b <= a)%Q.
Proof.
  destruct (JS.ltb a b) eqn:E.
  - apply ltb_true in E. split; [discriminate | intro; exfalso; lra].
  - split; [intros _ | reflexivity].
    destruct (Qlt_le_dec a b) as [H | H]; [| exact H].
    apply ltb_true in H. congruence.
Qed.

Lemma gtb_true (a b : Q) : JS.gtb a b = true <-> (b < a)%Q.
Proof. apply ltb_true. Qed.

Lemma leb_true (a b : Q) : JS.leb a b = true <-> (a <= b)%Q.
Proof. apply Qle_bool_iff. Qed.

(** [JS.sqrt_ltb s c] decides [sqrt s < c] for the real square root. *)
Lemma sqrt_ltb_real (s c : Q) :
  JS.sqrt_ltb s c = true <-> (0 <= s)%Q /\ (sqrt (Q2R s) < Q2R c)%R.
Proof.
  unfold JS.sqrt_ltb. rewrite !andb_true_iff, leb_true, !ltb_true. split.
  - intros [[Hs Hc] Hlt]. split; [exact Hs |].
    apply Qle_Rle in Hs. apply Qlt_Rlt in Hc. apply Qlt_Rlt in Hlt.
    rewrite Q2R_mult in Hlt. rewrite RMicromega.Q2R_0 in Hs, Hc.
    rewrite <- (sqrt_square (Q2R c)) by lra.
    apply sqrt_lt_1; nra.
  - intros [Hs Hlt].
    assert (Hs' := Qle_Rle _ _ Hs). rewrite RMicromega.Q2R_0 in Hs'.
    assert (Hr := sqrt_pos (Q2R s)).
    assert (Hsq := sqrt_sqrt (Q2R s) Hs').
    assert (Hc : (0 < Q2R c)%R) by lra.
    repeat split.
    + exact Hs.
    + apply Rlt_Qlt. rewrite RMicromega.Q2R_0. exact Hc.
    + apply Rlt_Qlt. rewrite Q2R_mult. nra.
Qed.

(** The comparison of the collision test is a comparison of the Euclidean
    distance with the radius. *)
Lemma sqrt_ltb_distance (a b : Point.t) (c : Q) :
  JS.sqrt_ltb (JS.pow2 (Point.x a - Point.x b) + JS.pow2 (Point.y a - Point.y b)) c = true
  <-> (Spec.distance a b < Q2R c)%R.
Proof.
  rewrite sqrt_ltb_real. unfold Spec.distance, JS.pow2.
  rewrite Q2R_plus, !Q2R_mult, !Q2R_minus. split; [tauto |].
  intro H. split; [| exact H].
  generalize (Point.x a - Point.x b)%Q (Point.y a - Point.y b)%Q.
  intros dx dy. nra.
Qed.

(** [Math.floor(r * n)] for a draw [r] in [0,1) is an index below [n]. *)
Lemma floor_draw (r : Q) (n : Z) :
  (0 <= r)%Q -> (r < 1)%Q -> (0 < n)%Z ->
  (0 <= Qfloor (r * inject_Z n) < n)%Z.
Proof.
  intros H0 H1 Hn.
  assert (Hq : (0 < inject_Z n)%Q) by (change (inject_Z 0 < inject_Z n)%Q; rewrite <- Zlt_Qlt; exact Hn).
  split.
  - rewrite <- (Qfloor_Z 0). apply Qfloor_resp_le. change (inject_Z 0) with 0%Q. nra.
  - assert (Hf := Qfloor_le (r * inject_Z n)).
    assert (Hlt : (inject_Z (Qfloor (r * inject_Z n)) < inject_Z n)%Q) by nra.
    rewrite <- Zlt_Qlt in Hlt. exact Hlt.
Qed.

Lemma index_in_range {A} (a : list A) (i : Z) :
  (0 <= i < Z.of_nat (List.length a))%Z -> exists v, JS.index a i = Some v /\ In v a.
Proof.
  intros [H0 H1]. unfold JS.index.
  destruct (i <? 0)%Z eqn:E; [apply Z.ltb_lt in E; lia |].
  destruct (nth_error a (Z.to_nat i)) as [v |] eqn:En.
  - exists v. split; [reflexivity | eapply nth_error_In; eassumption].
  - apply nth_error_None in En. lia.
Qed.

Lemma Q2R_70 : Q2R 70 = 70%R.
Proof. unfold Q2R; simpl; lra. Qed.

Lemma Q2R_60 : Q2R 60 = 60%R.
Proof. unfold Q2R; simpl; lra. Qed.

(** ** The shape of the states the three components produce *)

Section WordMuncherFacts.
Variable random : nat -> Q.
Import WordMuncher.

(** One turn of the particle loop of [createParticles]. *)
Lemma mesh_createParticles_step (x y : Q) (color : string) (n : nat) (s : State) :
  createParticles random x y color (S n) s
  = createParticles random x y color n
      (mkState (treats s)
         (particles s ++
          [Particle.mk x y ((random (draws s) - 0.5) * 10)
             ((random (S (draws s)) - 0.5) * 10) 1 color
             (2 + random (S (S (draws s))) * 4)])
         (scoreRef s) (mouthPos s) (isMouthOpen s) (lastCaptureTime s) (score s)
         (currentQuiz s) (isAiThinking s) (S (S (S (draws s)))) (timeouts s) (spoken s)
         (requests s)).
Proof. destruct s. reflexivity. Qed.

Lemma mesh_createParticles_shape (x y : Q) (color : string) (n : nat) (s : State) :
  exists ps, List.length ps = n /\
    createParticles random x y color n s
    = set_draws (draws s + 3 * n) (set_particles (particles s ++ ps) s).
Proof.
  revert s. induction n as [| n IH]; intro s.
  - exists []. split; [reflexivity |].
    destruct s; unfold set_draws, set_particles; cbn.
    rewrite app_nil_r, Nat.add_0_r. reflexivity.
  - rewrite mesh_createParticles_step.
    match goal with |- context [createParticles _ _ _ _ _ ?s1] =>
      destruct (IH s1) as [ps [Hl He]]; rewrite He end.
    eexists (_ :: ps). split; [cbn [List.length]; rewrite Hl; reflexivity |].
    unfold set_draws, set_particles.
    cbn [treats particles scoreRef mouthPos isMouthOpen lastCaptureTime score
         currentQuiz isAiThinking draws timeouts spoken requests].
    rewrite <- app_assoc. f_equal; [reflexivity | lia].
Qed.

(** What the collision branch does to the state. *)
Lemma mesh_eat_shape (c : Quiz.t) (t : WordTreat.t) (s : State) :
  exists ps,
    eat random c t s =
    if WordTreat.isCorrect t then
      mkState (treats s) (particles s ++ ps) (scoreRef s + 100) (mouthPos s)
        (isMouthOpen s) (lastCaptureTime s) (scoreRef s + 100) (currentQuiz s)
        (isAiThinking s) (draws s + 60) (timeouts s ++ [c])
        (spoken s ++ [WordTreat.word t]) (requests s)
    else
      mkState (treats s) (particles s ++ ps) (Z.max 0 (scoreRef s - 50)) (mouthPos s)
        (isMouthOpen s) (lastCaptureTime s) (Z.max 0 (scoreRef s - 50)) (currentQuiz s)
        (isAiThinking s) (draws s + 30) (timeouts s) (spoken s) (requests s).
Proof.
  unfold eat. destruct (WordTreat.isCorrect t).
  - match goal with |- context [createParticles _ ?x ?y ?col ?n ?s1] =>
      destruct (mesh_createParticles_shape x y col n s1) as [ps [_ He]]; rewrite He end.
    exists ps. reflexivity.
  - match goal with |- context [createParticles _ ?x ?y ?col ?n ?s1] =>
      destruct (mesh_createParticles_shape x y col n s1) as [ps [_ He]]; rewrite He end.
    exists ps. reflexivity.
Qed.

Lemma mesh_eat_changes (c : Quiz.t) (t : WordTreat.t) (s : State) :
  eat random c t s <> s.
Proof.
  destruct (mesh_eat_shape c t s) as [ps He]. rewrite He. intro H.
  apply (f_equal draws) in H. destruct (WordTreat.isCorrect t); simpl in H; lia.
Qed.

(** When a visit is a collision. *)
Lemma mesh_fires_iff (c : Quiz.t) (h : Q) (t : WordTreat.t) (s : State) :
  Spec.mesh_fires random c h t s <->
  WordTreat.active t = true
  /\ (WordTreat.y t + WordTreat.velocity t <= h + 50)%Q
  /\ isMouthOpen s = true
  /\ (Spec.distance (Point.mk (WordTreat.x t) (WordTreat.y t + WordTreat.velocity t))
        (mouthPos s) < 70)%R.
Proof.
  unfold Spec.mesh_fires, visit.
  set (t' := WordTreat.set_y (WordTreat.y t + WordTreat.velocity t) t).
  assert (Hd : JS.sqrt_ltb (dToMouth2 t' s) 70 = true <->
               (Spec.distance
                  (Point.mk (WordTreat.x t) (WordTreat.y t + WordTreat.velocity t))
                  (mouthPos s) < 70)%R).
  { rewrite <- Q2R_70. exact (sqrt_ltb_distance (Point.mk _ _) (mouthPos s) 70). }
  assert (Hg : JS.gtb (WordTreat.y t') (h + 50) = false <->
               (WordTreat.y t + WordTreat.velocity t <= h + 50)%Q).
  { exact (ltb_false (h + 50) (WordTreat.y t + WordTreat.velocity t)). }
  destruct (WordTreat.active t); cbn [negb snd].
  2: { split; [intro H; exfalso; apply H; reflexivity | intros [H _]; discriminate]. }
  destruct (JS.gtb (WordTreat.y t') (h + 50)); cbn [snd].
  { split; [intro H; exfalso; apply H; reflexivity |].
    intros (_ & H & _). apply Hg in H. discriminate. }
  destruct (isMouthOpen s); cbn [andb snd].
  2: { split; [intro H; exfalso; apply H; reflexivity | intros (_ & _ & H & _); discriminate]. }
  destruct (JS.sqrt_ltb (dToMouth2 t' s) 70); cbn [snd].
  - split; [intros _ | intros _; apply mesh_eat_changes].
    repeat split; [apply Hg | apply Hd]; reflexivity.
  - split; [intro H; exfalso; apply H; reflexivity |].
    intros (_ & _ & _ & H). apply Hd in H. discriminate.
Qed.

End WordMuncherFacts.

Section CakeMuncherFacts.
Variable random : nat -> Q.
Import CakeMuncher.

Lemma cake_createCrumbsLoop_step (x y : Q) (color : string) (n : nat) (s : State) :
  createCrumbsLoop random (S n) x y color s
  = createCrumbsLoop random n x y color
      (mkState (treats s)
         (particles s ++
          [Particle.mk x y ((random (draws s) - 0.5) * 10)
             ((random (S (draws s)) - 0.5) * 10) 1 color
             (3 + random (S (S (draws s))) * 5)])
         (scoreRef s) (mouthPos s) (isMouthOpen s) (lastCaptureTime s) (score s)
         (isAiThinking s) (S (S (S (draws s)))) (requests s)).
Proof. destruct s. reflexivity. Qed.

Lemma cake_createCrumbsLoop_shape (x y : Q) (color : string) (n : nat) (s : State) :
  exists ps, List.length ps = n /\
    createCrumbsLoop random n x y color s
    = set_draws (draws s + 3 * n) (set_particles (particles s ++ ps) s).
Proof.
  revert s. induction n as [| n IH]; intro s.
  - exists []. split; [reflexivity |].
    destruct s; unfold set_draws, set_particles; cbn.
    rewrite app_nil_r, Nat.add_0_r. reflexivity.
  - rewrite cake_createCrumbsLoop_step.
    match goal with |- context [createCrumbsLoop _ _ _ _ _ ?s1] =>
      destruct (IH s1) as [ps [Hl He]]; rewrite He end.
    eexists (_ :: ps). split; [cbn [List.length]; rewrite Hl; reflexivity |].
    unfold set_draws, set_particles.
    cbn [treats particles scoreRef mouthPos isMouthOpen lastCaptureTime score
         isAiThinking draws requests].
    rewrite <- app_assoc. f_equal; [reflexivity | lia].
Qed.

Lemma cake_eat_shape (c : Closure) (t : Treat.t) (s : State) :
  exists ps,
    eat random c t s =
    mkState (treats s) (particles s ++ ps) (scoreRef s + Treat.points t * multiplier c)
      (mouthPos s) (isMouthOpen s) (lastCaptureTime s)
      (scoreRef s + Treat.points t * multiplier c) (isAiThinking s) (draws s + 36)
      (requests s).
Proof.
  unfold eat, createCrumbs.
  match goal with |- context [createCrumbsLoop _ ?n ?x ?y ?col ?s1] =>
    destruct (cake_createCrumbsLoop_shape x y col n s1) as [ps [_ He]]; rewrite He end.
  exists ps. reflexivity.
Qed.

Lemma cake_eat_changes (c : Closure) (t : Treat.t) (s : State) :
  eat random c t s <> s.
Proof.
  destruct (cake_eat_shape c t s) as [ps He]. rewrite He. intro H.
  apply (f_equal draws) in H. simpl in H. lia.
Qed.

Lemma cake_fires_iff (c : Closure) (h : Q) (t : Treat.t) (s : State) :
  Spec.cake_fires random c h t s <->
  Treat.active t = true
  /\ (Treat.y t + Treat.velocity t <= h + 50)%Q
  /\ isMouthOpen s = true
  /\ (Spec.distance (Point.mk (Treat.x t) (Treat.y t + Treat.velocity t))
        (mouthPos s) < 60)%R.
Proof.
  unfold Spec.cake_fires, visit.
  set (t' := Treat.set_y (Treat.y t + Treat.velocity t) t).
  assert (Hd : JS.sqrt_ltb (dToMouth2 t' s) 60 = true <->
               (Spec.distance (Point.mk (Treat.x t) (Treat.y t + Treat.velocity t))
                  (mouthPos s) < 60)%R).
  { rewrite <- Q2R_60. exact (sqrt_ltb_distance (Point.mk _ _) (mouthPos s) 60). }
  assert (Hg : JS.gtb (Treat.y t') (h + 50) = false <->
               (Treat.y t + Treat.velocity t <= h + 50)%Q).
  { exact (ltb_false (h + 50) (Treat.y t + Treat.velocity t)). }
  destruct (Treat.active t); cbn [negb snd].
  2: { split; [intro H; exfalso; apply H; reflexivity | intros [H _]; discriminate]. }
  destruct (JS.gtb (Treat.y t') (h + 50)); cbn [snd].
  { split; [intro H; exfalso; apply H; reflexivity |].
    intros (_ & H & _). apply Hg in H. discriminate. }
  destruct (isMouthOpen s); cbn [andb snd].
  2: { split; [intro H; exfalso; apply H; reflexivity | intros (_ & _ & H & _); discriminate]. }
  destruct (JS.sqrt_ltb (dToMouth2 t' s) 60); cbn [snd].
  - split; [intros _ | intros _; apply cake_eat_changes].
    repeat split; [apply Hg | apply Hd]; reflexivity.
  - split; [intro H; exfalso; apply H; reflexivity |].
    intros (_ & _ & _ & H). apply Hd in H. discriminate.
Qed.

End CakeMuncherFacts.

Section FaceApiFacts.
Variable random : nat -> Q.
Import WordMuncherFaceApi.

Lemma faceapi_createParticlesLoop_step (x y : Q) (color : string) (n : nat) (s : State) :
  createParticlesLoop random (S n) x y color s
  = createParticlesLoop random n x y color
      (mkState (wordsRef s)
         (particlesRef s ++
          [Particle.mk x y ((random (draws s) - 0.5) * 12)
             ((random (S (draws s)) - 0.5) * 12) 1 color
             (3 + random (S (S (draws s))) * 5)])
         (mouthPosRef s) (isMouthOpenRef s) (scoreRef s) (lastSpawnRef s)
         (quizIndexRef s) (runningRef s) (score s) (quizIndex s) (mouthOpen s)
         (faceDetected s) (S (S (S (draws s)))) (timeouts s)).
Proof. destruct s. reflexivity. Qed.

Lemma faceapi_createParticlesLoop_shape (x y : Q) (color : string) (n : nat) (s : State) :
  exists ps, List.length ps = n /\
    createParticlesLoop random n x y color s
    = set_draws (draws s + 3 * n) (set_particlesRef (particlesRef s ++ ps) s).
Proof.
  revert s. induction n as [| n IH]; intro s.
  - exists []. split; [reflexivity |].
    destruct s; unfold set_draws, set_particlesRef; cbn.
    rewrite app_nil_r, Nat.add_0_r. reflexivity.
  - rewrite faceapi_createParticlesLoop_step.
    match goal with |- context [createParticlesLoop _ _ _ _ _ ?s1] =>
      destruct (IH s1) as [ps [Hl He]]; rewrite He end.
    eexists (_ :: ps). split; [cbn [List.length]; rewrite Hl; reflexivity |].
    unfold set_draws, set_particlesRef.
    cbn [wordsRef particlesRef mouthPosRef isMouthOpenRef scoreRef lastSpawnRef
         quizIndexRef runningRef score quizIndex mouthOpen faceDetected draws timeouts].
    rewrite <- app_assoc. f_equal; [reflexivity | lia].
Qed.

Lemma faceapi_eat_shape (w : FallingWord.t) (s : State) :
  exists ps,
    eat random w s =
    if FallingWord.isCorrect w then
      mkState (wordsRef s) (particlesRef s ++ ps) (mouthPosRef s) (isMouthOpenRef s)
        (scoreRef s + 100) (lastSpawnRef s) (quizIndexRef s) (runningRef s)
        (scoreRef s + 100) (quizIndex s) (mouthOpen s) (faceDetected s)
        (draws s + 45) (S (timeouts s))
    else
      mkState (wordsRef s) (particlesRef s ++ ps) (mouthPosRef s) (isMouthOpenRef s)
        (Z.max 0 (scoreRef s - 50)) (lastSpawnRef s) (quizIndexRef s) (runningRef s)
        (Z.max 0 (scoreRef s - 50)) (quizIndex s) (mouthOpen s) (faceDetected s)
        (draws s + 45) (timeouts s).
Proof.
  unfold eat, createParticles. destruct (FallingWord.isCorrect w).
  - match goal with |- context [createParticlesLoop _ ?n ?x ?y ?col ?s1] =>
      destruct (faceapi_createParticlesLoop_shape x y col n s1) as [ps [_ He]];
      rewrite He end.
    exists ps. reflexivity.
  - match goal with |- context [createParticlesLoop _ ?n ?x ?y ?col ?s1] =>
      destruct (faceapi_createParticlesLoop_shape x y col n s1) as [ps [_ He]];
      rewrite He end.
    exists ps. reflexivity.
Qed.

Lemma faceapi_eat_changes (w : FallingWord.t) (s : State) :
  eat random w s <> s.
Proof.
  destruct (faceapi_eat_shape w s) as [ps He]. rewrite He. intro H.
  apply (f_equal draws) in H. destruct (FallingWord.isCorrect w); simpl in H; lia.
Qed.

Lemma faceapi_fires_iff (mouth : Point.t) (h : Q) (w : FallingWord.t) (s : State) :
  Spec.faceapi_fires random mouth h w s <->
  (FallingWord.y w + FallingWord.velocity w <= h + 60)%Q
  /\ isMouthOpenRef s = true
  /\ (Spec.distance
        (Point.mk (FallingWord.x w) (FallingWord.y w + FallingWord.velocity w))
        mouth < 70)%R.
Proof.
  unfold Spec.faceapi_fires, visit.
  set (w' := FallingWord.set_y (FallingWord.y w + FallingWord.velocity w) w).
  assert (Hd : JS.sqrt_ltb (dist2 mouth w') 70 = true <->
               (Spec.distance
                  (Point.mk (FallingWord.x w) (FallingWord.y w + FallingWord.velocity w))
                  mouth < 70)%R).
  { rewrite <- Q2R_70. exact (sqrt_ltb_distance (Point.mk _ _) mouth 70). }
  assert (Hg : JS.gtb (FallingWord.y w') (h + 60) = false <->
               (FallingWord.y w + FallingWord.velocity w <= h + 60)%Q).
  { exact (ltb_false (h + 60) (FallingWord.y w + FallingWord.velocity w)). }
  destruct (JS.gtb (FallingWord.y w') (h + 60)); cbn [snd].
  { split; [intro H; exfalso; apply H; reflexivity |].
    intros (H & _). apply Hg in H. discriminate. }
  destruct (isMouthOpenRef s); cbn [andb snd].
  2: { split; [intro H; exfalso; apply H; reflexivity | intros (_ & H & _); discriminate]. }
  destruct (JS.sqrt_ltb (dist2 mouth w') 70); cbn [snd].
  - split; [intros _ | intros _; apply faceapi_eat_changes].
    repeat split; [apply Hg | apply Hd]; reflexivity.
  - split; [intro H; exfalso; apply H; reflexivity |].
    intros (_ & _ & H). apply Hd in H. discriminate.
Qed.

End FaceApiFacts.

(** ** C1: when a collision fires *)

(** C1, as the code has it.  For a treat visited on a tick, the collision
    branch runs if and only if the treat is still active (point and FaceMesh
    variants; the face-api variant keeps no inactive entries), its position
    after this tick's move is not below the viewport margin (height + 50,
    height + 60 in the face-api variant), the mouth is open, and the Euclidean
    distance between the moved treat and the mouth is strictly below the
    capture radius: 70 in the word-matching variants, 60 in the point variant.
    In particular a closed mouth never collides, whatever the distance. *)
Theorem collision_iff_in_view_open_and_near :
  forall random : nat -> Q,
    (forall c h t s,
        Spec.mesh_fires random c h t s <->
        WordTreat.active t = true
        /\ (WordTreat.y t + WordTreat.velocity t <= h + 50)%Q
        /\ WordMuncher.isMouthOpen s = true
        /\ (Spec.distance
              (Point.mk (WordTreat.x t) (WordTreat.y t + WordTreat.velocity t))
              (WordMuncher.mouthPos s) < 70)%R)
    /\ (forall c h t s,
        Spec.cake_fires random c h t s <->
        Treat.active t = true
        /\ (Treat.y t + Treat.velocity t <= h + 50)%Q
        /\ CakeMuncher.isMouthOpen s = true
        /\ (Spec.distance
              (Point.mk (Treat.x t) (Treat.y t + Treat.velocity t))
              (CakeMuncher.mouthPos s) < 60)%R)
    /\ (forall mouth h w s,
        Spec.faceapi_fires random mouth h w s <->
        (WordMuncherFaceApi.FallingWord.y w + WordMuncherFaceApi.FallingWord.velocity w
         <= h + 60)%Q
        /\ WordMuncherFaceApi.isMouthOpenRef s = true
        /\ (Spec.distance
              (Point.mk (WordMuncherFaceApi.FallingWord.x w)
                 (WordMuncherFaceApi.FallingWord.y w
                  + WordMuncherFaceApi.FallingWord.velocity w))
              mouth < 70)%R).
Proof.
  intro random. split; [| split].
  - apply mesh_fires_iff.
  - apply cake_fires_iff.
  - apply faceapi_fires_iff.
Qed.

(** C1 as stated fails: with the mouth open 67 px from a treat that has just
    moved below height + 50, the treat is dropped and no collision fires. *)
Lemma open_and_near_but_below_the_viewport :
  WordMuncher.isMouthOpen Scenario.low_mouth = true
  /\ (Spec.distance (Point.mk 400 (649 + 3)) (WordMuncher.mouthPos Scenario.low_mouth)
      < 70)%R
  /\ ~ Spec.mesh_fires (Spec.replay []) Scenario.apple 600
         Scenario.leaving_treat Scenario.low_mouth.
Proof.
  split; [reflexivity | split].
  - rewrite <- Q2R_70. apply sqrt_ltb_distance. vm_compute. reflexivity.
  - intro H. apply H. vm_compute. reflexivity.
Qed.

(** The mouth-closed scenario: 10 px from the mouth, nothing fires. *)
Example closed_mouth_at_10px :
  ~ Spec.mesh_fires (Spec.replay []) Scenario.apple 600
      (WordTreat.mk "c" 400 573 cupcake "Apple" true true 2)
      (WordMuncher.set_isMouthOpen false Scenario.low_mouth).
Proof. intro H. apply mesh_fires_iff in H. destruct H as (_ & _ & H & _). discriminate. Qed.

(** The boundary of the capture radius: 69 px collides, 71 px does not. *)
Example capture_radius_boundary :
  Spec.mesh_fires (Spec.replay []) Scenario.apple 600
    Scenario.treat_at_69 Scenario.low_mouth
  /\ ~ Spec.mesh_fires (Spec.replay []) Scenario.apple 600
         Scenario.treat_at_71 Scenario.low_mouth.
Proof.
  split.
  - apply mesh_fires_iff. repeat split.
    + vm_compute. discriminate.
    + rewrite <- Q2R_70. apply sqrt_ltb_distance. vm_compute. reflexivity.
  - intro H. apply H. vm_compute. reflexivity.
Qed.

(** ** C7: treats that leave the viewport *)

Section TreatLoops.
Variable random : nat -> Q.

Lemma mesh_treatLoop_app c h (a b : list WordTreat.t) (s : WordMuncher.State) :
  WordMuncher.treatLoop random c h (a ++ b) s =
  let (b', s1) := WordMuncher.treatLoop random c h b s in
  let (a', s2) := WordMuncher.treatLoop random c h a s1 in
  (a' ++ b', s2).
Proof.
  induction a as [| t a IH]; simpl.
  - destruct (WordMuncher.treatLoop random c h b s). reflexivity.
  - rewrite IH. destruct (WordMuncher.treatLoop random c h b s) as [b' s1].
    destruct (WordMuncher.treatLoop random c h a s1) as [a' s2].
    destruct (WordMuncher.visit random c h t s2) as [[t' |] s3]; reflexivity.
Qed.

Lemma cake_treatLoop_app c h (a b : list Treat.t) (s : CakeMuncher.State) :
  CakeMuncher.treatLoop random c h (a ++ b) s =
  let (b', s1) := CakeMuncher.treatLoop random c h b s in
  let (a', s2) := CakeMuncher.treatLoop random c h a s1 in
  (a' ++ b', s2).
Proof.
  induction a as [| t a IH]; simpl.
  - destruct (CakeMuncher.treatLoop random c h b s). reflexivity.
  - rewrite IH. destruct (CakeMuncher.treatLoop random c h b s) as [b' s1].
    destruct (CakeMuncher.treatLoop random c h a s1) as [a' s2].
    destruct (CakeMuncher.visit random c h t s2) as [[t' |] s3]; reflexivity.
Qed.

Lemma faceapi_wordLoop_app mouth h (a b : list WordMuncherFaceApi.FallingWord.t)
    (s : WordMuncherFaceApi.State) :
  WordMuncherFaceApi.wordLoop random mouth h (a ++ b) s =
  let (b', s1) := WordMuncherFaceApi.wordLoop random mouth h b s in
  let (a', s2) := WordMuncherFaceApi.wordLoop random mouth h a s1 in
  (a' ++ b', s2).
Proof.
  induction a as [| t a IH]; simpl.
  - destruct (WordMuncherFaceApi.wordLoop random mouth h b s). reflexivity.
  - rewrite IH. destruct (WordMuncherFaceApi.wordLoop random mouth h b s) as [b' s1].
    destruct (WordMuncherFaceApi.wordLoop random mouth h a s1) as [a' s2].
    destruct (WordMuncherFaceApi.visit random mouth h t s2) as [[t' |] s3]; reflexivity.
Qed.

(** A treat that has moved below the margin is flagged and nothing else
    happens, whatever the mouth does; the next visit splices it out. *)
Lemma mesh_visit_missed c h (t : WordTreat.t) (s : WordMuncher.State) :
  WordTreat.active t = true ->
  (h + 50 < WordTreat.y t + WordTreat.velocity t)%Q ->
  WordMuncher.visit random c h t s =
  (Some (WordTreat.set_active false
           (WordTreat.set_y (WordTreat.y t + WordTreat.velocity t) t)), s).
Proof.
  intros Ha Hy. unfold WordMuncher.visit. rewrite Ha. cbn [negb].
  apply gtb_true in Hy. cbn [WordTreat.set_y WordTreat.y]. rewrite Hy. reflexivity.
Qed.

Lemma cake_visit_missed c h (t : Treat.t) (s : CakeMuncher.State) :
  Treat.active t = true ->
  (h + 50 < Treat.y t + Treat.velocity t)%Q ->
  CakeMuncher.visit random c h t s =
  (Some (Treat.set_active false (Treat.set_y (Treat.y t + Treat.velocity t) t)), s).
Proof.
  intros Ha Hy. unfold CakeMuncher.visit. rewrite Ha. cbn [negb].
  apply gtb_true in Hy. cbn [Treat.set_y Treat.y]. rewrite Hy. reflexivity.
Qed.

Lemma faceapi_visit_missed mouth h (w : WordMuncherFaceApi.FallingWord.t)
    (s : WordMuncherFaceApi.State) :
  (h + 60 < WordMuncherFaceApi.FallingWord.y w
            + WordMuncherFaceApi.FallingWord.velocity w)%Q ->
  WordMuncherFaceApi.visit random mouth h w s = (None, s).
Proof.
  intro Hy. unfold WordMuncherFaceApi.visit.
  apply gtb_true in Hy.
  cbn [WordMuncherFaceApi.FallingWord.set_y WordMuncherFaceApi.FallingWord.y].
  rewrite Hy. reflexivity.
Qed.

End TreatLoops.

(** C7, as the code has it.  A treat whose vertical position after this
    tick's move exceeds the viewport height plus the margin (50; 60 in the
    face-api variant) leaves the set of active treats on that tick -- in the
    point and FaceMesh variants the flag is cleared, the entry stays in the
    store and the next visit splices it out; in the face-api variant it is
    spliced out at once -- and the state (score, particles, timers) after
    the whole treat loop is the one the loop reaches without that treat,
    whatever the mouth state. *)
Theorem missed_treat_is_removed_without_scoring :
  forall random : nat -> Q,
    (forall c h pre t post s,
        WordTreat.active t = true ->
        (h + 50 < WordTreat.y t + WordTreat.velocity t)%Q ->
        let gone := WordTreat.set_active false
                      (WordTreat.set_y (WordTreat.y t + WordTreat.velocity t) t) in
        WordMuncher.visit random c h t s = (Some gone, s)
        /\ (forall h' s', WordMuncher.visit random c h' gone s' = (None, s'))
        /\ exists pre' post' s',
            WordMuncher.treatLoop random c h (pre ++ post) s = (pre' ++ post', s')
            /\ WordMuncher.treatLoop random c h (pre ++ t :: post) s
               = (pre' ++ gone :: post', s'))
    /\ (forall c h pre t post s,
        Treat.active t = true ->
        (h + 50 < Treat.y t + Treat.velocity t)%Q ->
        let gone := Treat.set_active false
                      (Treat.set_y (Treat.y t + Treat.velocity t) t) in
        CakeMuncher.visit random c h t s = (Some gone, s)
        /\ (forall h' s', CakeMuncher.visit random c h' gone s' = (None, s'))
        /\ exists pre' post' s',
            CakeMuncher.treatLoop random c h (pre ++ post) s = (pre' ++ post', s')
            /\ CakeMuncher.treatLoop random c h (pre ++ t :: post) s
               = (pre' ++ gone :: post', s'))
    /\ (forall mouth h pre w post s,
        (h + 60 < WordMuncherFaceApi.FallingWord.y w
                  + WordMuncherFaceApi.FallingWord.velocity w)%Q ->
        WordMuncherFaceApi.visit random mouth h w s = (None, s)
        /\ WordMuncherFaceApi.wordLoop random mouth h (pre ++ w :: post) s
           = WordMuncherFaceApi.wordLoop random mouth h (pre ++ post) s).
Proof.
  intro random. split; [| split].
  - intros c h pre t post s Ha Hy gone. split; [| split].
    + apply mesh_visit_missed; assumption.
    + reflexivity.
    + rewrite !mesh_treatLoop_app. cbn [WordMuncher.treatLoop].
      destruct (WordMuncher.treatLoop random c h post s) as [post' s1].
      rewrite (mesh_visit_missed random c h t s1 Ha Hy). fold gone.
      destruct (WordMuncher.treatLoop random c h pre s1) as [pre' s2].
      exists pre', post', s2. split; reflexivity.
  - intros c h pre t post s Ha Hy gone. split; [| split].
    + apply cake_visit_missed; assumption.
    + reflexivity.
    + rewrite !cake_treatLoop_app. cbn [CakeMuncher.treatLoop].
      destruct (CakeMuncher.treatLoop random c h post s) as [post' s1].
      rewrite (cake_visit_missed random c h t s1 Ha Hy). fold gone.
      destruct (CakeMuncher.treatLoop random c h pre s1) as [pre' s2].
      exists pre', post', s2. split; reflexivity.
  - intros mouth h pre w post s Hy. split.
    + apply faceapi_visit_missed; assumption.
    + rewrite !faceapi_wordLoop_app. cbn [WordMuncherFaceApi.wordLoop].
      destruct (WordMuncherFaceApi.wordLoop random mouth h post s) as [post' s1].
      rewrite (faceapi_visit_missed random mouth h w s1 Hy). reflexivity.
Qed.

(** The treat of the scenario leaves the viewport under an open mouth 67 px
    away: it is flagged and the state is untouched. *)
Lemma missed_treat_witness :
  WordMuncher.visit (Spec.replay []) Scenario.apple 600
    Scenario.leaving_treat Scenario.low_mouth
  = (Some (WordTreat.mk "i" 400 (649 + 3) cupcake "Apple" true false 3),
     Scenario.low_mouth).
Proof.
  apply (proj1 (proj1 (missed_treat_is_removed_without_scoring (Spec.replay []))
                  Scenario.apple 600%Q [] Scenario.leaving_treat [] Scenario.low_mouth
                  eq_refl eq_refl)).
Defined.

(** C7 as stated fails in the FaceMesh variant (and in the same way in the
    point variant): on the frame on which the treat of the scenario passes
    the margin under an open mouth, [onResults] leaves it in the store,
    flagged inactive; the frame after splices it out.  The score is the same
    after both. *)
Lemma missed_treat_stays_in_the_store_for_a_tick :
  exists s1 s2,
    (600 + 50 < WordTreat.y Scenario.leaving_treat
                + WordTreat.velocity Scenario.leaving_treat)%Q
    /\ WordMuncher.treats Scenario.one_leaving = [Scenario.leaving_treat]
    /\ WordMuncher.onResults (Spec.replay []) JS.toString36 Scenario.apple
         (Results.mk None) 800 600 1000 Scenario.one_leaving = Some s1
    /\ WordMuncher.treats s1
       = [WordTreat.set_active false (Spec.mesh_fall Scenario.leaving_treat)]
    /\ WordMuncher.scoreRef s1 = WordMuncher.scoreRef Scenario.one_leaving
    /\ WordMuncher.onResults (Spec.replay []) JS.toString36 Scenario.apple
         (Results.mk None) 800 600 1016 s1 = Some s2
    /\ WordMuncher.treats s2 = []
    /\ WordMuncher.scoreRef s2 = WordMuncher.scoreRef Scenario.one_leaving.
Proof.
  eexists. eexists. split; [vm_compute; reflexivity |]. split; [reflexivity |].
  split; [vm_compute; reflexivity |]. split; [vm_compute; reflexivity |].
  split; [vm_compute; reflexivity |]. split; [vm_compute; reflexivity |].
  split; vm_compute; reflexivity.
Qed.

(** ** Frame lemmas: what each operation leaves alone *)

Lemma index_some_in {A} (a : list A) (i : Z) (v : A) :
  JS.index a i = Some v -> In v a.
Proof.
  unfold JS.index. destruct (i <? 0)%Z; [discriminate |].
  apply nth_error_In.
Qed.

Section WordMuncherFrames.
Variable random : nat -> Q.
Variable toString36 : Q -> string.
Import WordMuncher.

Lemma mesh_state_eta (s : State) :
  set_isMouthOpen (isMouthOpen s) (set_mouthPos (mouthPos s) s) = s.
Proof. destruct s; reflexivity. Qed.

(** Detection writes the mouth position and the open flag and nothing else. *)
Lemma mesh_detect_shape results w h s :
  exists p o, detect results w h s = set_isMouthOpen o (set_mouthPos p s).
Proof.
  unfold detect. destruct (Results.multiFaceLandmarks results) as [[| lm faces] |].
  - exists (mouthPos s), (isMouthOpen s). symmetry. apply mesh_state_eta.
  - eexists _, _. reflexivity.
  - exists (mouthPos s), (isMouthOpen s). symmetry. apply mesh_state_eta.
Qed.

(** A spawn appends one active treat above the viewport and advances the
    tape: the treat carries the target word exactly when it is flagged
    correct, and its identifier renders the third draw from the end. *)
Lemma mesh_spawnTreat_shape w cw s s' :
  spawnTreat random toString36 w cw s = Some s' ->
  exists t n,
    s' = set_draws n (set_treats (treats s ++ [t]) s)
    /\ (draws s + 5 <= n)%nat
    /\ WordTreat.active t = true
    /\ WordTreat.id t = JS.substr 2 9 (toString36 (random (n - 3)))
    /\ (WordTreat.isCorrect t = true -> WordTreat.word t = cw)
    /\ (WordTreat.isCorrect t = false -> WordTreat.word t <> cw)
    /\ (WordTreat.isCorrect t = false ->
        exists q, In q QUIZ_LIST /\ WordTreat.word t = Quiz.word q).
Proof.
  unfold spawnTreat, Math_random. destruct s; cbn -[JS.index JS.ltb filter QUIZ_LIST Qfloor].
  destruct (JS.index types _) as [ty |]; [| discriminate].
  destruct (JS.ltb (random (S draws0)) 0.3) eqn:Ec.
  - intro H. injection H as <-. eexists _, _. split; [reflexivity |].
    cbn. repeat split; try lia; try discriminate.
  - destruct (JS.index (filter _ QUIZ_LIST) _) as [q |] eqn:Eq; [| discriminate].
    intro H. injection H as <-. eexists _, _. split; [reflexivity |].
    apply index_some_in in Eq. apply filter_In in Eq. destruct Eq as [Hin Eq].
    apply negb_true_iff in Eq. apply String.eqb_neq in Eq.
    cbn -[QUIZ_LIST]. repeat split; try lia; try discriminate.
    + intros _. exact Eq.
    + intros _. exists q. split; [exact Hin | reflexivity].
Qed.

Lemma mesh_others_nonempty (cw : string) :
  (0 < List.length
         (filter (fun q => negb (String.eqb (Quiz.word q) cw)) QUIZ_LIST))%nat.
Proof.
  destruct (String.eqb_spec "Apple" cw) as [E | E].
  - subst cw. vm_compute. lia.
  - apply String.eqb_neq in E. unfold QUIZ_LIST. cbn [filter Quiz.word].
    rewrite E. cbn [negb List.length]. lia.
Qed.

(** With draws in [0,1) a spawn never reads outside an array. *)
Lemma mesh_spawnTreat_total w cw s :
  Spec.unit_draws random -> exists s', spawnTreat random toString36 w cw s = Some s'.
Proof.
  intro Hu. unfold spawnTreat, Math_random.
  destruct s; cbn -[JS.index JS.ltb filter QUIZ_LIST Qfloor JS.len].
  destruct (Hu draws0) as [H0 H1].
  destruct (index_in_range types (Qfloor (random draws0 * JS.len types)))
    as [ty [Ety _]].
  { apply (floor_draw _ 5 H0 H1). lia. }
  rewrite Ety.
  destruct (JS.ltb (random (S draws0)) 0.3); [eexists; reflexivity |].
  set (others := filter _ QUIZ_LIST).
  destruct (Hu (S (S draws0))) as [H2 H3].
  destruct (index_in_range others (Qfloor (random (S (S draws0)) * JS.len others)))
    as [q [Eq _]].
  { apply (floor_draw _ _ H2 H3). pose proof (mesh_others_nonempty cw). fold others in H. lia. }
  rewrite Eq. eexists; reflexivity.
Qed.

(** A visit leaves the state alone or runs the collision branch on the moved
    treat. *)
Lemma mesh_visit_cases c h t s :
  snd (visit random c h t s) = s
  \/ (WordTreat.active t = true
      /\ visit random c h t s =
         (Some (WordTreat.set_active false
                  (WordTreat.set_y (WordTreat.y t + WordTreat.velocity t) t)),
          eat random c (WordTreat.set_y (WordTreat.y t + WordTreat.velocity t) t) s)).
Proof.
  unfold visit. destruct (WordTreat.active t); cbn [negb]; [| left; reflexivity].
  destruct (JS.gtb _ _); [left; reflexivity |].
  destruct (isMouthOpen s && _); [right; split; reflexivity | left; reflexivity].
Qed.

(** Whatever the collision branch preserves, the treat loop preserves. *)
Lemma mesh_treatLoop_inv (P : State -> Prop) c h :
  (forall t s, P s -> P (eat random c t s)) ->
  forall ts s, P s -> P (snd (treatLoop random c h ts s)).
Proof.
  intros Heat ts. induction ts as [| t ts IH]; intros s Hs; [exact Hs |].
  cbn [treatLoop]. specialize (IH s Hs).
  destruct (treatLoop random c h ts s) as [rest s1]. cbn [snd] in IH.
  destruct (mesh_visit_cases c h t s1) as [E | [_ E]].
  - destruct (visit random c h t s1) as [t' s2]. cbn [snd] in E. subst s2.
    destruct t'; exact IH.
  - rewrite E. cbn [snd]. apply Heat. exact IH.
Qed.

(** A frame, taken apart: detection, at most one spawn, the treat loop, the
    particle loop and the advice trigger. *)
Lemma mesh_onResults_shape c r w h now s s' :
  onResults random toString36 c r w h now s = Some s' ->
  exists p o n tr ts s2,
    detect r w h s = set_isMouthOpen o (set_mouthPos p s)
    /\ (tr = treats s /\ n = S (draws s)
     \/ exists t, tr = treats s ++ [t]
          /\ (draws s + 6 <= n)%nat
          /\ WordTreat.active t = true
          /\ WordTreat.id t = JS.substr 2 9 (toString36 (random (n - 3)))
          /\ (WordTreat.isCorrect t = true -> WordTreat.word t = Quiz.word c)
          /\ (WordTreat.isCorrect t = false -> WordTreat.word t <> Quiz.word c))
    /\ treatLoop random c h tr
         (set_draws n (set_treats tr (set_isMouthOpen o (set_mouthPos p s)))) = (ts, s2)
    /\ s' = adviceTrigger c now
              (set_particles (particleLoop 0.02 (particles s2)) (set_treats ts s2)).
Proof.
  unfold onResults. destruct (mesh_detect_shape r w h s) as (p & o & Hd). rewrite Hd.
  unfold Math_random at 1. cbv beta iota.
  destruct (JS.ltb _ _).
  - destruct (spawnTreat _ _ _ _ _) as [s1 |] eqn:Es; [| discriminate].
    apply mesh_spawnTreat_shape in Es.
    destruct Es as (t & n & -> & Hn & Ha & Hi & Hc & Hw & _).
    destruct (treatLoop _ _ _ _ _) as [ts s2] eqn:El.
    intro H. injection H as <-.
    exists p, o, n, (treats s ++ [t]), ts, s2. split; [reflexivity | split; [| split]].
    + right. exists t. destruct s; cbn in *. repeat split; try assumption; lia.
    + destruct s; exact El.
    + reflexivity.
  - destruct (treatLoop _ _ _ _ _) as [ts s2] eqn:El.
    intro H. injection H as <-.
    exists p, o, (S (draws s)), (treats s), ts, s2. split; [reflexivity | split; [| split]].
    + left. split; reflexivity.
    + destruct s; exact El.
    + reflexivity.
Qed.

(** With draws in [0,1) a frame always completes. *)
Lemma mesh_onResults_total c r w h now s :
  Spec.unit_draws random -> exists s', onResults random toString36 c r w h now s = Some s'.
Proof.
  intro Hu. unfold onResults.
  destruct (Math_random random (detect r w h s)) as [d s1].
  destruct (JS.ltb d 0.015).
  - destruct (mesh_spawnTreat_total w (Quiz.word c) s1 Hu) as [s2 ->].
    destruct (treatLoop _ _ _ _ _). eexists; reflexivity.
  - destruct (treatLoop _ _ _ _ _). eexists; reflexivity.
Qed.

(** A frame is the start of the loop (detection and the spawn decision)
    followed by the treat loop over the store as the start left it. *)
Lemma mesh_frame_from_start c r w h now s s' :
  onResults random toString36 c r w h now s = Some s' ->
  exists s0 ts s2,
    Spec.mesh_loop_start random toString36 c r w h s = Some s0
    /\ treatLoop random c h (treats s0) s0 = (ts, s2)
    /\ s' = adviceTrigger c now
              (set_particles (particleLoop 0.02 (particles s2)) (set_treats ts s2)).
Proof.
  unfold onResults, Spec.mesh_loop_start.
  destruct (Math_random random (detect r w h s)) as [x d].
  destruct (JS.ltb x 0.015).
  - destruct (spawnTreat _ _ _ _ _) as [s0 |]; [| discriminate].
    cbv beta iota. destruct (treatLoop _ _ _ _ _) as [ts s2] eqn:El.
    intro H. injection H as <-. exists s0, ts, s2. repeat split. exact El.
  - cbn. destruct (treatLoop _ _ _ _ _) as [ts s2] eqn:El.
    intro H. injection H as <-. exists d, ts, s2. repeat split. exact El.
Qed.

(** What the start of the loop leaves alone, and what it does to the store. *)
Lemma mesh_loop_start_fields c r w h s s0 :
  Spec.mesh_loop_start random toString36 c r w h s = Some s0 ->
  isMouthOpen s0 = isMouthOpen (detect r w h s)
  /\ mouthPos s0 = mouthPos (detect r w h s)
  /\ scoreRef s0 = scoreRef s
  /\ timeouts s0 = timeouts s
  /\ currentQuiz s0 = currentQuiz s
  /\ spoken s0 = spoken s
  /\ (treats s0 = treats s \/ exists t, treats s0 = treats s ++ [t]).
Proof.
  unfold Spec.mesh_loop_start.
  destruct (mesh_detect_shape r w h s) as (p & o & ->).
  unfold Math_random at 1. cbv beta iota.
  destruct (JS.ltb _ _).
  - intro H. apply mesh_spawnTreat_shape in H. destruct H as (t & n & -> & _).
    cbn. repeat split. right. exists t. reflexivity.
  - intro H. injection H as <-. cbn. repeat split. left. reflexivity.
Qed.

(** The treat a spawning start appends is the spawner's. *)
Lemma mesh_loop_start_spawn c r w h s s0 :
  Spec.mesh_loop_start random toString36 c r w h s = Some s0 ->
  treats s0 = treats s
  \/ exists t, treats s0 = treats s ++ [t]
       /\ WordTreat.active t = true
       /\ (WordTreat.isCorrect t = true -> WordTreat.word t = Quiz.word c)
       /\ (WordTreat.isCorrect t = false -> WordTreat.word t <> Quiz.word c).
Proof.
  unfold Spec.mesh_loop_start.
  destruct (mesh_detect_shape r w h s) as (p & o & ->).
  unfold Math_random at 1. cbv beta iota.
  destruct (JS.ltb _ _).
  - intro H. apply mesh_spawnTreat_shape in H.
    destruct H as (t & n & -> & _ & Ha & _ & Hc & Hw & _).
    right. exists t. cbn. repeat split; assumption.
  - intro H. injection H as <-. left. reflexivity.
Qed.

End WordMuncherFrames.

Section FaceApiFrames.
Variable random : nat -> Q.
Variable toString36 : Q -> string.
Import WordMuncherFaceApi.

(** The eight quiz words are pairwise distinct: whichever entry is the
    target, seven others remain. *)
Lemma faceapi_others_length (quiz : Quiz.t) :
  In quiz QUIZ_LIST ->
  List.length (filter (fun q => negb (String.eqb (Quiz.word q) (Quiz.word quiz))) QUIZ_LIST)
  = (List.length QUIZ_LIST - 1)%nat.
Proof.
  intro H. repeat (destruct H as [<- | H]; [vm_compute; reflexivity |]). destruct H.
Qed.

Lemma faceapi_otherWord_differs quiz r w :
  otherWord quiz r = Some w -> w <> Quiz.word quiz.
Proof.
  unfold otherWord. destruct (JS.index _ _) as [q |] eqn:Eq; [| discriminate].
  intro H. injection H as <-. apply index_some_in in Eq. apply filter_In in Eq.
  destruct Eq as [_ Eq]. apply negb_true_iff in Eq. apply String.eqb_neq in Eq. exact Eq.
Qed.

Lemma faceapi_otherWord_member quiz r w :
  otherWord quiz r = Some w -> exists q, In q QUIZ_LIST /\ w = Quiz.word q.
Proof.
  unfold otherWord. destruct (JS.index _ _) as [q |] eqn:Eq; [| discriminate].
  intro H. injection H as <-. apply index_some_in in Eq. apply filter_In in Eq.
  exists q. split; [apply Eq | reflexivity].
Qed.

Lemma faceapi_otherWord_total quiz r :
  In quiz QUIZ_LIST -> (0 <= r)%Q -> (r < 1)%Q ->
  (0 <= Qfloor (r * (JS.len QUIZ_LIST - 1)) < 7)%Z
  /\ exists w, otherWord quiz r = Some w.
Proof.
  intros Hq H0 H1.
  assert (Hk : (0 <= Qfloor (r * (JS.len QUIZ_LIST - 1)) < 7)%Z).
  { assert (E : (r * (JS.len QUIZ_LIST - 1) == r * inject_Z 7)%Q) by (vm_compute JS.len; ring).
    rewrite (Qfloor_comp _ _ E). apply floor_draw; [assumption | assumption | lia]. }
  split; [exact Hk |].
  unfold otherWord.
  set (others := filter _ QUIZ_LIST).
  destruct (index_in_range others (Qfloor (r * (JS.len QUIZ_LIST - 1)))) as [q [Eq _]].
  { unfold others. rewrite (faceapi_others_length quiz Hq). vm_compute List.length. lia. }
  rewrite Eq. eexists; reflexivity.
Qed.

(** A spawn appends one word and advances the tape. *)
Lemma faceapi_spawnWord_shape w s s' :
  spawnWord random toString36 w s = Some s' ->
  exists quiz t n,
    JS.index QUIZ_LIST (quizIndexRef s) = Some quiz
    /\ s' = set_draws n (set_wordsRef (wordsRef s ++ [t]) s)
    /\ (draws s + 5 <= n)%nat
    /\ FallingWord.id t = JS.slice 2 (toString36 (random (n - 3)))
    /\ (FallingWord.isCorrect t = true -> FallingWord.word t = Quiz.word quiz)
    /\ (FallingWord.isCorrect t = false -> FallingWord.word t <> Quiz.word quiz)
    /\ (FallingWord.isCorrect t = false ->
        exists q, In q QUIZ_LIST /\ FallingWord.word t = Quiz.word q).
Proof.
  unfold spawnWord, Math_random.
  destruct s; cbn -[JS.index JS.ltb otherWord QUIZ_LIST Qfloor].
  destruct (JS.index QUIZ_LIST quizIndexRef0) as [quiz |]; [| discriminate].
  destruct (JS.ltb (random (S draws0)) 0.35) eqn:Ec.
  - intro H. injection H as <-. eexists quiz, _, _. split; [reflexivity |].
    split; [reflexivity |]. cbn. repeat split; try lia; try discriminate.
  - destruct (otherWord quiz _) as [ow |] eqn:Eo; [| discriminate].
    intro H. injection H as <-. eexists quiz, _, _. split; [reflexivity |].
    split; [reflexivity |]. cbn -[QUIZ_LIST]. repeat split; try lia; try discriminate.
    + intros _. eapply faceapi_otherWord_differs. eassumption.
    + intros _. eapply faceapi_otherWord_member. eassumption.
Qed.

Lemma faceapi_spawnWord_total w s :
  Spec.unit_draws random ->
  (0 <= quizIndexRef s < 8)%Z ->
  exists s', spawnWord random toString36 w s = Some s'.
Proof.
  intros Hu Hi. unfold spawnWord, Math_random.
  destruct s; cbn -[JS.index JS.ltb otherWord QUIZ_LIST Qfloor] in *.
  destruct (index_in_range QUIZ_LIST quizIndexRef0) as [quiz [Eq Hin]].
  { vm_compute List.length. lia. }
  rewrite Eq.
  destruct (JS.ltb (random (S draws0)) 0.35); [eexists; reflexivity |].
  destruct (Hu (S (S draws0))) as [H0 H1].
  destruct (faceapi_otherWord_total quiz _ Hin H0 H1) as [_ [ow ->]].
  eexists; reflexivity.
Qed.

Lemma faceapi_visit_cases mouth h w s :
  snd (visit random mouth h w s) = s
  \/ visit random mouth h w s =
     (None, eat random (FallingWord.set_y (FallingWord.y w + FallingWord.velocity w) w) s).
Proof.
  unfold visit. destruct (JS.gtb _ _); [left; reflexivity |].
  destruct (isMouthOpenRef s && _); [right; reflexivity | left; reflexivity].
Qed.

Lemma faceapi_wordLoop_inv (P : State -> Prop) mouth h :
  (forall w s, P s -> P (eat random w s)) ->
  forall ws s, P s -> P (snd (wordLoop random mouth h ws s)).
Proof.
  intros Heat ws. induction ws as [| w ws IH]; intros s Hs; [exact Hs |].
  cbn [wordLoop]. specialize (IH s Hs).
  destruct (wordLoop random mouth h ws s) as [rest s1]. cbn [snd] in IH.
  destruct (faceapi_visit_cases mouth h w s1) as [E | E].
  - destruct (visit random mouth h w s1) as [w' s2]. cbn [snd] in E. subst s2.
    destruct w'; exact IH.
  - rewrite E. cbn [snd]. apply Heat. exact IH.
Qed.

(** A running frame, taken apart: at most one spawn, the word loop, the
    particle loop. *)
Lemma faceapi_gameLoop_shape w h now s s' :
  runningRef s = true ->
  gameLoop random toString36 w h now s = Some s' ->
  exists l n tr ws s2,
    (tr = wordsRef s /\ n = draws s /\ l = lastSpawnRef s
     \/ exists quiz t, tr = wordsRef s ++ [t]
          /\ JS.index QUIZ_LIST (quizIndexRef s) = Some quiz
          /\ (draws s + 5 <= n)%nat
          /\ FallingWord.id t = JS.slice 2 (toString36 (random (n - 3)))
          /\ (FallingWord.isCorrect t = true -> FallingWord.word t = Quiz.word quiz)
          /\ (FallingWord.isCorrect t = false -> FallingWord.word t <> Quiz.word quiz))
    /\ wordLoop random (mouthPosRef s) h tr
         (set_draws n (set_wordsRef tr (set_lastSpawnRef l s))) = (ws, s2)
    /\ s' = set_particlesRef (particleLoop 0.025 (particlesRef s2)) (set_wordsRef ws s2).
Proof.
  intro Hr. unfold gameLoop. rewrite Hr. cbn [negb].
  destruct (now - lastSpawnRef s >? 1500)%Z.
  - destruct (spawnWord _ _ _ _) as [s1 |] eqn:Es; [| discriminate].
    apply faceapi_spawnWord_shape in Es.
    destruct Es as (quiz & t & n & Hq & -> & Hn & Hi & Hc & Hw & _).
    destruct (wordLoop _ _ _ _ _) as [ws s2] eqn:El.
    intro H. injection H as <-.
    exists now, n, (wordsRef s ++ [t]), ws, s2. split; [| split].
    + right. exists quiz, t. destruct s; cbn in *. repeat split; try assumption.
    + destruct s; exact El.
    + reflexivity.
  - destruct (wordLoop _ _ _ _ _) as [ws s2] eqn:El.
    intro H. injection H as <-.
    exists (lastSpawnRef s), (draws s), (wordsRef s), ws, s2. split; [| split].
    + left. repeat split.
    + destruct s; exact El.
    + reflexivity.
Qed.

(** A running frame is the start of the loop (the spawn decision) followed by
    the word loop over the store as the start left it. *)
Lemma faceapi_frame_from_start w h now s s' :
  runningRef s = true ->
  gameLoop random toString36 w h now s = Some s' ->
  exists s0 ws s2,
    Spec.faceapi_loop_start random toString36 w now s = Some s0
    /\ wordLoop random (mouthPosRef s) h (wordsRef s0) s0 = (ws, s2)
    /\ s' = set_particlesRef (particleLoop 0.025 (particlesRef s2)) (set_wordsRef ws s2).
Proof.
  intro Hr. unfold gameLoop, Spec.faceapi_loop_start. rewrite Hr. cbn [negb].
  destruct (now - lastSpawnRef s >? 1500)%Z.
  - destruct (spawnWord _ _ _ _) as [s0 |]; [| discriminate].
    cbv beta iota. destruct (wordLoop _ _ _ _ _) as [ws s2] eqn:El.
    intro H. injection H as <-. exists s0, ws, s2. repeat split. exact El.
  - cbv beta iota. destruct (wordLoop _ _ _ _ _) as [ws s2] eqn:El.
    intro H. injection H as <-. exists s, ws, s2. repeat split. exact El.
Qed.

Lemma faceapi_loop_start_fields w now s s0 :
  Spec.faceapi_loop_start random toString36 w now s = Some s0 ->
  isMouthOpenRef s0 = isMouthOpenRef s
  /\ mouthPosRef s0 = mouthPosRef s
  /\ scoreRef s0 = scoreRef s
  /\ timeouts s0 = timeouts s
  /\ quizIndexRef s0 = quizIndexRef s
  /\ (wordsRef s0 = wordsRef s \/ exists t, wordsRef s0 = wordsRef s ++ [t]).
Proof.
  unfold Spec.faceapi_loop_start.
  destruct (now - lastSpawnRef s >? 1500)%Z.
  - intro H. apply faceapi_spawnWord_shape in H.
    destruct H as (quiz & t & n & _ & -> & _).
    cbn. repeat split. right. exists t. reflexivity.
  - intro H. injection H as <-. repeat split. left. reflexivity.
Qed.

End FaceApiFrames.

(** ** C2: the score is floored at zero *)

Section ScoreFloor.
Variable random : nat -> Q.
Variable toString36 : Q -> string.

Lemma mesh_eat_nonneg c t s :
  (0 <= WordMuncher.scoreRef s /\ 0 <= WordMuncher.score s)%Z ->
  (0 <= WordMuncher.scoreRef (WordMuncher.eat random c t s)
   /\ 0 <= WordMuncher.score (WordMuncher.eat random c t s))%Z.
Proof.
  intros [H1 H2]. destruct (mesh_eat_shape random c t s) as [ps ->].
  destruct (WordTreat.isCorrect t); cbn; lia.
Qed.

Lemma mesh_step_nonneg e s s' :
  WordMuncher.step random toString36 e s = Some s' ->
  (0 <= WordMuncher.scoreRef s /\ 0 <= WordMuncher.score s)%Z ->
  (0 <= WordMuncher.scoreRef s' /\ 0 <= WordMuncher.score s')%Z.
Proof.
  intros Hstep Hs. destruct e as [r w h now | |]; cbn [WordMuncher.step] in Hstep.
  - apply mesh_onResults_shape in Hstep.
    destruct Hstep as (p & o & n & tr & ts & s2 & _ & _ & El & ->).
    pose proof (mesh_treatLoop_inv random
                  (fun s => (0 <= WordMuncher.scoreRef s /\ 0 <= WordMuncher.score s)%Z)
                  (WordMuncher.currentQuiz s) h
                  (mesh_eat_nonneg (WordMuncher.currentQuiz s))) as Hinv.
    match type of El with WordMuncher.treatLoop _ _ _ _ ?s1 = _ =>
      specialize (Hinv tr s1 Hs) end.
    rewrite El in Hinv. cbn [snd] in Hinv.
    unfold WordMuncher.adviceTrigger. destruct (_ >? _)%Z; exact Hinv.
  - destruct (WordMuncher.timeouts s); [discriminate |].
    injection Hstep as <-. exact Hs.
  - destruct (WordMuncher.requests s); [discriminate |].
    injection Hstep as <-. exact Hs.
Qed.

Lemma mesh_run_nonneg es : forall s s',
  WordMuncher.run random toString36 es s = Some s' ->
  (0 <= WordMuncher.scoreRef s /\ 0 <= WordMuncher.score s)%Z ->
  (0 <= WordMuncher.scoreRef s' /\ 0 <= WordMuncher.score s')%Z.
Proof.
  induction es as [| e es IH]; intros s s' Hrun Hs; cbn [WordMuncher.run] in Hrun.
  - injection Hrun as <-. exact Hs.
  - destruct (WordMuncher.step random toString36 e s) as [s1 |] eqn:E; [| discriminate].
    eapply IH; [exact Hrun |]. eapply mesh_step_nonneg; eassumption.
Qed.

Lemma faceapi_eat_nonneg w s :
  (0 <= WordMuncherFaceApi.scoreRef s /\ 0 <= WordMuncherFaceApi.score s)%Z ->
  (0 <= WordMuncherFaceApi.scoreRef (WordMuncherFaceApi.eat random w s)
   /\ 0 <= WordMuncherFaceApi.score (WordMuncherFaceApi.eat random w s))%Z.
Proof.
  intros [H1 H2]. destruct (faceapi_eat_shape random w s) as [ps ->].
  destruct (WordMuncherFaceApi.FallingWord.isCorrect w); cbn; lia.
Qed.

Lemma faceapi_step_nonneg e s s' :
  WordMuncherFaceApi.step random toString36 e s = Some s' ->
  (0 <= WordMuncherFaceApi.scoreRef s /\ 0 <= WordMuncherFaceApi.score s)%Z ->
  (0 <= WordMuncherFaceApi.scoreRef s' /\ 0 <= WordMuncherFaceApi.score s')%Z.
Proof.
  intros Hstep Hs.
  destruct e as [w h now | rs d cw ch vw vh |]; cbn [WordMuncherFaceApi.step] in Hstep.
  - destruct (WordMuncherFaceApi.runningRef s) eqn:Hr.
    + apply (faceapi_gameLoop_shape random toString36 w h now s s' Hr) in Hstep.
      destruct Hstep as (l & n & tr & ws & s2 & _ & El & ->).
      pose proof (faceapi_wordLoop_inv random
                    (fun s => (0 <= WordMuncherFaceApi.scoreRef s
                               /\ 0 <= WordMuncherFaceApi.score s)%Z)
                    (WordMuncherFaceApi.mouthPosRef s) h faceapi_eat_nonneg) as Hinv.
      match type of El with WordMuncherFaceApi.wordLoop _ _ _ _ ?s1 = _ =>
        specialize (Hinv tr s1 Hs) end.
      rewrite El in Hinv. exact Hinv.
    + unfold WordMuncherFaceApi.gameLoop in Hstep. rewrite Hr in Hstep.
      injection Hstep as <-. exact Hs.
  - injection Hstep as <-. unfold WordMuncherFaceApi.detectFace.
    destruct (_ || _); [exact Hs |]. destruct d; exact Hs.
  - destruct (WordMuncherFaceApi.timeouts s); [discriminate |].
    injection Hstep as <-. exact Hs.
Qed.

Lemma faceapi_run_nonneg es : forall s s',
  WordMuncherFaceApi.run random toString36 es s = Some s' ->
  (0 <= WordMuncherFaceApi.scoreRef s /\ 0 <= WordMuncherFaceApi.score s)%Z ->
  (0 <= WordMuncherFaceApi.scoreRef s' /\ 0 <= WordMuncherFaceApi.score s')%Z.
Proof.
  induction es as [| e es IH]; intros s s' Hrun Hs; cbn [WordMuncherFaceApi.run] in Hrun.
  - injection Hrun as <-. exact Hs.
  - destruct (WordMuncherFaceApi.step random toString36 e s) as [s1 |] eqn:E;
      [| discriminate].
    eapply IH; [exact Hrun |]. eapply faceapi_step_nonneg; eassumption.
Qed.

End ScoreFloor.

(** C2.  In both word-matching variants the collision with an incorrect treat
    sets the score to [max(0, score - 50)], and along every run from the
    initial state -- any sequence of frames, timers and answers, hence of
    reward and penalty events -- the score counter and the displayed score
    are never negative. *)
Theorem score_never_negative :
  forall (random : nat -> Q) (toString36 : Q -> string),
    (forall c t s,
        WordTreat.isCorrect t = false ->
        WordMuncher.scoreRef (WordMuncher.eat random c t s)
        = Z.max 0 (WordMuncher.scoreRef s - 50))
    /\ (forall w s,
        WordMuncherFaceApi.FallingWord.isCorrect w = false ->
        WordMuncherFaceApi.scoreRef (WordMuncherFaceApi.eat random w s)
        = Z.max 0 (WordMuncherFaceApi.scoreRef s - 50))
    /\ (forall es s,
        WordMuncher.run random toString36 es WordMuncher.init = Some s ->
        (0 <= WordMuncher.scoreRef s /\ 0 <= WordMuncher.score s)%Z)
    /\ (forall es s,
        WordMuncherFaceApi.run random toString36 es WordMuncherFaceApi.init = Some s ->
        (0 <= WordMuncherFaceApi.scoreRef s /\ 0 <= WordMuncherFaceApi.score s)%Z).
Proof.
  intros random toString36. split; [| split; [| split]].
  - intros c t s H. destruct (mesh_eat_shape random c t s) as [ps ->].
    rewrite H. reflexivity.
  - intros w s H. destruct (faceapi_eat_shape random w s) as [ps ->].
    rewrite H. reflexivity.
  - intros es s H.
    apply (mesh_run_nonneg random toString36 es WordMuncher.init s H). cbn. lia.
  - intros es s H.
    apply (faceapi_run_nonneg random toString36 es WordMuncherFaceApi.init s H).
    cbn. lia.
Qed.

(** A penalty at score 0: the frame of the scenario eats an incorrect treat
    and the score stays 0. *)
Lemma score_floor_witness :
  exists s, Scenario.wrong_bite = Some s
            /\ WordMuncher.spoken s = []
            /\ List.length (WordMuncher.particles s) = 10%nat
            /\ (0 <= WordMuncher.scoreRef s /\ 0 <= WordMuncher.score s)%Z.
Proof.
  eexists. split; [vm_compute; reflexivity |].
  split; [reflexivity |]. split; [reflexivity |].
  apply (proj1 (proj2 (proj2 (score_never_negative
                                (Spec.replay [0.01; 0; 0.9; 0; 0.5; 0.5; 0.5]%Q)
                                JS.toString36)))
           [WordMuncher.Frame Scenario.mouth_at_top 800 600 1000]).
  vm_compute. reflexivity.
Defined.

(** ** C3: ticks without a face *)

Section NoFace.
Variable random : nat -> Q.
Variable toString36 : Q -> string.

Lemma mesh_eat_keeps_mouth o p c t s :
  WordMuncher.isMouthOpen s = o /\ WordMuncher.mouthPos s = p ->
  WordMuncher.isMouthOpen (WordMuncher.eat random c t s) = o
  /\ WordMuncher.mouthPos (WordMuncher.eat random c t s) = p.
Proof.
  intros [<- <-]. destruct (mesh_eat_shape random c t s) as [ps ->].
  destruct (WordTreat.isCorrect t); split; reflexivity.
Qed.

(** After detection a frame does not touch the mouth state. *)
Lemma mesh_frame_keeps_detected_mouth c r w h now s s' :
  WordMuncher.onResults random toString36 c r w h now s = Some s' ->
  WordMuncher.isMouthOpen s' = WordMuncher.isMouthOpen (WordMuncher.detect r w h s)
  /\ WordMuncher.mouthPos s' = WordMuncher.mouthPos (WordMuncher.detect r w h s).
Proof.
  intro H. apply mesh_onResults_shape in H.
  destruct H as (p & o & n & tr & ts & s2 & -> & _ & El & ->).
  pose proof (mesh_treatLoop_inv random
                (fun s1 => WordMuncher.isMouthOpen s1 = o /\ WordMuncher.mouthPos s1 = p)
                c h) as Hinv.
  match type of El with WordMuncher.treatLoop _ _ _ _ ?s1 = _ =>
    specialize (Hinv (mesh_eat_keeps_mouth o p c) tr s1 (conj eq_refl eq_refl)) end.
  rewrite El in Hinv. cbn [snd] in Hinv.
  unfold WordMuncher.adviceTrigger. destruct (_ >? _)%Z; exact Hinv.
Qed.

End NoFace.

(** C3, as the code has it.  On a tick on which no face is found the mouth
    state is not reset: position and open flag keep the values the last tick
    with a face left (closed and the origin before any face was seen), in the
    refs and so in that tick's collision checks; the tick itself always
    completes. *)
Theorem mouth_state_is_retained_without_a_face :
  forall (random : nat -> Q) (toString36 : Q -> string),
    (forall w h s,
        WordMuncher.detect (Results.mk None) w h s = s
        /\ WordMuncher.detect (Results.mk (Some [])) w h s = s)
    /\ (forall c r w h now s s',
        Results.multiFaceLandmarks r = None \/ Results.multiFaceLandmarks r = Some [] ->
        WordMuncher.onResults random toString36 c r w h now s = Some s' ->
        WordMuncher.isMouthOpen s' = WordMuncher.isMouthOpen s
        /\ WordMuncher.mouthPos s' = WordMuncher.mouthPos s)
    /\ (forall w h s,
        CakeMuncher.detect (Results.mk None) w h s = s
        /\ CakeMuncher.detect (Results.mk (Some [])) w h s = s)
    /\ (forall readyState cw ch vw vh s,
        let s' := WordMuncherFaceApi.detectFace readyState None cw ch vw vh s in
        WordMuncherFaceApi.isMouthOpenRef s' = WordMuncherFaceApi.isMouthOpenRef s
        /\ WordMuncherFaceApi.mouthPosRef s' = WordMuncherFaceApi.mouthPosRef s)
    /\ WordMuncher.isMouthOpen WordMuncher.init = false
    /\ WordMuncherFaceApi.isMouthOpenRef WordMuncherFaceApi.init = false
    /\ (Spec.unit_draws random ->
        forall c r w h now s,
        exists s', WordMuncher.onResults random toString36 c r w h now s = Some s').
Proof.
  intros random toString36.
  split; [| split; [| split; [| split; [| split; [| split]]]]].
  - intros w h s. split; reflexivity.
  - intros c r w h now s s' Hr H.
    apply mesh_frame_keeps_detected_mouth in H.
    assert (E : WordMuncher.detect r w h s = s).
    { unfold WordMuncher.detect. destruct Hr as [-> | ->]; reflexivity. }
    rewrite E in H. exact H.
  - intros w h s. split; reflexivity.
  - intros readyState cw ch vw vh s. cbv zeta. unfold WordMuncherFaceApi.detectFace.
    destruct (_ || _); split; reflexivity.
  - reflexivity.
  - reflexivity.
  - intros Hu c r w h now s. apply mesh_onResults_total. exact Hu.
Qed.

(** An open mouth stays open, where it was, through a frame without a face. *)
Lemma retained_mouth_witness :
  exists s',
    WordMuncher.onResults (Spec.replay []) JS.toString36 Scenario.apple
      (Results.mk None) 800 600 1000 Scenario.low_mouth = Some s'
    /\ (WordMuncher.isMouthOpen s' = WordMuncher.isMouthOpen Scenario.low_mouth
        /\ WordMuncher.mouthPos s' = WordMuncher.mouthPos Scenario.low_mouth).
Proof.
  eexists. split; [vm_compute; reflexivity |].
  apply (proj1 (proj2 (mouth_state_is_retained_without_a_face
                         (Spec.replay []) JS.toString36))
           Scenario.apple (Results.mk None) 800%Q 600%Q 1000%Z Scenario.low_mouth).
  - left. reflexivity.
  - vm_compute. reflexivity.
Defined.

(** C3 as stated fails: the second frame of the scenario finds no face, yet
    its collision check runs with the mouth open and the treat is eaten. *)
Lemma bite_on_a_tick_without_a_face :
  exists s, Scenario.faceless_bite = Some s
            /\ WordMuncher.isMouthOpen s = true
            /\ WordMuncher.scoreRef s = 100%Z
            /\ WordMuncher.spoken s = ["Apple"%string].
Proof.
  eexists. split; [vm_compute; reflexivity |]. repeat split.
Qed.

(** ** C4: the advice dispatcher *)

Lemma no_active_treat (ts : list Treat.t) :
  (List.length (filter Treat.active ts) =? 0)%nat = true
  <-> forall t, In t ts -> Treat.active t = false.
Proof.
  rewrite Nat.eqb_eq. induction ts as [| t ts IH]; cbn [filter].
  - split; [intros _ t [] | reflexivity].
  - destruct (Treat.active t) eqn:E; cbn [List.length].
    + split; [discriminate |]. intro H. specialize (H t (or_introl eq_refl)). congruence.
    + rewrite IH. split.
      * intros H t' [<- | Hin]; [exact E | apply H; exact Hin].
      * intros H t' Hin. apply H. right. exact Hin.
Qed.

(** C4, as the code has it.  The point variant's dispatcher adds a request
    exactly when more than 5000 ms have passed since the last capture, some
    treat in the store is active and the [isAiThinking] its handler reads is
    false; so it never fires on a store without active treats.  The FaceMesh
    word-matching variant's dispatcher adds a request exactly when more than
    7000 ms have passed since the last capture: neither the treats nor a
    pending request hold it back. *)
Theorem advice_dispatch_gates :
  (forall c now s,
      CakeMuncher.requests (CakeMuncher.aiTrigger c now s)
      <> CakeMuncher.requests s
      <-> (now - CakeMuncher.lastCaptureTime s > 5000)%Z
          /\ CakeMuncher.isAiThinking_seen c = false
          /\ exists t, In t (CakeMuncher.treats s) /\ Treat.active t = true)
  /\ (forall c s,
      (forall t, In t (CakeMuncher.treats s) -> Treat.active t = false) ->
      CakeMuncher.handleAiAnalysis c s = s)
  /\ (forall c now s,
      WordMuncher.requests (WordMuncher.adviceTrigger c now s)
      = if (now - WordMuncher.lastCaptureTime s >? 7000)%Z
        then WordMuncher.requests s ++ [(c, WordMuncher.scoreRef s)]
        else WordMuncher.requests s).
Proof.
  split; [| split].
  - intros c now s. unfold CakeMuncher.aiTrigger, CakeMuncher.handleAiAnalysis.
    destruct (now - CakeMuncher.lastCaptureTime s >? 5000)%Z eqn:Et.
    2: { split; [intro H; exfalso; apply H; reflexivity |].
         intros [H _]. rewrite Z.gtb_ltb in Et. apply Z.ltb_ge in Et. lia. }
    rewrite Z.gtb_ltb in Et. apply Z.ltb_lt in Et.
    destruct (CakeMuncher.isAiThinking_seen c); cbn [orb].
    { split; [intro H; exfalso; apply H; reflexivity | intros (_ & H & _); discriminate]. }
    cbn [CakeMuncher.treats CakeMuncher.set_lastCaptureTime].
    destruct (List.length (filter Treat.active (CakeMuncher.treats s)) =? 0)%nat eqn:En.
    + split; [intro H; exfalso; apply H; reflexivity |].
      intros (_ & _ & t & Hin & Ha).
      apply (proj1 (no_active_treat _)) with (t := t) in En; [congruence | exact Hin].
    + split; [intros _ | intros _ H].
      * repeat split; [lia |].
        destruct (existsb Treat.active (CakeMuncher.treats s)) eqn:Ex.
        -- apply existsb_exists in Ex. exact Ex.
        -- exfalso. assert (Hall : forall t, In t (CakeMuncher.treats s) ->
                                             Treat.active t = false).
           { intros t Hin. destruct (Treat.active t) eqn:Ea; [| reflexivity].
             assert (existsb Treat.active (CakeMuncher.treats s) = true)
               by (apply existsb_exists; exists t; split; assumption).
             congruence. }
           apply no_active_treat in Hall. congruence.
      * cbn in H. apply (f_equal (@List.length _)) in H.
        rewrite length_app in H. cbn in H. lia.
  - intros c s H. unfold CakeMuncher.handleAiAnalysis.
    apply no_active_treat in H. rewrite H, orb_true_r. reflexivity.
  - intros c now s. unfold WordMuncher.adviceTrigger.
    destruct (_ >? _)%Z; reflexivity.
Qed.

(** The point variant with a single treat that has already been flagged: the
    handler sends nothing. *)
Lemma advice_gate_witness :
  CakeMuncher.handleAiAnalysis (CakeMuncher.mkClosure 1 false) Scenario.only_flagged
  = Scenario.only_flagged.
Proof.
  apply (proj1 (proj2 advice_dispatch_gates)).
  intros t [<- | []]. reflexivity.
Defined.

(** C4 as stated fails in the FaceMesh word-matching variant: from the
    initial state, with no treat ever spawned, the first frame after 7 s sends
    a request, and the frame 7 s later sends a second one while the first is
    still unanswered. *)
Lemma advice_sent_with_no_treats_and_one_pending :
  exists s1 s2,
    WordMuncher.step (Spec.replay []) JS.toString36 Scenario.idle_frame_1 WordMuncher.init
    = Some s1
    /\ WordMuncher.treats s1 = []
    /\ List.length (WordMuncher.requests s1) = 1%nat
    /\ WordMuncher.isAiThinking s1 = true
    /\ WordMuncher.step (Spec.replay []) JS.toString36 Scenario.idle_frame_2 s1 = Some s2
    /\ WordMuncher.treats s2 = []
    /\ List.length (WordMuncher.requests s2) = 2%nat.
Proof.
  eexists. eexists. split; [vm_compute; reflexivity |].
  split; [reflexivity |]. split; [reflexivity |]. split; [reflexivity |].
  split; [vm_compute; reflexivity |]. split; reflexivity.
Qed.

(** ** C5 and C10: the word a spawned treat carries *)

Lemma replay_unit (l : list Q) :
  Forall (fun q => (0 <= q)%Q /\ (q < 1)%Q) l -> Spec.unit_draws (Spec.replay l).
Proof.
  intro H. unfold Spec.unit_draws, Spec.replay.
  induction H as [| q l Hq _ IH]; intros [| n]; cbn [nth].
  - split; lra.
  - split; lra.
  - exact Hq.
  - apply IH.
Qed.

(** C5.  With draws in [0,1), a spawn in a word-matching variant always
    succeeds and appends one treat; if its [isCorrect] flag is true its word
    is the target word W the spawner was given (the word of the quiz entry at
    [quizIndexRef] in the face-api variant), and if the flag is false its
    word differs from W and is the word of another entry of the quiz list. *)
Theorem spawned_word_agrees_with_flag :
  forall (random : nat -> Q) (toString36 : Q -> string),
    Spec.unit_draws random ->
    (forall width W s,
        exists s' t,
          WordMuncher.spawnTreat random toString36 width W s = Some s'
          /\ WordMuncher.treats s' = WordMuncher.treats s ++ [t]
          /\ (WordTreat.isCorrect t = true -> WordTreat.word t = W)
          /\ (WordTreat.isCorrect t = false ->
              WordTreat.word t <> W
              /\ exists q, In q WordMuncher.QUIZ_LIST /\ WordTreat.word t = Quiz.word q))
    /\ (forall width s,
        (0 <= WordMuncherFaceApi.quizIndexRef s < 8)%Z ->
        exists quiz s' t,
          JS.index WordMuncherFaceApi.QUIZ_LIST (WordMuncherFaceApi.quizIndexRef s)
          = Some quiz
          /\ WordMuncherFaceApi.spawnWord random toString36 width s = Some s'
          /\ WordMuncherFaceApi.wordsRef s' = WordMuncherFaceApi.wordsRef s ++ [t]
          /\ (WordMuncherFaceApi.FallingWord.isCorrect t = true ->
              WordMuncherFaceApi.FallingWord.word t = Quiz.word quiz)
          /\ (WordMuncherFaceApi.FallingWord.isCorrect t = false ->
              WordMuncherFaceApi.FallingWord.word t <> Quiz.word quiz
              /\ exists q, In q WordMuncherFaceApi.QUIZ_LIST
                           /\ WordMuncherFaceApi.FallingWord.word t = Quiz.word q)).
Proof.
  intros random toString36 Hu. split.
  - intros width W s.
    destruct (mesh_spawnTreat_total random toString36 width W s Hu) as [s' Hs].
    destruct (mesh_spawnTreat_shape random toString36 width W s s' Hs)
      as (t & n & -> & _ & _ & _ & Hc & Hw & Hm).
    exists (WordMuncher.set_draws n
              (WordMuncher.set_treats (WordMuncher.treats s ++ [t]) s)), t.
    split; [exact Hs | split; [reflexivity | split; [exact Hc |]]].
    intro Hf. split; [apply Hw | apply Hm]; exact Hf.
  - intros width s Hi.
    destruct (faceapi_spawnWord_total random toString36 width s Hu Hi) as [s' Hs].
    destruct (faceapi_spawnWord_shape random toString36 width s s' Hs)
      as (quiz & t & n & Hq & -> & _ & _ & Hc & Hw & Hm).
    exists quiz,
      (WordMuncherFaceApi.set_draws n
         (WordMuncherFaceApi.set_wordsRef (WordMuncherFaceApi.wordsRef s ++ [t]) s)), t.
    split; [exact Hq | split; [exact Hs | split; [reflexivity | split; [exact Hc |]]]].
    intro Hf. split; [apply Hw | apply Hm]; exact Hf.
Qed.

(** The spawner at target "Apple" with the draws 0.2 (type), 0.9 (incorrect)
    and 0.99 (last of the other words). *)
Lemma spawned_word_witness :
  exists s' t,
    WordMuncher.spawnTreat (Spec.replay [0.2; 0.9; 0.99]%Q) JS.toString36 800 "Apple"
      WordMuncher.init = Some s'
    /\ WordMuncher.treats s' = WordMuncher.treats WordMuncher.init ++ [t]
    /\ (WordTreat.isCorrect t = true -> WordTreat.word t = "Apple"%string)
    /\ (WordTreat.isCorrect t = false ->
        WordTreat.word t <> "Apple"%string
        /\ exists q, In q WordMuncher.QUIZ_LIST /\ WordTreat.word t = Quiz.word q).
Proof.
  apply (proj1 (spawned_word_agrees_with_flag (Spec.replay [0.2; 0.9; 0.99]%Q)
                  JS.toString36
                  (replay_unit [0.2; 0.9; 0.99]%Q ltac:(repeat constructor; lra)))).
Defined.

(** The word of an incorrect treat is the word of the entry read from the
    filtered list. *)
Lemma faceapi_otherWord_entry quiz r w :
  WordMuncherFaceApi.otherWord quiz r = Some w ->
  exists q,
    JS.index (filter (fun q => negb (String.eqb (Quiz.word q) (Quiz.word quiz)))
                WordMuncherFaceApi.QUIZ_LIST)
      (Qfloor (r * (JS.len WordMuncherFaceApi.QUIZ_LIST - 1))) = Some q
    /\ In q WordMuncherFaceApi.QUIZ_LIST
    /\ w = Quiz.word q.
Proof.
  unfold WordMuncherFaceApi.otherWord.
  destruct (JS.index _ _) as [q |] eqn:Eq; [| discriminate].
  intro H. injection H as <-. exists q. split; [reflexivity |].
  apply index_some_in in Eq. apply filter_In in Eq. split; [apply Eq | reflexivity].
Qed.

(** An incorrect spawn appends a word that carries what [otherWord] returned
    for the third draw. *)
Lemma faceapi_spawnWord_incorrect random toString36 width s quiz w :
  JS.index WordMuncherFaceApi.QUIZ_LIST (WordMuncherFaceApi.quizIndexRef s) = Some quiz ->
  JS.ltb (random (S (WordMuncherFaceApi.draws s))) 0.35 = false ->
  WordMuncherFaceApi.otherWord quiz (random (S (S (WordMuncherFaceApi.draws s)))) = Some w ->
  exists s' t,
    WordMuncherFaceApi.spawnWord random toString36 width s = Some s'
    /\ WordMuncherFaceApi.wordsRef s' = WordMuncherFaceApi.wordsRef s ++ [t]
    /\ WordMuncherFaceApi.FallingWord.isCorrect t = false
    /\ WordMuncherFaceApi.FallingWord.word t = w.
Proof.
  intros Hq Hc Hw. unfold WordMuncherFaceApi.spawnWord, WordMuncherFaceApi.Math_random.
  destruct s; cbn -[JS.index JS.ltb WordMuncherFaceApi.otherWord
                    WordMuncherFaceApi.QUIZ_LIST Qfloor] in *.
  rewrite Hq, Hc, Hw. eexists _, _. split; [reflexivity |]. cbn. repeat split.
Qed.

(** C10.  The eight quiz words are pairwise distinct, so for every target
    entry the list of the other entries has exactly [QUIZ_LIST.length - 1 = 7]
    elements; for every draw in [0,1) the index
    [Math.floor(draw * (QUIZ_LIST.length - 1))] lies in 0..6, the read of the
    filtered list at that index is in bounds and yields an entry of the quiz
    list whose word differs from the target's; that word is the one
    [otherWord] returns, and the one [spawnWord] gives the word it appends
    when its correctness coin says incorrect and its third draw is that
    draw. *)
Theorem incorrect_word_index_in_bounds :
  forall (quiz : Quiz.t) (r : Q),
    In quiz WordMuncherFaceApi.QUIZ_LIST -> (0 <= r)%Q -> (r < 1)%Q ->
    let others :=
      filter (fun q => negb (String.eqb (Quiz.word q) (Quiz.word quiz)))
        WordMuncherFaceApi.QUIZ_LIST in
    NoDup (map Quiz.word WordMuncherFaceApi.QUIZ_LIST)
    /\ List.length WordMuncherFaceApi.QUIZ_LIST = 8%nat
    /\ List.length others = (List.length WordMuncherFaceApi.QUIZ_LIST - 1)%nat
    /\ (0 <= Qfloor (r * (JS.len WordMuncherFaceApi.QUIZ_LIST - 1))
        < Z.of_nat (List.length others))%Z
    /\ (exists q,
          JS.index others (Qfloor (r * (JS.len WordMuncherFaceApi.QUIZ_LIST - 1))) = Some q
          /\ In q WordMuncherFaceApi.QUIZ_LIST
          /\ Quiz.word q <> Quiz.word quiz
          /\ WordMuncherFaceApi.otherWord quiz r = Some (Quiz.word q)
          /\ forall random toString36 width s,
               JS.index WordMuncherFaceApi.QUIZ_LIST (WordMuncherFaceApi.quizIndexRef s)
               = Some quiz ->
               JS.ltb (random (S (WordMuncherFaceApi.draws s))) 0.35 = false ->
               random (S (S (WordMuncherFaceApi.draws s))) = r ->
               exists s' t,
                 WordMuncherFaceApi.spawnWord random toString36 width s = Some s'
                 /\ WordMuncherFaceApi.wordsRef s' = WordMuncherFaceApi.wordsRef s ++ [t]
                 /\ WordMuncherFaceApi.FallingWord.isCorrect t = false
                 /\ WordMuncherFaceApi.FallingWord.word t = Quiz.word q).
Proof.
  intros quiz r Hq H0 H1 others.
  assert (Hlen := faceapi_others_length quiz Hq). fold others in Hlen.
  destruct (faceapi_otherWord_total quiz r Hq H0 H1) as [Hk [w Hw]].
  split; [| split; [reflexivity | split; [exact Hlen | split]]].
  - unfold WordMuncherFaceApi.QUIZ_LIST, WordMuncher.QUIZ_LIST. cbn [map Quiz.word].
    repeat (constructor; [cbn [In]; intuition discriminate |]). constructor.
  - rewrite Hlen. vm_compute List.length. exact Hk.
  - destruct (faceapi_otherWord_entry quiz r w Hw) as (q & Ei & Hin & ->).
    exists q. split; [exact Ei |]. split; [exact Hin |].
    split; [eapply faceapi_otherWord_differs; exact Hw |]. split; [exact Hw |].
    intros random toString36 width s Hi Hc Hr. subst r.
    apply (faceapi_spawnWord_incorrect random toString36 width s quiz _ Hi Hc Hw).
Qed.

(** The target "Apple" and the draw 0.99: index 6, the word "Ball". *)
Lemma incorrect_word_witness :
  exists q,
    JS.index (filter (fun q => negb (String.eqb (Quiz.word q) (Quiz.word Scenario.apple)))
                WordMuncherFaceApi.QUIZ_LIST)
      (Qfloor (0.99 * (JS.len WordMuncherFaceApi.QUIZ_LIST - 1))) = Some q
    /\ Quiz.word q = "Ball"%string
    /\ WordMuncherFaceApi.otherWord Scenario.apple 0.99 = Some (Quiz.word q).
Proof.
  destruct (proj2 (proj2 (proj2 (proj2
          (incorrect_word_index_in_bounds Scenario.apple 0.99%Q
             (or_introl eq_refl) ltac:(lra) ltac:(lra))))))
    as (q & Ei & _ & _ & Ew & _).
  exists q. split; [exact Ei |]. split; [| exact Ew].
  vm_compute in Ei. injection Ei as <-. reflexivity.
Defined.

(** ** C9: the weighted category *)

Ltac pick_category i :=
  exists i; split; [cbn; lia | split; [reflexivity | split;
    [vm_compute Spec.cumulative; unfold inject_Z; lra
    | intros j Hj; do 6 (try destruct j as [| j]); try lia;
      vm_compute Spec.cumulative; unfold inject_Z; lra]]].

Ltac weigh c :=
  let E := fresh "Hcmp" in
  destruct (JS.ltb _ (inject_Z c)) eqn:E;
  [apply ltb_true in E; unfold inject_Z in E
  | apply ltb_false in E; unfold inject_Z in E].

(** The weighting loop selects the first index whose cumulative weight
    exceeds the draw value. *)
Lemma weightLoop_first_above (r : Q) :
  (0 <= r)%Q -> (r < 100)%Q ->
  exists i, (i < List.length CakeMuncher.types)%nat
    /\ CakeMuncher.weightLoop (List.length CakeMuncher.weights) 0 r 0 cupcake
       = nth i CakeMuncher.types cupcake
    /\ (r < inject_Z (Spec.cumulative i))%Q
    /\ forall j, (j < i)%nat -> (inject_Z (Spec.cumulative j) <= r)%Q.
Proof.
  intros H0 H1.
  assert (Hpick :
    CakeMuncher.weightLoop (List.length CakeMuncher.weights) 0 r 0 cupcake
    = if JS.ltb r (inject_Z 40) then cupcake
      else if JS.ltb r (inject_Z 70) then cookie
      else if JS.ltb r (inject_Z 85) then donut
      else if JS.ltb r (inject_Z 93) then icecream
      else if JS.ltb r (inject_Z 98) then cake
      else if JS.ltb r (inject_Z 100) then cherry else cupcake) by reflexivity.
  rewrite Hpick. clear Hpick.
  weigh 40%Z; [pick_category 0%nat |].
  weigh 70%Z; [pick_category 1%nat |].
  weigh 85%Z; [pick_category 2%nat |].
  weigh 93%Z; [pick_category 3%nat |].
  weigh 98%Z; [pick_category 4%nat |].
  weigh 100%Z; [pick_category 5%nat |].
  exfalso. lra.
Qed.

(** The category of the treat [spawnTreat] appends is the one the weighting
    loop selects for a hundred times the first draw of the spawn. *)
Lemma cake_spawned_type random toString36 w s :
  exists t,
    CakeMuncher.treats (CakeMuncher.spawnTreat random toString36 w s)
    = CakeMuncher.treats s ++ [t]
    /\ Treat.type t
       = CakeMuncher.weightLoop (List.length CakeMuncher.weights) 0
           (random (CakeMuncher.draws s) * 100)%Q 0 cupcake
    /\ Treat.points t = CakeMuncher.points_of (Treat.type t)
    /\ Treat.emoji t = CakeMuncher.emoji_of (Treat.type t).
Proof.
  unfold CakeMuncher.spawnTreat, CakeMuncher.Math_random. destruct s.
  cbn -[CakeMuncher.weightLoop JS.substr CakeMuncher.points_of CakeMuncher.emoji_of].
  eexists. repeat split.
Qed.

(** C9.  The weights 40, 30, 15, 8, 5, 2 sum to 100, and for every draw value
    [r] in [0,100) the weighting loop of the point variant's spawner selects
    the category at the first index whose cumulative weight exceeds [r]: the
    cumulative weight at that index is above [r] and at every earlier index
    it is not.  [spawnTreat] appends a treat of that category for [r] a
    hundred times its first draw, whenever that draw is in [0,1). *)
Theorem category_is_first_cumulative_weight_above_draw :
  fold_right Z.add 0%Z CakeMuncher.weights = 100%Z
  /\ (forall r : Q, (0 <= r)%Q -> (r < 100)%Q ->
        exists i, (i < List.length CakeMuncher.types)%nat
          /\ CakeMuncher.weightLoop (List.length CakeMuncher.weights) 0 r 0 cupcake
             = nth i CakeMuncher.types cupcake
          /\ (r < inject_Z (Spec.cumulative i))%Q
          /\ forall j, (j < i)%nat -> (inject_Z (Spec.cumulative j) <= r)%Q)
  /\ (forall (random : nat -> Q) (toString36 : Q -> string) (width : Q) s,
        let r := (random (CakeMuncher.draws s) * 100)%Q in
        (0 <= random (CakeMuncher.draws s))%Q -> (random (CakeMuncher.draws s) < 1)%Q ->
        exists t i,
          CakeMuncher.treats (CakeMuncher.spawnTreat random toString36 width s)
          = CakeMuncher.treats s ++ [t]
          /\ Treat.type t
             = CakeMuncher.weightLoop (List.length CakeMuncher.weights) 0 r 0 cupcake
          /\ (i < List.length CakeMuncher.types)%nat
          /\ Treat.type t = nth i CakeMuncher.types cupcake
          /\ (r < inject_Z (Spec.cumulative i))%Q
          /\ forall j, (j < i)%nat -> (inject_Z (Spec.cumulative j) <= r)%Q).
Proof.
  split; [reflexivity |]. split; [exact weightLoop_first_above |].
  intros random toString36 width s r H0 H1.
  destruct (cake_spawned_type random toString36 width s) as (t & Et & Ety & _).
  destruct (weightLoop_first_above r) as (i & Hi & Ew & Ha & Hb).
  { unfold r. lra. }
  { unfold r. lra. }
  exists t, i. split; [exact Et |]. split; [exact Ety |]. split; [exact Hi |].
  split; [rewrite Ety; exact Ew |]. split; [exact Ha | exact Hb].
Qed.

(** The draw 85 sits on a boundary: the cumulative weight 85 of the third
    category does not exceed it, so the fourth (ice cream) is selected; and
    a spawn whose first draw is 0.85. *)
Lemma category_witness :
  (CakeMuncher.weightLoop 6 0 85 0 cupcake = icecream
   /\ exists i, (i < List.length CakeMuncher.types)%nat
        /\ CakeMuncher.weightLoop (List.length CakeMuncher.weights) 0 85 0 cupcake
           = nth i CakeMuncher.types cupcake
        /\ (85 < inject_Z (Spec.cumulative i))%Q
        /\ forall j, (j < i)%nat -> (inject_Z (Spec.cumulative j) <= 85)%Q)
  /\ exists t i,
       CakeMuncher.treats
         (CakeMuncher.spawnTreat (Spec.replay [0.85]%Q) JS.toString36 800 CakeMuncher.init)
       = CakeMuncher.treats CakeMuncher.init ++ [t]
       /\ Treat.type t
          = CakeMuncher.weightLoop (List.length CakeMuncher.weights) 0 (0.85 * 100) 0 cupcake
       /\ (i < List.length CakeMuncher.types)%nat
       /\ Treat.type t = nth i CakeMuncher.types cupcake
       /\ (0.85 * 100 < inject_Z (Spec.cumulative i))%Q
       /\ forall j, (j < i)%nat -> (inject_Z (Spec.cumulative j) <= 0.85 * 100)%Q.
Proof.
  split.
  - split; [reflexivity |].
    apply (proj1 (proj2 category_is_first_cumulative_weight_above_draw) 85%Q);
      [vm_compute; discriminate | vm_compute; reflexivity].
  - apply (proj2 (proj2 category_is_first_cumulative_weight_above_draw)
             (Spec.replay [0.85]%Q) JS.toString36 800%Q CakeMuncher.init);
      [vm_compute; discriminate | vm_compute; reflexivity].
Defined.

(** ** C8: identifiers *)

Section Identifiers.
Variable random : nat -> Q.
Variable toString36 : Q -> string.

Lemma mesh_visit_id c h t s t' :
  fst (WordMuncher.visit random c h t s) = Some t' -> WordTreat.id t' = WordTreat.id t.
Proof.
  unfold WordMuncher.visit. destruct (negb _); [discriminate |].
  destruct (JS.gtb _ _); [intro H; injection H as <-; reflexivity |].
  destruct (_ && _); intro H; injection H as <-; reflexivity.
Qed.

Lemma cake_visit_id c h t s t' :
  fst (CakeMuncher.visit random c h t s) = Some t' -> Treat.id t' = Treat.id t.
Proof.
  unfold CakeMuncher.visit. destruct (negb _); [discriminate |].
  destruct (JS.gtb _ _); [intro H; injection H as <-; reflexivity |].
  destruct (_ && _); intro H; injection H as <-; reflexivity.
Qed.

(** The treat loop only drops or updates entries: identifiers that were
    distinct stay distinct, and no new identifier appears. *)
Lemma mesh_treatLoop_ids c h ts : forall s,
  (forall i, In i (map WordTreat.id (fst (WordMuncher.treatLoop random c h ts s))) ->
             In i (map WordTreat.id ts))
  /\ (NoDup (map WordTreat.id ts) ->
      NoDup (map WordTreat.id (fst (WordMuncher.treatLoop random c h ts s)))).
Proof.
  induction ts as [| t ts IH]; intro s; cbn [WordMuncher.treatLoop].
  - split; [intros i [] | intros _; constructor].
  - destruct (IH s) as [Hin Hnd].
    destruct (WordMuncher.treatLoop random c h ts s) as [rest s1]. cbn [fst] in *.
    pose proof (mesh_visit_id c h t s1) as Hid.
    destruct (WordMuncher.visit random c h t s1) as [[t' |] s2]; cbn [fst map] in *.
    + rewrite (Hid t' eq_refl). split.
      * intros i [<- | Hi]; [left; reflexivity | right; apply Hin; exact Hi].
      * intro H. inversion H as [| x l Hx Hl]; subst. constructor; [| apply Hnd; exact Hl].
        intro Hi. apply Hx. apply Hin. exact Hi.
    + split.
      * intros i Hi. right. apply Hin. exact Hi.
      * intro H. inversion H; subst. apply Hnd. assumption.
Qed.

Lemma cake_treatLoop_ids c h ts : forall s,
  (forall i, In i (map Treat.id (fst (CakeMuncher.treatLoop random c h ts s))) ->
             In i (map Treat.id ts))
  /\ (NoDup (map Treat.id ts) ->
      NoDup (map Treat.id (fst (CakeMuncher.treatLoop random c h ts s)))).
Proof.
  induction ts as [| t ts IH]; intro s; cbn [CakeMuncher.treatLoop].
  - split; [intros i [] | intros _; constructor].
  - destruct (IH s) as [Hin Hnd].
    destruct (CakeMuncher.treatLoop random c h ts s) as [rest s1]. cbn [fst] in *.
    pose proof (cake_visit_id c h t s1) as Hid.
    destruct (CakeMuncher.visit random c h t s1) as [[t' |] s2]; cbn [fst map] in *.
    + rewrite (Hid t' eq_refl). split.
      * intros i [<- | Hi]; [left; reflexivity | right; apply Hin; exact Hi].
      * intro H. inversion H as [| x l Hx Hl]; subst. constructor; [| apply Hnd; exact Hl].
        intro Hi. apply Hx. apply Hin. exact Hi.
    + split.
      * intros i Hi. right. apply Hin. exact Hi.
      * intro H. inversion H; subst. apply Hnd. assumption.
Qed.

Lemma NoDup_snoc {A} (l : list A) (x : A) :
  NoDup (l ++ [x]) <-> NoDup l /\ ~ In x l.
Proof.
  pose proof (Add_app x l []) as H. rewrite app_nil_r in H.
  apply NoDup_Add. exact H.
Qed.

(** The point variant's spawn: one more treat, whose identifier renders the
    second draw of the spawn. *)
Lemma cake_spawnTreat_shape w s :
  exists t,
    CakeMuncher.spawnTreat random toString36 w s
    = CakeMuncher.set_draws (CakeMuncher.draws s + 4)
        (CakeMuncher.set_treats (CakeMuncher.treats s ++ [t]) s)
    /\ Treat.id t = JS.substr 2 9 (toString36 (random (S (CakeMuncher.draws s))))
    /\ Treat.type t
       = CakeMuncher.weightLoop (List.length CakeMuncher.weights) 0
           (random (CakeMuncher.draws s) * 100)%Q 0 cupcake
    /\ Treat.active t = true.
Proof.
  unfold CakeMuncher.spawnTreat, CakeMuncher.Math_random. destruct s.
  cbn -[CakeMuncher.weightLoop JS.substr].
  eexists. split; [| split; [| split]].
  - unfold CakeMuncher.set_draws, CakeMuncher.set_treats.
    cbn -[CakeMuncher.weightLoop JS.substr]. f_equal; try reflexivity; lia.
  - reflexivity.
  - reflexivity.
  - reflexivity.
Qed.

End Identifiers.

(** C8, as the code has it.  Identifiers are base-36 renderings of random
    draws and nothing compares them.  The treat loop (prunes and
    consumptions) only drops or updates entries, so identifiers that are
    pairwise distinct stay so, and a quiz advance empties the store; a spawn
    appends one treat, and the identifiers are pairwise distinct afterwards
    exactly when they were before and the rendered draw is not already in
    the store.  Hence a frame of the FaceMesh variant keeps the identifiers
    distinct unless a draw of that frame renders to an identifier present. *)
Theorem identifiers_unique_while_draws_differ :
  forall (random : nat -> Q) (toString36 : Q -> string),
    (forall c h ts s,
        NoDup (map WordTreat.id ts) ->
        NoDup (map WordTreat.id (fst (WordMuncher.treatLoop random c h ts s))))
    /\ (forall c h ts s,
        NoDup (map Treat.id ts) ->
        NoDup (map Treat.id (fst (CakeMuncher.treatLoop random c h ts s))))
    /\ (forall captured s, WordMuncher.treats (WordMuncher.nextQuiz captured s) = [])
    /\ (forall w cw s s',
        WordMuncher.spawnTreat random toString36 w cw s = Some s' ->
        exists t n,
          WordMuncher.treats s' = WordMuncher.treats s ++ [t]
          /\ WordTreat.id t = JS.substr 2 9 (toString36 (random n))
          /\ (NoDup (map WordTreat.id (WordMuncher.treats s'))
              <-> NoDup (map WordTreat.id (WordMuncher.treats s))
                  /\ ~ In (WordTreat.id t) (map WordTreat.id (WordMuncher.treats s))))
    /\ (forall w s,
        exists t,
          CakeMuncher.treats (CakeMuncher.spawnTreat random toString36 w s)
          = CakeMuncher.treats s ++ [t]
          /\ Treat.id t
             = JS.substr 2 9 (toString36 (random (S (CakeMuncher.draws s))))
          /\ (NoDup (map Treat.id
                       (CakeMuncher.treats (CakeMuncher.spawnTreat random toString36 w s)))
              <-> NoDup (map Treat.id (CakeMuncher.treats s))
                  /\ ~ In (Treat.id t) (map Treat.id (CakeMuncher.treats s))))
    /\ (forall c r w h now s s',
        WordMuncher.onResults random toString36 c r w h now s = Some s' ->
        NoDup (map WordTreat.id (WordMuncher.treats s)) ->
        NoDup (map WordTreat.id (WordMuncher.treats s'))
        \/ exists n, (WordMuncher.draws s < n)%nat
                     /\ In (JS.substr 2 9 (toString36 (random n)))
                          (map WordTreat.id (WordMuncher.treats s))).
Proof.
  intros random toString36.
  split; [| split; [| split; [| split; [| split]]]].
  - intros c h ts s. apply mesh_treatLoop_ids.
  - intros c h ts s. apply cake_treatLoop_ids.
  - reflexivity.
  - intros w cw s s' H. apply mesh_spawnTreat_shape in H.
    destruct H as (t & n & -> & _ & _ & Hid & _).
    exists t, (n - 3)%nat. split; [destruct s; reflexivity | split; [exact Hid |]].
    replace (WordMuncher.treats _) with (WordMuncher.treats s ++ [t])
      by (destruct s; reflexivity).
    rewrite map_app. apply NoDup_snoc.
  - intros w s. destruct (cake_spawnTreat_shape random toString36 w s)
      as (t & -> & Hid & _).
    exists t. split; [destruct s; reflexivity | split; [exact Hid |]].
    replace (CakeMuncher.treats _) with (CakeMuncher.treats s ++ [t])
      by (destruct s; reflexivity).
    rewrite map_app. apply NoDup_snoc.
  - intros c r w h now s s' H Hnd. apply mesh_onResults_shape in H.
    destruct H as (p & o & n & tr & ts & s2 & _ & Hsp & El & ->).
    assert (Hts : ts = fst (WordMuncher.treatLoop random c h tr
                              (WordMuncher.set_draws n
                                 (WordMuncher.set_treats tr
                                    (WordMuncher.set_isMouthOpen o
                                       (WordMuncher.set_mouthPos p s))))))
      by (rewrite El; reflexivity).
    replace (WordMuncher.treats _) with ts
      by (unfold WordMuncher.adviceTrigger; destruct (_ >? _)%Z; reflexivity).
    destruct Hsp as [[-> _] | (t & -> & Hn & _ & Hid & _)].
    + left. rewrite Hts. apply mesh_treatLoop_ids. exact Hnd.
    + destruct (in_dec string_dec (WordTreat.id t)
                  (map WordTreat.id (WordMuncher.treats s))) as [Hin | Hout].
      * right. exists (n - 3)%nat. split; [lia |]. rewrite <- Hid. exact Hin.
      * left. rewrite Hts. apply mesh_treatLoop_ids.
        rewrite map_app. apply NoDup_snoc. split; assumption.
Qed.

(** A frame that spawns into the empty store: the single identifier is
    unique afterwards. *)
Lemma identifiers_witness :
  exists s',
    WordMuncher.onResults (Spec.replay [0.01; 0; 0.1; 0.5; 0.5; 0.5]%Q) JS.toString36
      Scenario.apple (Results.mk None) 800 600 1000 WordMuncher.init = Some s'
    /\ (NoDup (map WordTreat.id (WordMuncher.treats s'))
        \/ exists n, (WordMuncher.draws WordMuncher.init < n)%nat
                     /\ In (JS.substr 2 9
                              (JS.toString36
                                 (Spec.replay [0.01; 0; 0.1; 0.5; 0.5; 0.5]%Q n)))
                          (map WordTreat.id (WordMuncher.treats WordMuncher.init))).
Proof.
  eexists. split; [vm_compute; reflexivity |].
  apply (proj2 (proj2 (proj2 (proj2 (proj2
           (identifiers_unique_while_draws_differ
              (Spec.replay [0.01; 0; 0.1; 0.5; 0.5; 0.5]%Q) JS.toString36)))))
           Scenario.apple (Results.mk None) 800%Q 600%Q 1000%Z WordMuncher.init).
  - vm_compute. reflexivity.
  - constructor.
Defined.

(** C8 as stated fails: two spawns whose identifier draws are both 1/2 leave
    two active treats with the identifier "i" in the store. *)
Lemma two_active_treats_share_an_identifier :
  exists s, Scenario.twin_spawns = Some s
            /\ map WordTreat.id (WordMuncher.treats s) = ["i"; "i"]%string
            /\ map WordTreat.active (WordMuncher.treats s) = [true; true]
            /\ ~ NoDup (map WordTreat.id (WordMuncher.treats s)).
Proof.
  eexists. split; [vm_compute; reflexivity |].
  split; [reflexivity |]. split; [reflexivity |].
  intro H. inversion H as [| x l Hx _]; subst. apply Hx. left. reflexivity.
Qed.

(** ** C6: when the quiz advances *)

Section QuizMesh.
Variable random : nat -> Q.
Variable toString36 : Q -> string.
Import WordMuncher.

Lemma mesh_visit_bites c h t s :
  (Spec.mesh_bites h t s = true ->
   visit random c h t s =
   (Some (WordTreat.set_active false
            (WordTreat.set_y (WordTreat.y t + WordTreat.velocity t) t)),
    eat random c (WordTreat.set_y (WordTreat.y t + WordTreat.velocity t) t) s))
  /\ (Spec.mesh_bites h t s = false -> snd (visit random c h t s) = s).
Proof.
  unfold Spec.mesh_bites, visit, JS.gtb, JS.ltb, JS.leb, dToMouth2.
  cbn [WordTreat.set_y WordTreat.x WordTreat.y].
  destruct (WordTreat.active t); cbn [negb andb]; [| split; [discriminate | reflexivity]].
  destruct (Qle_bool _ _); cbn [negb andb]; [| split; [discriminate | reflexivity]].
  destruct (isMouthOpen s); cbn [andb]; [| split; [discriminate | reflexivity]].
  destruct (JS.sqrt_ltb _ _); split; try discriminate; reflexivity.
Qed.


Lemma mesh_bites_ext h t a b :
  isMouthOpen a = isMouthOpen b -> mouthPos a = mouthPos b ->
  Spec.mesh_bites h t a = Spec.mesh_bites h t b.
Proof. intros E1 E2. unfold Spec.mesh_bites. rewrite E1, E2. reflexivity. Qed.

Lemma mesh_correct_bites_ext h ts a b :
  isMouthOpen a = isMouthOpen b -> mouthPos a = mouthPos b ->
  Spec.mesh_correct_bites h ts a = Spec.mesh_correct_bites h ts b.
Proof.
  intros E1 E2. unfold Spec.mesh_correct_bites. f_equal. apply filter_ext.
  intro t. rewrite (mesh_bites_ext h t a b E1 E2). reflexivity.
Qed.

(** The treat loop queues one timer per correct treat consumed and touches
    neither the quiz nor the mouth. *)
Lemma mesh_treatLoop_timers c h ts : forall s,
  let s' := snd (treatLoop random c h ts s) in
  timeouts s' = timeouts s ++ repeat c (Spec.mesh_correct_bites h ts s)
  /\ currentQuiz s' = currentQuiz s
  /\ isMouthOpen s' = isMouthOpen s
  /\ mouthPos s' = mouthPos s.
Proof.
  induction ts as [| t ts IH]; intro s; cbn zeta.
  - cbn. rewrite app_nil_r. repeat split.
  - cbn [treatLoop]. specialize (IH s). cbn zeta in IH.
    destruct (treatLoop random c h ts s) as [rest s1]. cbn [snd] in IH.
    destruct IH as (Ht & Hq & Ho & Hp).
    unfold Spec.mesh_correct_bites. cbn [filter].
    rewrite <- (mesh_bites_ext h t s1 s Ho Hp).
    destruct (mesh_visit_bites c h t s1) as [Hy Hn].
    destruct (Spec.mesh_bites h t s1).
    + rewrite (Hy eq_refl). cbn [snd andb].
      destruct (mesh_eat_shape random c
                  (WordTreat.set_y (WordTreat.y t + WordTreat.velocity t) t) s1)
        as [ps ->].
      cbn [WordTreat.set_y WordTreat.isCorrect].
      destruct (WordTreat.isCorrect t);
        cbn [timeouts currentQuiz isMouthOpen mouthPos List.length].
      * rewrite Ht. fold (Spec.mesh_correct_bites h ts s).
        rewrite <- app_assoc. rewrite <- repeat_cons. repeat split; assumption.
      * fold (Spec.mesh_correct_bites h ts s). repeat split; assumption.
    + specialize (Hn eq_refl).
      destruct (visit random c h t s1) as [t' s2]. cbn [snd] in Hn. subst s2.
      cbn [andb]. fold (Spec.mesh_correct_bites h ts s).
      destruct t'; cbn [snd]; repeat split; assumption.
Qed.

Lemma mesh_frame_timers c r w h now s s' :
  onResults random toString36 c r w h now s = Some s' ->
  currentQuiz s' = currentQuiz s
  /\ exists s0,
       Spec.mesh_loop_start random toString36 c r w h s = Some s0
       /\ (treats s0 = treats s \/ exists t, treats s0 = treats s ++ [t])
       /\ timeouts s' = timeouts s ++ repeat c (Spec.mesh_correct_bites h (treats s0) s0).
Proof.
  intro H. apply mesh_frame_from_start in H.
  destruct H as (s0 & ts & s2 & Hs0 & El & ->).
  destruct (mesh_loop_start_fields random toString36 c r w h s s0 Hs0)
    as (_ & _ & _ & Et0 & Eq0 & _ & Htr).
  pose proof (mesh_treatLoop_timers c h (treats s0) s0) as Hl.
  cbn zeta in Hl. rewrite El in Hl. cbn [snd] in Hl.
  destruct Hl as (Ht & Hq & _ & _).
  set (s3 := set_particles _ (set_treats ts s2)).
  assert (Hadv : timeouts (adviceTrigger c now s3) = timeouts s2
                 /\ currentQuiz (adviceTrigger c now s3) = currentQuiz s2).
  { unfold adviceTrigger. destruct (_ >? _)%Z; split; reflexivity. }
  destruct Hadv as (At & Aq).
  split; [rewrite Aq, Hq, Eq0; reflexivity |].
  exists s0. split; [exact Hs0 |]. split; [exact Htr |].
  rewrite At, Ht, Et0. reflexivity.
Qed.







End QuizMesh.

Section QuizFaceApi.
Variable random : nat -> Q.
Variable toString36 : Q -> string.
Import WordMuncherFaceApi.

Lemma faceapi_visit_bites mouth h w s :
  (Spec.faceapi_bites mouth h w s = true ->
   visit random mouth h w s =
   (None, eat random (FallingWord.set_y (FallingWord.y w + FallingWord.velocity w) w) s))
  /\ (Spec.faceapi_bites mouth h w s = false -> snd (visit random mouth h w s) = s).
Proof.
  unfold Spec.faceapi_bites, visit, JS.gtb, JS.ltb, JS.leb, dist2, JS.pow2.
  cbn [FallingWord.set_y FallingWord.x FallingWord.y].
  destruct (Qle_bool _ _); cbn [negb andb]; [| split; [discriminate | reflexivity]].
  destruct (isMouthOpenRef s); cbn [andb]; [| split; [discriminate | reflexivity]].
  destruct (JS.sqrt_ltb _ _); split; try discriminate; reflexivity.
Qed.


Lemma faceapi_correct_bites_ext mouth h ws a b :
  isMouthOpenRef a = isMouthOpenRef b ->
  Spec.faceapi_correct_bites mouth h ws a = Spec.faceapi_correct_bites mouth h ws b.
Proof.
  intro E. unfold Spec.faceapi_correct_bites, Spec.faceapi_bites. rewrite E. reflexivity.
Qed.





End QuizFaceApi.

Section Flags.
Variable random : nat -> Q.
Variable toString36 : Q -> string.

Lemma mesh_visit_word c h t s t' :
  fst (WordMuncher.visit random c h t s) = Some t' ->
  WordTreat.word t' = WordTreat.word t
  /\ WordTreat.isCorrect t' = WordTreat.isCorrect t.
Proof.
  unfold WordMuncher.visit. destruct (negb _); [discriminate |].
  destruct (JS.gtb _ _); [intro H; injection H as <-; split; reflexivity |].
  destruct (_ && _); intro H; injection H as <-; split; reflexivity.
Qed.

Lemma mesh_treatLoop_members c h ts : forall s t',
  In t' (fst (WordMuncher.treatLoop random c h ts s)) ->
  exists t, In t ts
            /\ WordTreat.word t' = WordTreat.word t
            /\ WordTreat.isCorrect t' = WordTreat.isCorrect t.
Proof.
  induction ts as [| t ts IH]; intros s t'; cbn [WordMuncher.treatLoop].
  - intros [].
  - specialize (IH s).
    destruct (WordMuncher.treatLoop random c h ts s) as [rest s1]. cbn [fst] in *.
    pose proof (mesh_visit_word c h t s1) as Hw.
    destruct (WordMuncher.visit random c h t s1) as [[t1 |] s2]; cbn [fst] in *.
    + intros [<- | Hin].
      * exists t. split; [left; reflexivity | apply Hw; reflexivity].
      * destruct (IH t' Hin) as (t0 & H0 & E). exists t0. split; [right; exact H0 | exact E].
    + intro Hin. destruct (IH t' Hin) as (t0 & H0 & E).
      exists t0. split; [right; exact H0 | exact E].
Qed.

Lemma mesh_flags_agree_step e s s' :
  WordMuncher.step random toString36 e s = Some s' ->
  Spec.mesh_flags_agree s -> Spec.mesh_flags_agree s'.
Proof.
  intros Hstep Hinv. destruct e as [r w h now | |]; cbn [WordMuncher.step] in Hstep.
  - pose proof (mesh_frame_timers random toString36 _ _ _ _ _ _ _ Hstep) as [Eq _].
    apply mesh_onResults_shape in Hstep.
    destruct Hstep as (p & o & n & tr & ts & s2 & _ & Hsp & El & ->).
    unfold Spec.mesh_flags_agree. rewrite Eq.
    replace (WordMuncher.treats _) with ts
      by (unfold WordMuncher.adviceTrigger; destruct (_ >? _)%Z; reflexivity).
    intros t' Hin.
    assert (Hts : ts = fst (WordMuncher.treatLoop random (WordMuncher.currentQuiz s) h tr
                              (WordMuncher.set_draws n
                                 (WordMuncher.set_treats tr
                                    (WordMuncher.set_isMouthOpen o
                                       (WordMuncher.set_mouthPos p s))))))
      by (rewrite El; reflexivity).
    rewrite Hts in Hin. apply mesh_treatLoop_members in Hin.
    destruct Hin as (t & Hin & -> & ->).
    destruct Hsp as [[-> _] | (t0 & -> & _ & _ & _ & Hc & Hw)].
    + apply Hinv. exact Hin.
    + apply in_app_or in Hin. destruct Hin as [Hin | [<- | []]]; [apply Hinv; exact Hin |].
      split; [exact Hc |]. intro E. destruct (WordTreat.isCorrect t0); [reflexivity |].
      exfalso. apply (Hw eq_refl). exact E.
  - destruct (WordMuncher.timeouts s) as [| q rest]; [discriminate |].
    injection Hstep as <-. intros t [].
  - destruct (WordMuncher.requests s); [discriminate |]. injection Hstep as <-.
    exact Hinv.
Qed.

Lemma mesh_flags_agree_reachable s :
  Spec.mesh_reachable random toString36 s -> Spec.mesh_flags_agree s.
Proof.
  intros [es Hrun]. revert Hrun.
  assert (H0 : Spec.mesh_flags_agree WordMuncher.init) by (intros t []).
  revert H0. generalize WordMuncher.init.
  induction es as [| e es IH]; intros s0 H0 Hrun; cbn [WordMuncher.run] in Hrun.
  - injection Hrun as <-. exact H0.
  - destruct (WordMuncher.step random toString36 e s0) as [s1 |] eqn:E; [| discriminate].
    apply (IH s1); [eapply mesh_flags_agree_step; eassumption | exact Hrun].
Qed.





End Flags.



(** * Further properties of the code *)

(** ** Treats in motion, bursts and invariants: shared lemmas *)

Section MeshMotion.
Variable random : nat -> Q.
Variable toString36 : Q -> string.
Import WordMuncher.

Lemma mesh_visit_image c h t s t' :
  fst (visit random c h t s) = Some t' ->
  WordTreat.active t = true
  /\ (t' = Spec.mesh_fall t \/ t' = WordTreat.set_active false (Spec.mesh_fall t))
  /\ (WordTreat.active t' = true -> (WordTreat.y t' <= h + 50)%Q).
Proof.
  unfold visit. destruct (WordTreat.active t) eqn:Ea; cbn [negb fst]; [| discriminate].
  destruct (JS.gtb _ _) eqn:Eg.
  - intro H. injection H as <-. split; [reflexivity |]. split; [right; reflexivity |].
    cbn. discriminate.
  - destruct (isMouthOpen s && _); intro H; injection H as <-.
    + split; [reflexivity |]. split; [right; reflexivity |]. cbn. discriminate.
    + split; [reflexivity |]. split; [left; reflexivity |]. intros _.
      apply ltb_false in Eg. exact Eg.
Qed.

Lemma mesh_treatLoop_image c h ts : forall s t',
  In t' (fst (treatLoop random c h ts s)) ->
  exists t, In t ts
    /\ WordTreat.active t = true
    /\ (t' = Spec.mesh_fall t \/ t' = WordTreat.set_active false (Spec.mesh_fall t))
    /\ (WordTreat.active t' = true -> (WordTreat.y t' <= h + 50)%Q).
Proof.
  induction ts as [| t ts IH]; intros s t' Hin; [destruct Hin |].
  cbn [treatLoop] in Hin. specialize (IH s).
  destruct (treatLoop random c h ts s) as [rest s1]. cbn [fst] in IH.
  pose proof (mesh_visit_image c h t s1) as Hv.
  destruct (visit random c h t s1) as [[u |] s2]; cbn [fst] in Hin, Hv.
  - destruct Hin as [<- | Hin].
    + exists t. split; [left; reflexivity | apply Hv; reflexivity].
    + destruct (IH _ Hin) as (t0 & H0 & Hr). exists t0. split; [right; exact H0 | exact Hr].
  - destruct (IH _ Hin) as (t0 & H0 & Hr). exists t0. split; [right; exact H0 | exact Hr].
Qed.

Lemma mesh_treatLoop_length c h ts : forall s,
  (List.length (fst (treatLoop random c h ts s)) <= List.length ts)%nat.
Proof.
  induction ts as [| t ts IH]; intro s; [apply Nat.le_refl |].
  cbn [treatLoop]. specialize (IH s).
  destruct (treatLoop random c h ts s) as [rest s1]. cbn [fst] in IH.
  destruct (visit random c h t s1) as [[u |] s2]; cbn [fst List.length]; lia.
Qed.

(** Where a spawned treat is put and how fast it falls. *)
Lemma mesh_spawnTreat_geometry w cw s s' :
  spawnTreat random toString36 w cw s = Some s' ->
  exists t n,
    s' = set_draws n (set_treats (treats s ++ [t]) s)
    /\ (draws s + 5 <= n)%nat
    /\ WordTreat.active t = true
    /\ WordTreat.x t = (random (n - 2) * (w - 150) + 75)%Q
    /\ WordTreat.y t = (-50)%Q
    /\ WordTreat.velocity t = (1.5 + random (n - 1) * 2)%Q.
Proof.
  unfold spawnTreat, Math_random. destruct s; cbn -[JS.index JS.ltb filter QUIZ_LIST Qfloor].
  destruct (JS.index types _) as [ty |]; [| discriminate].
  destruct (JS.ltb (random (S draws0)) 0.3) eqn:Ec.
  - intro H. injection H as <-. eexists _, _. split; [reflexivity |].
    cbn. repeat split; lia.
  - destruct (JS.index (filter _ QUIZ_LIST) _) as [q |] eqn:Eq; [| discriminate].
    intro H. injection H as <-. eexists _, _. split; [reflexivity |].
    cbn -[QUIZ_LIST]. repeat split; lia.
Qed.

Lemma mesh_detect_keeps r w h s :
  treats (detect r w h s) = treats s /\ draws (detect r w h s) = draws s.
Proof. destruct (mesh_detect_shape r w h s) as (p & o & ->). split; reflexivity. Qed.

Lemma mesh_frame_parts c r w h now s s' :
  onResults random toString36 c r w h now s = Some s' ->
  exists n tr ts s2,
    (tr = treats s /\ n = S (draws s)
     \/ exists t, tr = treats s ++ [t]
          /\ (draws s + 6 <= n)%nat
          /\ WordTreat.active t = true
          /\ WordTreat.x t = (random (n - 2) * (w - 150) + 75)%Q
          /\ WordTreat.y t = (-50)%Q
          /\ WordTreat.velocity t = (1.5 + random (n - 1) * 2)%Q)
    /\ treatLoop random c h tr (set_draws n (set_treats tr (detect r w h s))) = (ts, s2)
    /\ s' = adviceTrigger c now
              (set_particles (particleLoop 0.02 (particles s2)) (set_treats ts s2)).
Proof.
  unfold onResults. destruct (mesh_detect_keeps r w h s) as [Et Edr].
  remember (detect r w h s) as d eqn:Ed. clear Ed.
  unfold Math_random at 1. cbv beta iota.
  destruct (JS.ltb _ _).
  - destruct (spawnTreat _ _ _ _ _) as [s1 |] eqn:Es; [| discriminate].
    apply mesh_spawnTreat_geometry in Es.
    destruct Es as (t & n & -> & Hn & Ha & Hx & Hy & Hv).
    destruct (treatLoop _ _ _ _ _) as [ts s2] eqn:El.
    intro H. injection H as <-.
    exists n, (treats s ++ [t]), ts, s2. split; [| split].
    + right. exists t. destruct d; cbn in *. subst. repeat split; try assumption; lia.
    + rewrite <- El. destruct d; cbn in *. subst. reflexivity.
    + reflexivity.
  - destruct (treatLoop _ _ _ _ _) as [ts s2] eqn:El.
    intro H. injection H as <-.
    exists (S (draws s)), (treats s), ts, s2. split; [| split].
    + left. split; reflexivity.
    + rewrite <- El. rewrite <- Et, <- Edr. destruct d; reflexivity.
    + reflexivity.
Qed.


(** Every particle of a burst: where it is, how long it lives, which draws
    give its speed and size. *)
Lemma mesh_createParticles_burst (x y : Q) (color : string) (n : nat) : forall s,
  exists ps, List.length ps = n
    /\ createParticles random x y color n s
       = set_draws (draws s + 3 * n) (set_particles (particles s ++ ps) s)
    /\ forall p, In p ps ->
         Particle.x p = x /\ Particle.y p = y /\ Particle.life p = 1%Q
         /\ Particle.color p = color
         /\ exists k, Particle.vx p = ((random k - 0.5) * 10)%Q
                      /\ Particle.vy p = ((random (S k) - 0.5) * 10)%Q
                      /\ Particle.size p = (2 + random (S (S k)) * 4)%Q.
Proof.
  induction n as [| n IH]; intro s.
  - exists []. split; [reflexivity |]. split; [| intros p []].
    destruct s; unfold set_draws, set_particles; cbn.
    rewrite app_nil_r, Nat.add_0_r. reflexivity.
  - rewrite mesh_createParticles_step.
    match goal with |- context [createParticles _ _ _ _ _ ?s1] =>
      destruct (IH s1) as (ps & Hl & He & Hp); rewrite He end.
    eexists (_ :: ps). split; [cbn [List.length]; rewrite Hl; reflexivity |]. split.
    + unfold set_draws, set_particles.
      cbn [treats particles scoreRef mouthPos isMouthOpen lastCaptureTime score
           currentQuiz isAiThinking draws timeouts spoken requests].
      rewrite <- app_assoc. f_equal; [reflexivity | lia].
    + intros p [<- | Hin]; [| apply Hp; exact Hin].
      cbn [Particle.x Particle.y Particle.life Particle.color Particle.vx Particle.vy
           Particle.size].
      repeat split. exists (draws s). repeat split.
Qed.

Lemma mesh_eat_particles c t s :
  exists ps,
    particles (eat random c t s) = particles s ++ ps
    /\ List.length ps = (if WordTreat.isCorrect t then 20 else 10)%nat
    /\ forall p, In p ps -> Particle.life p = 1%Q.
Proof.
  unfold eat. destruct (WordTreat.isCorrect t).
  - match goal with |- context [createParticles _ ?x ?y ?col ?n ?s1] =>
      destruct (mesh_createParticles_burst x y col n s1) as (ps & Hl & He & Hp);
      rewrite He end.
    exists ps. split; [reflexivity |]. split; [exact Hl |]. intros p Hin. apply Hp, Hin.
  - match goal with |- context [createParticles _ ?x ?y ?col ?n ?s1] =>
      destruct (mesh_createParticles_burst x y col n s1) as (ps & Hl & He & Hp);
      rewrite He end.
    exists ps. split; [reflexivity |]. split; [exact Hl |]. intros p Hin. apply Hp, Hin.
Qed.

Lemma mesh_run_inv (P : State -> Prop) :
  (forall e s s', step random toString36 e s = Some s' -> P s -> P s') ->
  forall es s s', run random toString36 es s = Some s' -> P s -> P s'.
Proof.
  intros Hstep es. induction es as [| e es IH]; intros s s' Hrun Hs; cbn [run] in Hrun.
  - injection Hrun as <-. exact Hs.
  - destruct (step random toString36 e s) as [s1 |] eqn:E; [| discriminate].
    eapply IH; [exact Hrun |]. eapply Hstep; eassumption.
Qed.

End MeshMotion.

(** The survivors of one frame of the particle loop. *)
Lemma particleLoop_survivor (step : Q) (ps : list Particle.t) (p : Particle.t) :
  In p (particleLoop step ps) <->
  exists q, In q ps /\ p = Particle.age step q /\ (step < Particle.life q)%Q.
Proof.
  unfold particleLoop. rewrite filter_In, in_map_iff. split.
  - intros [(q & <- & Hq) Hl]. exists q. split; [exact Hq |]. split; [reflexivity |].
    apply negb_true_iff in Hl. unfold JS.leb in Hl.
    destruct (Qlt_le_dec step (Particle.life q)) as [H | H]; [exact H |].
    exfalso. assert (Hle : (Particle.life (Particle.age step q) <= 0)%Q).
    { cbn. lra. }
    apply Qle_bool_iff in Hle. rewrite Hle in Hl. discriminate.
  - intros (q & Hq & -> & Hl). split; [exists q; split; [reflexivity | exact Hq] |].
    apply negb_true_iff. unfold JS.leb.
    destruct (Qle_bool _ _) eqn:E; [| reflexivity].
    apply Qle_bool_iff in E. cbn in E. exfalso. lra.
Qed.

Section MeshInvariants.
Variable random : nat -> Q.
Variable toString36 : Q -> string.
Import WordMuncher.

Lemma mesh_eat_keeps_books c t s :
  score s = scoreRef s /\ (forall p, In p (particles s) -> (Particle.life p <= 1)%Q) ->
  score (eat random c t s) = scoreRef (eat random c t s)
  /\ (forall p, In p (particles (eat random c t s)) -> (Particle.life p <= 1)%Q).
Proof.
  intros [Hs Hp]. split.
  - destruct (mesh_eat_shape random c t s) as [ps ->].
    destruct (WordTreat.isCorrect t); reflexivity.
  - destruct (mesh_eat_particles random c t s) as (ps & -> & _ & Hl).
    intros p Hin. apply in_app_or in Hin. destruct Hin as [Hin | Hin].
    + apply Hp, Hin.
    + rewrite (Hl p Hin). lra.
Qed.

Lemma mesh_books_ok_step e s s' :
  step random toString36 e s = Some s' -> Spec.mesh_books_ok s -> Spec.mesh_books_ok s'.
Proof.
  intros Hstep (Hs & Hp). destruct e as [r w h now | |]; cbn [step] in Hstep.
  - apply mesh_frame_parts in Hstep.
    destruct Hstep as (n & tr & ts & s2 & _ & El & ->).
    pose proof (mesh_treatLoop_inv random
                  (fun s => score s = scoreRef s
                            /\ forall p, In p (particles s) -> (Particle.life p <= 1)%Q)
                  (currentQuiz s) h (mesh_eat_keeps_books (currentQuiz s))) as Hinv.
    match type of El with treatLoop _ _ _ _ ?s1 = _ => specialize (Hinv tr s1) end.
    rewrite El in Hinv. cbn [snd] in Hinv.
    destruct Hinv as [Hs2 Hp2].
    { destruct (mesh_detect_shape r w h s) as (p & o & ->). split; [exact Hs |].
      intros q Hq. apply Hp, Hq. }
    assert (Hok : Spec.mesh_books_ok
                    (set_particles (particleLoop 0.02 (particles s2)) (set_treats ts s2))).
    { split; [exact Hs2 |].
      intros p Hin. cbn [particles set_particles] in Hin.
      apply particleLoop_survivor in Hin. destruct Hin as (q & Hq & -> & Hl).
      specialize (Hp2 q Hq). cbn. lra. }
    unfold adviceTrigger. destruct (_ >? _)%Z; exact Hok.
  - destruct (timeouts s); [discriminate |].
    injection Hstep as <-. split; [exact Hs | exact Hp].
  - destruct (requests s); [discriminate |].
    injection Hstep as <-. split; assumption.
Qed.

Lemma mesh_books_ok_reachable s :
  Spec.mesh_reachable random toString36 s -> Spec.mesh_books_ok s.
Proof.
  intros [es Hrun].
  apply (mesh_run_inv random toString36 Spec.mesh_books_ok mesh_books_ok_step es _ _ Hrun).
  split; [reflexivity | intros x []].
Qed.

Hypothesis draws_in_unit : Spec.unit_draws random.

Lemma mesh_motion_ok_step e s s' :
  step random toString36 e s = Some s' -> Spec.mesh_motion_ok s -> Spec.mesh_motion_ok s'.
Proof.
  intros Hstep Ht. destruct e as [r w h now | |]; cbn [step] in Hstep.
  - apply mesh_frame_parts in Hstep.
    destruct Hstep as (n & tr & ts & s2 & Hsp & El & ->).
    assert (Htr : forall t, In t tr ->
                    (1.5 <= WordTreat.velocity t < 3.5)%Q /\ (-50 <= WordTreat.y t)%Q).
    { destruct Hsp as [[-> _] | (t0 & -> & _ & _ & _ & Hy & Hv)]; [exact Ht |].
      intros u Hin. apply in_app_or in Hin. destruct Hin as [Hin | [<- | []]].
      - apply Ht, Hin.
      - rewrite Hy, Hv. destruct (draws_in_unit (n - 1)) as [H0 H1]. lra. }
    pose proof (mesh_treatLoop_image random (currentQuiz s) h tr) as Him.
    match type of El with treatLoop _ _ _ _ ?s1 = _ => specialize (Him s1) end.
    rewrite El in Him. cbn [fst] in Him.
    assert (Hok : Spec.mesh_motion_ok
                    (set_particles (particleLoop 0.02 (particles s2)) (set_treats ts s2))).
    { intros t' Hin. destruct (Him t' Hin) as (t & Hin0 & _ & Hc & _).
      destruct (Htr t Hin0) as [Hv Hy].
      destruct Hc as [E | E]; rewrite E; cbn; lra. }
    unfold adviceTrigger. destruct (_ >? _)%Z; exact Hok.
  - destruct (timeouts s); [discriminate |].
    injection Hstep as <-. intros u [].
  - destruct (requests s); [discriminate |].
    injection Hstep as <-. exact Ht.
Qed.

Lemma mesh_motion_ok_reachable s :
  Spec.mesh_reachable random toString36 s -> Spec.mesh_motion_ok s.
Proof.
  intros [es Hrun].
  apply (mesh_run_inv random toString36 Spec.mesh_motion_ok mesh_motion_ok_step
           es _ _ Hrun).
  intros x [].
Qed.

End MeshInvariants.

Section MeshScore.
Variable random : nat -> Q.
Variable toString36 : Q -> string.
Import WordMuncher.

Lemma mesh_wrong_bites_ext h ts a b :
  isMouthOpen a = isMouthOpen b -> mouthPos a = mouthPos b ->
  Spec.mesh_wrong_bites h ts a = Spec.mesh_wrong_bites h ts b.
Proof.
  intros E1 E2. unfold Spec.mesh_wrong_bites. f_equal. apply filter_ext.
  intro t. rewrite (mesh_bites_ext h t a b E1 E2). reflexivity.
Qed.

(** The score after the treat loop, from the bites of the tick. *)
Lemma mesh_treatLoop_score c h ts : forall s,
  (0 <= scoreRef s)%Z ->
  let s' := snd (treatLoop random c h ts s) in
  let gained := (100 * Z.of_nat (Spec.mesh_correct_bites h ts s))%Z in
  let lost := (50 * Z.of_nat (Spec.mesh_wrong_bites h ts s))%Z in
  (0 <= scoreRef s')%Z
  /\ (scoreRef s + gained - lost <= scoreRef s' <= scoreRef s + gained)%Z
  /\ isMouthOpen s' = isMouthOpen s
  /\ mouthPos s' = mouthPos s.
Proof.
  induction ts as [| t ts IH]; intros s H0; cbn zeta.
  - cbn. repeat split; lia.
  - cbn [treatLoop]. specialize (IH s H0). cbn zeta in IH.
    destruct (treatLoop random c h ts s) as [rest s1]. cbn [snd] in IH.
    destruct IH as (Hn & Hb & Ho & Hp).
    unfold Spec.mesh_correct_bites, Spec.mesh_wrong_bites in Hb |- *. cbn [filter].
    rewrite <- (mesh_bites_ext h t s1 s Ho Hp).
    destruct (mesh_visit_bites random c h t s1) as [Hy Hno].
    destruct (Spec.mesh_bites h t s1).
    + rewrite (Hy eq_refl). cbn [snd andb].
      destruct (mesh_eat_shape random c
                  (WordTreat.set_y (WordTreat.y t + WordTreat.velocity t) t) s1)
        as [ps ->].
      cbn [WordTreat.set_y WordTreat.isCorrect].
      destruct (WordTreat.isCorrect t);
        cbn [scoreRef isMouthOpen mouthPos List.length negb];
        repeat split; try assumption; lia.
    + specialize (Hno eq_refl).
      destruct (visit random c h t s1) as [t' s2]. cbn [snd] in Hno. subst s2.
      cbn [andb].
      destruct t'; cbn [snd]; repeat split; try assumption; lia.
Qed.

End MeshScore.

Section FaceApiMotion.
Variable random : nat -> Q.
Variable toString36 : Q -> string.
Import WordMuncherFaceApi.

Lemma faceapi_visit_image mouth h w s w' :
  fst (visit random mouth h w s) = Some w' ->
  w' = Spec.faceapi_fall w
  /\ (FallingWord.y w' <= h + 60)%Q
  /\ Spec.faceapi_bites mouth h w s = false.
Proof.
  destruct (faceapi_visit_bites random mouth h w s) as [Hy Hn].
  destruct (Spec.faceapi_bites mouth h w s) eqn:Eb.
  - rewrite (Hy eq_refl). discriminate.
  - clear Hy Hn. unfold visit. destruct (JS.gtb _ _) eqn:Eg; cbn [fst]; [discriminate |].
    destruct (isMouthOpenRef s && _); cbn [fst]; [discriminate |].
    intro H. injection H as <-. split; [reflexivity |]. split; [| reflexivity].
    apply ltb_false in Eg. exact Eg.
Qed.

Lemma faceapi_wordLoop_image mouth h ws : forall s w',
  In w' (fst (wordLoop random mouth h ws s)) ->
  exists w, In w ws /\ w' = Spec.faceapi_fall w /\ (FallingWord.y w' <= h + 60)%Q.
Proof.
  induction ws as [| w ws IH]; intros s w' Hin; [destruct Hin |].
  cbn [wordLoop] in Hin. specialize (IH s).
  destruct (wordLoop random mouth h ws s) as [rest s1]. cbn [fst] in IH.
  pose proof (faceapi_visit_image mouth h w s1) as Hv.
  destruct (visit random mouth h w s1) as [[u |] s2]; cbn [fst] in Hin, Hv.
  - destruct Hin as [<- | Hin].
    + exists w. split; [left; reflexivity |].
      destruct (Hv u eq_refl) as (E & Hy & _). split; assumption.
    + destruct (IH _ Hin) as (w0 & H0 & Hr). exists w0. split; [right; exact H0 | exact Hr].
  - destruct (IH _ Hin) as (w0 & H0 & Hr). exists w0. split; [right; exact H0 | exact Hr].
Qed.

Lemma faceapi_wordLoop_length mouth h ws : forall s,
  (List.length (fst (wordLoop random mouth h ws s)) <= List.length ws)%nat.
Proof.
  induction ws as [| w ws IH]; intro s; [apply Nat.le_refl |].
  cbn [wordLoop]. specialize (IH s).
  destruct (wordLoop random mouth h ws s) as [rest s1]. cbn [fst] in IH.
  destruct (visit random mouth h w s1) as [[u |] s2]; cbn [fst List.length]; lia.
Qed.

(** Where a spawned word is put and how fast it falls. *)
Lemma faceapi_spawnWord_geometry w s s' :
  spawnWord random toString36 w s = Some s' ->
  exists t n,
    s' = set_draws n (set_wordsRef (wordsRef s ++ [t]) s)
    /\ (draws s + 5 <= n)%nat
    /\ FallingWord.x t = (100 + random (n - 2) * (w - 200))%Q
    /\ FallingWord.y t = (-60)%Q
    /\ FallingWord.velocity t = (2 + random (n - 1) * 2)%Q
    /\ FallingWord.emoji t
       = option_map TREAT_EMOJIS
           (JS.index TREAT_TYPES (Qfloor (random (draws s) * JS.len TREAT_TYPES))).
Proof.
  unfold spawnWord, Math_random.
  destruct s; cbn -[JS.index JS.ltb otherWord QUIZ_LIST Qfloor TREAT_TYPES JS.len].
  destruct (JS.index QUIZ_LIST quizIndexRef0) as [quiz |]; [| discriminate].
  destruct (JS.ltb (random (S draws0)) 0.35) eqn:Ec.
  - intro H. injection H as <-. eexists _, _. split; [reflexivity |].
    cbn -[JS.index Qfloor TREAT_TYPES JS.len]. repeat split; lia.
  - destruct (otherWord quiz _) as [ow |] eqn:Eo; [| discriminate].
    intro H. injection H as <-. eexists _, _. split; [reflexivity |].
    cbn -[JS.index Qfloor TREAT_TYPES JS.len QUIZ_LIST]. repeat split; lia.
Qed.

Lemma faceapi_frame_parts w h now s s' :
  runningRef s = true ->
  gameLoop random toString36 w h now s = Some s' ->
  exists l n tr ws s2,
    (tr = wordsRef s /\ n = draws s /\ l = lastSpawnRef s
       /\ (now - lastSpawnRef s <= 1500)%Z
     \/ exists t, tr = wordsRef s ++ [t]
          /\ l = now /\ (1500 < now - lastSpawnRef s)%Z
          /\ (draws s + 5 <= n)%nat
          /\ FallingWord.x t = (100 + random (n - 2) * (w - 200))%Q
          /\ FallingWord.y t = (-60)%Q
          /\ FallingWord.velocity t = (2 + random (n - 1) * 2)%Q
          /\ FallingWord.emoji t
             = option_map TREAT_EMOJIS
                 (JS.index TREAT_TYPES (Qfloor (random (draws s) * JS.len TREAT_TYPES))))
    /\ wordLoop random (mouthPosRef s) h tr
         (set_draws n (set_wordsRef tr (set_lastSpawnRef l s))) = (ws, s2)
    /\ s' = set_particlesRef (particleLoop 0.025 (particlesRef s2)) (set_wordsRef ws s2).
Proof.
  intro Hr. unfold gameLoop. rewrite Hr. cbn [negb].
  destruct (now - lastSpawnRef s >? 1500)%Z eqn:Et.
  - destruct (spawnWord _ _ _ _) as [s1 |] eqn:Es; [| discriminate].
    apply faceapi_spawnWord_geometry in Es.
    destruct Es as (t & n & -> & Hn & Hx & Hy & Hv & He).
    destruct (wordLoop _ _ _ _ _) as [ws s2] eqn:El.
    intro H. injection H as <-.
    exists now, n, (wordsRef s ++ [t]), ws, s2. split; [| split].
    + right. exists t. rewrite Z.gtb_ltb in Et. apply Z.ltb_lt in Et.
      destruct s; cbn -[JS.index Qfloor TREAT_TYPES JS.len] in *.
      repeat split; assumption.
    + destruct s; exact El.
    + reflexivity.
  - destruct (wordLoop _ _ _ _ _) as [ws s2] eqn:El.
    intro H. injection H as <-.
    exists (lastSpawnRef s), (draws s), (wordsRef s), ws, s2. split; [| split].
    + left. rewrite Z.gtb_ltb in Et. apply Z.ltb_ge in Et. repeat split. exact Et.
    + destruct s; exact El.
    + reflexivity.
Qed.

Lemma faceapi_createParticlesLoop_burst (x y : Q) (color : string) (n : nat) : forall s,
  exists ps, List.length ps = n
    /\ createParticlesLoop random n x y color s
       = set_draws (draws s + 3 * n) (set_particlesRef (particlesRef s ++ ps) s)
    /\ forall p, In p ps ->
         Particle.x p = x /\ Particle.y p = y /\ Particle.life p = 1%Q
         /\ Particle.color p = color
         /\ exists k, Particle.vx p = ((random k - 0.5) * 12)%Q
                      /\ Particle.vy p = ((random (S k) - 0.5) * 12)%Q
                      /\ Particle.size p = (3 + random (S (S k)) * 5)%Q.
Proof.
  induction n as [| n IH]; intro s.
  - exists []. split; [reflexivity |]. split; [| intros p []].
    destruct s; unfold set_draws, set_particlesRef; cbn.
    rewrite app_nil_r, Nat.add_0_r. reflexivity.
  - rewrite faceapi_createParticlesLoop_step.
    match goal with |- context [createParticlesLoop _ _ _ _ _ ?s1] =>
      destruct (IH s1) as (ps & Hl & He & Hp); rewrite He end.
    eexists (_ :: ps). split; [cbn [List.length]; rewrite Hl; reflexivity |]. split.
    + unfold set_draws, set_particlesRef.
      cbn [wordsRef particlesRef mouthPosRef isMouthOpenRef scoreRef lastSpawnRef
           quizIndexRef runningRef score quizIndex mouthOpen faceDetected draws timeouts].
      rewrite <- app_assoc. f_equal; [reflexivity | lia].
    + intros p [<- | Hin]; [| apply Hp; exact Hin].
      cbn [Particle.x Particle.y Particle.life Particle.color Particle.vx Particle.vy
           Particle.size].
      repeat split. exists (draws s). repeat split.
Qed.

Lemma faceapi_eat_particles w s :
  exists ps,
    particlesRef (eat random w s) = particlesRef s ++ ps
    /\ List.length ps = 15%nat
    /\ forall p, In p ps -> Particle.life p = 1%Q.
Proof.
  unfold eat, createParticles. destruct (FallingWord.isCorrect w).
  - match goal with |- context [createParticlesLoop _ ?n ?x ?y ?col ?s1] =>
      destruct (faceapi_createParticlesLoop_burst x y col n s1) as (ps & Hl & He & Hp);
      rewrite He end.
    exists ps. split; [reflexivity |]. split; [exact Hl |]. intros p Hin. apply Hp, Hin.
  - match goal with |- context [createParticlesLoop _ ?n ?x ?y ?col ?s1] =>
      destruct (faceapi_createParticlesLoop_burst x y col n s1) as (ps & Hl & He & Hp);
      rewrite He end.
    exists ps. split; [reflexivity |]. split; [exact Hl |]. intros p Hin. apply Hp, Hin.
Qed.

Lemma faceapi_run_inv (P : State -> Prop) :
  (forall e s s', step random toString36 e s = Some s' -> P s -> P s') ->
  forall es s s', run random toString36 es s = Some s' -> P s -> P s'.
Proof.
  intros Hstep es. induction es as [| e es IH]; intros s s' Hrun Hs; cbn [run] in Hrun.
  - injection Hrun as <-. exact Hs.
  - destruct (step random toString36 e s) as [s1 |] eqn:E; [| discriminate].
    eapply IH; [exact Hrun |]. eapply Hstep; eassumption.
Qed.

End FaceApiMotion.

Section FaceApiInvariants.
Variable random : nat -> Q.
Variable toString36 : Q -> string.
Import WordMuncherFaceApi.

Lemma faceapi_eat_keeps_books i w s :
  (score s = scoreRef s /\ quizIndex s = i /\ quizIndexRef s = i
   /\ forall p, In p (particlesRef s) -> (Particle.life p <= 1)%Q) ->
  score (eat random w s) = scoreRef (eat random w s)
  /\ quizIndex (eat random w s) = i /\ quizIndexRef (eat random w s) = i
  /\ forall p, In p (particlesRef (eat random w s)) -> (Particle.life p <= 1)%Q.
Proof.
  intros (Hs & Hq & Hr & Hp). split; [| split; [| split]].
  - destruct (faceapi_eat_shape random w s) as [ps ->].
    destruct (FallingWord.isCorrect w); reflexivity.
  - destruct (faceapi_eat_shape random w s) as [ps ->].
    destruct (FallingWord.isCorrect w); exact Hq.
  - destruct (faceapi_eat_shape random w s) as [ps ->].
    destruct (FallingWord.isCorrect w); exact Hr.
  - destruct (faceapi_eat_particles random w s) as (ps & -> & _ & Hl).
    intros p Hin. apply in_app_or in Hin. destruct Hin as [Hin | Hin].
    + apply Hp, Hin.
    + rewrite (Hl p Hin). lra.
Qed.

Lemma faceapi_books_ok_step e s s' :
  step random toString36 e s = Some s' ->
  Spec.faceapi_books_ok s -> Spec.faceapi_books_ok s'.
Proof.
  intros Hstep (Hs & Hq & Hi & Hp).
  destruct e as [w h now | rs d cw ch vw vh |]; cbn [step] in Hstep.
  - destruct (runningRef s) eqn:Hr.
    2:{ unfold gameLoop in Hstep. rewrite Hr in Hstep. cbn [negb] in Hstep.
        injection Hstep as <-. split; [exact Hs |]. split; [exact Hq |].
        split; [exact Hi | exact Hp]. }
    apply (faceapi_frame_parts random toString36 w h now s s' Hr) in Hstep.
    destruct Hstep as (l & n & tr & ws & s2 & _ & El & ->).
    pose proof (faceapi_wordLoop_inv random
                  (fun s0 => score s0 = scoreRef s0 /\ quizIndex s0 = quizIndexRef s
                             /\ quizIndexRef s0 = quizIndexRef s
                             /\ forall p, In p (particlesRef s0) -> (Particle.life p <= 1)%Q)
                  (mouthPosRef s) h (faceapi_eat_keeps_books (quizIndexRef s))) as Hinv.
    match type of El with wordLoop _ _ _ _ ?s1 = _ => specialize (Hinv tr s1) end.
    rewrite El in Hinv. cbn [snd] in Hinv.
    destruct Hinv as (Hs2 & Hq2 & Hr2 & Hp2).
    { cbn. repeat split; try assumption. intros q Hin. apply Hp, Hin. }
    split; [exact Hs2 |]. split; [cbn; congruence |]. split; [cbn; rewrite Hr2; exact Hi |].
    intros p Hin. cbn [particlesRef set_particlesRef] in Hin.
    apply particleLoop_survivor in Hin. destruct Hin as (q & Hq0 & -> & Hl).
    specialize (Hp2 q Hq0). cbn. lra.
  - injection Hstep as <-. unfold detectFace.
    destruct (negb (runningRef s) || (rs <? 2)%Z).
    + split; [exact Hs |]. split; [exact Hq |]. split; [exact Hi | exact Hp].
    + destruct d as [d |]; (split; [exact Hs |]; split; [exact Hq |];
        split; [exact Hi | exact Hp]).
  - destruct (timeouts s) as [| k]; [discriminate |].
    injection Hstep as <-. unfold advanceQuiz. cbn -[Z.rem].
    assert (Hm : (0 <= Z.rem (quizIndexRef s + 1) 8 < 8)%Z) by (apply Z.rem_bound_pos; lia).
    split; [exact Hs |]. split; [reflexivity |]. split; [exact Hm | exact Hp].
Qed.

Lemma faceapi_books_ok_reachable s :
  Spec.faceapi_reachable random toString36 s -> Spec.faceapi_books_ok s.
Proof.
  intros [es Hrun].
  apply (faceapi_run_inv random toString36 Spec.faceapi_books_ok faceapi_books_ok_step
           es _ _ Hrun).
  split; [reflexivity |]. split; [reflexivity |]. split; [cbn; lia | intros x []].
Qed.

Hypothesis draws_in_unit : Spec.unit_draws random.

Lemma faceapi_motion_ok_step e s s' :
  step random toString36 e s = Some s' ->
  Spec.faceapi_motion_ok s -> Spec.faceapi_motion_ok s'.
Proof.
  intros Hstep Hw.
  destruct e as [w h now | rs d cw ch vw vh |]; cbn [step] in Hstep.
  - destruct (runningRef s) eqn:Hr.
    2:{ unfold gameLoop in Hstep. rewrite Hr in Hstep. cbn [negb] in Hstep.
        injection Hstep as <-. exact Hw. }
    apply (faceapi_frame_parts random toString36 w h now s s' Hr) in Hstep.
    destruct Hstep as (l & n & tr & ws & s2 & Hsp & El & ->).
    assert (Htr : forall u, In u tr ->
                    (2 <= FallingWord.velocity u < 4)%Q /\ (-60 <= FallingWord.y u)%Q).
    { destruct Hsp as [(-> & _) | (t0 & -> & _ & _ & _ & _ & Hy & Hv & _)]; [exact Hw |].
      intros u Hin. apply in_app_or in Hin. destruct Hin as [Hin | [<- | []]].
      - apply Hw, Hin.
      - rewrite Hy, Hv. destruct (draws_in_unit (n - 1)) as [H0 H1]. lra. }
    pose proof (faceapi_wordLoop_image random (mouthPosRef s) h tr) as Him.
    match type of El with wordLoop _ _ _ _ ?s1 = _ => specialize (Him s1) end.
    rewrite El in Him. cbn [fst] in Him.
    intros w' Hin. destruct (Him w' Hin) as (u & Hin0 & E & _).
    destruct (Htr u Hin0) as [Hv Hy]. rewrite E. cbn. lra.
  - injection Hstep as <-. unfold detectFace.
    destruct (negb (runningRef s) || (rs <? 2)%Z); [exact Hw |].
    destruct d as [d |]; exact Hw.
  - destruct (timeouts s) as [| k]; [discriminate |].
    injection Hstep as <-. intros u [].
Qed.

Lemma faceapi_motion_ok_reachable s :
  Spec.faceapi_reachable random toString36 s -> Spec.faceapi_motion_ok s.
Proof.
  intros [es Hrun].
  apply (faceapi_run_inv random toString36 Spec.faceapi_motion_ok faceapi_motion_ok_step
           es _ _ Hrun).
  intros x [].
Qed.

End FaceApiInvariants.

Section FaceApiScore.
Variable random : nat -> Q.
Variable toString36 : Q -> string.
Import WordMuncherFaceApi.

Lemma faceapi_bites_ext mouth h w a b :
  isMouthOpenRef a = isMouthOpenRef b ->
  Spec.faceapi_bites mouth h w a = Spec.faceapi_bites mouth h w b.
Proof. intro E. unfold Spec.faceapi_bites. rewrite E. reflexivity. Qed.

Lemma faceapi_wrong_bites_ext mouth h ws a b :
  isMouthOpenRef a = isMouthOpenRef b ->
  Spec.faceapi_wrong_bites mouth h ws a = Spec.faceapi_wrong_bites mouth h ws b.
Proof.
  intro E. unfold Spec.faceapi_wrong_bites. f_equal. apply filter_ext.
  intro w. rewrite (faceapi_bites_ext mouth h w a b E). reflexivity.
Qed.

Lemma faceapi_wordLoop_score mouth h ws : forall s,
  (0 <= scoreRef s)%Z ->
  let s' := snd (wordLoop random mouth h ws s) in
  let gained := (100 * Z.of_nat (Spec.faceapi_correct_bites mouth h ws s))%Z in
  let lost := (50 * Z.of_nat (Spec.faceapi_wrong_bites mouth h ws s))%Z in
  (0 <= scoreRef s')%Z
  /\ (scoreRef s + gained - lost <= scoreRef s' <= scoreRef s + gained)%Z
  /\ isMouthOpenRef s' = isMouthOpenRef s.
Proof.
  induction ws as [| w ws IH]; intros s H0; cbn zeta.
  - cbn. repeat split; lia.
  - cbn [wordLoop]. specialize (IH s H0). cbn zeta in IH.
    destruct (wordLoop random mouth h ws s) as [rest s1]. cbn [snd] in IH.
    destruct IH as (Hn & Hb & Ho).
    unfold Spec.faceapi_correct_bites, Spec.faceapi_wrong_bites in Hb |- *. cbn [filter].
    rewrite <- (faceapi_bites_ext mouth h w s1 s Ho).
    destruct (faceapi_visit_bites random mouth h w s1) as [Hy Hno].
    destruct (Spec.faceapi_bites mouth h w s1).
    + rewrite (Hy eq_refl). cbn [snd andb].
      destruct (faceapi_eat_shape random
                  (FallingWord.set_y (FallingWord.y w + FallingWord.velocity w) w) s1)
        as [ps ->].
      cbn [FallingWord.set_y FallingWord.isCorrect].
      destruct (FallingWord.isCorrect w);
        cbn [scoreRef isMouthOpenRef List.length negb];
        repeat split; try assumption; lia.
    + specialize (Hno eq_refl).
      destruct (visit random mouth h w s1) as [w' s2]. cbn [snd] in Hno. subst s2.
      cbn [andb].
      destruct w'; cbn [snd]; repeat split; try assumption; lia.
Qed.

Lemma faceapi_gameLoop_total w h now s :
  Spec.unit_draws random -> (0 <= quizIndexRef s < 8)%Z ->
  exists s', gameLoop random toString36 w h now s = Some s'.
Proof.
  intros Hu Hi. unfold gameLoop. destruct (negb (runningRef s)); [eexists; reflexivity |].
  destruct (now - lastSpawnRef s >? 1500)%Z.
  - destruct (faceapi_spawnWord_total random toString36 w (set_lastSpawnRef now s) Hu)
      as [s1 ->].
    { destruct s; exact Hi. }
    destruct (wordLoop _ _ _ _ _). eexists; reflexivity.
  - destruct (wordLoop _ _ _ _ _). eexists; reflexivity.
Qed.

End FaceApiScore.

Section CakeMotion.
Variable random : nat -> Q.
Variable toString36 : Q -> string.
Import CakeMuncher.

Lemma cake_visit_bites c h t s :
  (Spec.cake_bites h t s = true ->
   visit random c h t s
   = (Some (Treat.set_active false (Spec.cake_fall t)), eat random c (Spec.cake_fall t) s))
  /\ (Spec.cake_bites h t s = false -> snd (visit random c h t s) = s).
Proof.
  unfold Spec.cake_bites, Spec.cake_fall, visit, JS.gtb, JS.ltb, JS.leb, dToMouth2.
  cbn [Treat.set_y Treat.x Treat.y].
  destruct (Treat.active t); cbn [negb andb]; [| split; [discriminate | reflexivity]].
  destruct (Qle_bool _ _); cbn [negb andb]; [| split; [discriminate | reflexivity]].
  destruct (isMouthOpen s); cbn [andb]; [| split; [discriminate | reflexivity]].
  destruct (JS.sqrt_ltb _ _); split; try discriminate; reflexivity.
Qed.

Lemma cake_visit_image c h t s t' :
  fst (visit random c h t s) = Some t' ->
  Treat.active t = true
  /\ (t' = Spec.cake_fall t \/ t' = Treat.set_active false (Spec.cake_fall t))
  /\ (Treat.active t' = true -> (Treat.y t' <= h + 50)%Q).
Proof.
  unfold visit. destruct (Treat.active t) eqn:Ea; cbn [negb fst]; [| discriminate].
  destruct (JS.gtb _ _) eqn:Eg.
  - intro H. injection H as <-. split; [reflexivity |]. split; [right; reflexivity |].
    cbn. discriminate.
  - destruct (isMouthOpen s && _); intro H; injection H as <-.
    + split; [reflexivity |]. split; [right; reflexivity |]. cbn. discriminate.
    + split; [reflexivity |]. split; [left; reflexivity |]. intros _.
      apply ltb_false in Eg. exact Eg.
Qed.

Lemma cake_treatLoop_image c h ts : forall s t',
  In t' (fst (treatLoop random c h ts s)) ->
  exists t, In t ts
    /\ Treat.active t = true
    /\ (t' = Spec.cake_fall t \/ t' = Treat.set_active false (Spec.cake_fall t))
    /\ (Treat.active t' = true -> (Treat.y t' <= h + 50)%Q).
Proof.
  induction ts as [| t ts IH]; intros s t' Hin; [destruct Hin |].
  cbn [treatLoop] in Hin. specialize (IH s).
  destruct (treatLoop random c h ts s) as [rest s1]. cbn [fst] in IH.
  pose proof (cake_visit_image c h t s1) as Hv.
  destruct (visit random c h t s1) as [[u |] s2]; cbn [fst] in Hin, Hv.
  - destruct Hin as [<- | Hin].
    + exists t. split; [left; reflexivity | apply Hv; reflexivity].
    + destruct (IH _ Hin) as (t0 & H0 & Hr). exists t0. split; [right; exact H0 | exact Hr].
  - destruct (IH _ Hin) as (t0 & H0 & Hr). exists t0. split; [right; exact H0 | exact Hr].
Qed.

Lemma cake_treatLoop_length c h ts : forall s,
  (List.length (fst (treatLoop random c h ts s)) <= List.length ts)%nat.
Proof.
  induction ts as [| t ts IH]; intro s; [apply Nat.le_refl |].
  cbn [treatLoop]. specialize (IH s).
  destruct (treatLoop random c h ts s) as [rest s1]. cbn [fst] in IH.
  destruct (visit random c h t s1) as [[u |] s2]; cbn [fst List.length]; lia.
Qed.

(** What a spawned treat of the point variant is. *)
Lemma cake_spawnTreat_geometry w s :
  exists t,
    spawnTreat random toString36 w s
    = set_draws (draws s + 4) (set_treats (treats s ++ [t]) s)
    /\ Treat.active t = true
    /\ Treat.x t = (random (draws s + 2) * (w - 100) + 50)%Q
    /\ Treat.y t = (-50)%Q
    /\ Treat.velocity t = (2 + random (draws s + 3) * 3)%Q
    /\ Treat.type t = weightLoop (List.length weights) 0 (random (draws s) * 100)%Q 0 cupcake
    /\ Treat.points t = points_of (Treat.type t)
    /\ Treat.emoji t = emoji_of (Treat.type t)
    /\ Treat.scale t = 1%Q.
Proof.
  unfold spawnTreat, Math_random. destruct s.
  cbn -[weightLoop JS.substr points_of emoji_of].
  eexists. split.
  - unfold set_draws, set_treats.
    cbn -[weightLoop JS.substr points_of emoji_of]. f_equal; try reflexivity; lia.
  - cbn -[weightLoop points_of emoji_of].
    replace (draws0 + 2)%nat with (S (S draws0)) by lia.
    replace (draws0 + 3)%nat with (S (S (S draws0))) by lia.
    repeat split.
Qed.

Lemma cake_detect_shape results w h s :
  exists p o, detect results w h s = set_isMouthOpen o (set_mouthPos p s).
Proof.
  unfold detect. destruct (Results.multiFaceLandmarks results) as [[| lm faces] |].
  - exists (mouthPos s), (isMouthOpen s). destruct s; reflexivity.
  - eexists _, _. reflexivity.
  - exists (mouthPos s), (isMouthOpen s). destruct s; reflexivity.
Qed.

(** The score after the treat loop: every bite adds the treat's points times
    the multiplier. *)
Lemma cake_treatLoop_score c h ts : forall s,
  let s' := snd (treatLoop random c h ts s) in
  scoreRef s' = (scoreRef s + Spec.cake_gain h ts s * multiplier c)%Z
  /\ isMouthOpen s' = isMouthOpen s
  /\ mouthPos s' = mouthPos s
  /\ lastCaptureTime s' = lastCaptureTime s
  /\ requests s' = requests s
  /\ isAiThinking s' = isAiThinking s.
Proof.
  induction ts as [| t ts IH]; intro s; cbn zeta.
  - cbn. repeat split; lia.
  - cbn [treatLoop]. specialize (IH s). cbn zeta in IH.
    destruct (treatLoop random c h ts s) as [rest s1]. cbn [snd] in IH.
    destruct IH as (Hb & Ho & Hp & Hl & Hr & Ha).
    unfold Spec.cake_gain in Hb |- *. cbn [filter].
    assert (Eb : Spec.cake_bites h t s1 = Spec.cake_bites h t s).
    { unfold Spec.cake_bites. rewrite Ho, Hp. reflexivity. }
    rewrite <- Eb.
    destruct (cake_visit_bites c h t s1) as [Hy Hno].
    destruct (Spec.cake_bites h t s1).
    + rewrite (Hy eq_refl). cbn [snd].
      destruct (cake_eat_shape random c (Spec.cake_fall t) s1) as [ps ->].
      cbn [scoreRef isMouthOpen mouthPos lastCaptureTime requests isAiThinking
           map fold_right].
      unfold Spec.cake_fall. cbn [Treat.set_y Treat.points].
      repeat split; try assumption. lia.
    + specialize (Hno eq_refl).
      destruct (visit random c h t s1) as [t' s2]. cbn [snd] in Hno. subst s2.
      destruct t'; cbn [snd]; repeat split; assumption.
Qed.

Lemma cake_frame_parts c r cw ch now s :
  let w := if Qeq_bool cw 0 then 800%Q else cw in
  let h := if Qeq_bool ch 0 then 600%Q else ch in
  exists n tr ts s2,
    (tr = treats s /\ n = S (draws s)
     \/ exists t, tr = treats s ++ [t]
          /\ n = (draws s + 5)%nat
          /\ Treat.active t = true
          /\ Treat.x t = (random (draws s + 3) * (w - 100) + 50)%Q
          /\ Treat.y t = (-50)%Q
          /\ Treat.velocity t = (2 + random (draws s + 4) * 3)%Q
          /\ Treat.points t = points_of (Treat.type t))
    /\ treatLoop random c h tr (set_draws n (set_treats tr (detect r w h s))) = (ts, s2)
    /\ onResults random toString36 c r cw ch now s
       = aiTrigger c now (set_particles (particleLoop 0.02 (particles s2)) (set_treats ts s2)).
Proof.
  intros w h. unfold onResults. fold w. fold h.
  assert (Hk : treats (detect r w h s) = treats s /\ draws (detect r w h s) = draws s).
  { destruct (cake_detect_shape r w h s) as (p & o & ->). split; reflexivity. }
  destruct Hk as [Et Edr].
  remember (detect r w h s) as d eqn:Ed. clear Ed.
  unfold Math_random at 1. cbv beta iota.
  destruct (JS.ltb _ _).
  - destruct (cake_spawnTreat_geometry w (set_draws (S (draws d)) d))
      as (t & -> & Ha & Hx & Hy & Hv & _ & Hpt & _).
    destruct (treatLoop _ _ _ _ _) as [ts s2] eqn:El.
    exists (draws s + 5)%nat, (treats s ++ [t]), ts, s2. split; [| split].
    + right. exists t. destruct d; cbn in *. subst.
      replace (draws s + 3)%nat with (S (draws s) + 2)%nat by lia.
      replace (draws s + 4)%nat with (S (draws s) + 3)%nat by lia.
      repeat split; assumption.
    + rewrite <- El. destruct d; cbn in *. subst.
      unfold set_draws, set_treats. cbn. f_equal. f_equal. lia.
    + reflexivity.
  - destruct (treatLoop _ _ _ _ _) as [ts s2] eqn:El.
    exists (S (draws s)), (treats s), ts, s2. split; [| split].
    + left. split; reflexivity.
    + rewrite <- El. rewrite <- Et, <- Edr. destruct d; reflexivity.
    + reflexivity.
Qed.

Lemma cake_createCrumbsLoop_burst (x y : Q) (color : string) (n : nat) : forall s,
  exists ps, List.length ps = n
    /\ createCrumbsLoop random n x y color s
       = set_draws (draws s + 3 * n) (set_particles (particles s ++ ps) s)
    /\ forall p, In p ps ->
         Particle.x p = x /\ Particle.y p = y /\ Particle.life p = 1%Q
         /\ Particle.color p = color
         /\ exists k, Particle.vx p = ((random k - 0.5) * 10)%Q
                      /\ Particle.vy p = ((random (S k) - 0.5) * 10)%Q
                      /\ Particle.size p = (3 + random (S (S k)) * 5)%Q.
Proof.
  induction n as [| n IH]; intro s.
  - exists []. split; [reflexivity |]. split; [| intros p []].
    destruct s; unfold set_draws, set_particles; cbn.
    rewrite app_nil_r, Nat.add_0_r. reflexivity.
  - rewrite cake_createCrumbsLoop_step.
    match goal with |- context [createCrumbsLoop _ _ _ _ _ ?s1] =>
      destruct (IH s1) as (ps & Hl & He & Hp); rewrite He end.
    eexists (_ :: ps). split; [cbn [List.length]; rewrite Hl; reflexivity |]. split.
    + unfold set_draws, set_particles.
      cbn [treats particles scoreRef mouthPos isMouthOpen lastCaptureTime score
           isAiThinking draws requests].
      rewrite <- app_assoc. f_equal; [reflexivity | lia].
    + intros p [<- | Hin]; [| apply Hp; exact Hin].
      cbn [Particle.x Particle.y Particle.life Particle.color Particle.vx Particle.vy
           Particle.size].
      repeat split. exists (draws s). repeat split.
Qed.

(** A frame is the start of the loop (detection and the spawn decision)
    followed by the treat loop over the store as the start left it. *)
Lemma cake_frame_from_start c r cw ch now s :
  let h := if Qeq_bool ch 0 then 600%Q else ch in
  let s0 := Spec.cake_loop_start random toString36 r cw ch s in
  exists ts s2,
    treatLoop random c h (treats s0) s0 = (ts, s2)
    /\ onResults random toString36 c r cw ch now s
       = aiTrigger c now (set_particles (particleLoop 0.02 (particles s2)) (set_treats ts s2)).
Proof.
  cbv zeta. unfold onResults, Spec.cake_loop_start.
  destruct (Math_random random (detect r _ _ s)) as [x d].
  destruct (JS.ltb x 0.02).
  - destruct (treatLoop _ _ _ _ _) as [ts s2] eqn:El. exists ts, s2. split; reflexivity.
  - destruct (treatLoop _ _ _ _ _) as [ts s2] eqn:El. exists ts, s2. split; reflexivity.
Qed.

Lemma cake_loop_start_fields r cw ch s :
  let w := if Qeq_bool cw 0 then 800%Q else cw in
  let h := if Qeq_bool ch 0 then 600%Q else ch in
  let s0 := Spec.cake_loop_start random toString36 r cw ch s in
  isMouthOpen s0 = isMouthOpen (detect r w h s)
  /\ mouthPos s0 = mouthPos (detect r w h s)
  /\ scoreRef s0 = scoreRef s
  /\ (treats s0 = treats s \/ exists t, treats s0 = treats s ++ [t]).
Proof.
  cbv zeta. unfold Spec.cake_loop_start.
  match goal with |- context [detect r ?w0 ?h0 s] =>
    destruct (cake_detect_shape r w0 h0 s) as (p & o & ->) end.
  unfold Math_random. cbv beta iota.
  destruct (JS.ltb (random _) 0.02).
  - match goal with |- context [spawnTreat _ _ ?w0 ?s1] =>
      destruct (cake_spawnTreat_geometry w0 s1) as (t & -> & _) end.
    cbn. repeat split. right. exists t. reflexivity.
  - cbn. repeat split. left. reflexivity.
Qed.

(** The treat a spawning start appends is the spawner's. *)
Lemma cake_loop_start_spawn r cw ch s :
  let s0 := Spec.cake_loop_start random toString36 r cw ch s in
  treats s0 = treats s
  \/ exists t, treats s0 = treats s ++ [t]
       /\ Treat.active t = true
       /\ Treat.points t = points_of (Treat.type t).
Proof.
  cbv zeta. unfold Spec.cake_loop_start.
  match goal with |- context [detect r ?w0 ?h0 s] =>
    destruct (cake_detect_shape r w0 h0 s) as (p & o & ->) end.
  unfold Math_random. cbv beta iota.
  destruct (JS.ltb (random _) 0.02).
  - match goal with |- context [spawnTreat _ _ ?w0 ?s1] =>
      destruct (cake_spawnTreat_geometry w0 s1) as (t & -> & Ha & _ & _ & _ & _ & Hp & _) end.
    right. exists t. cbn. repeat split; assumption.
  - left. reflexivity.
Qed.

End CakeMotion.

(** ** Frame physics *)

(** X1 (frame physics of the FaceMesh word game).  After a frame every treat
    in the store is a treat that was active before the frame, or the one
    spawned at [y = -50] on this frame, moved down by exactly its velocity
    and otherwise unchanged, except that it may have been flagged inactive.
    The treats that are still active are no lower than the canvas height plus
    50, and the store has grown by at most one entry. *)
Theorem mesh_frame_moves_every_treat :
  forall (random : nat -> Q) (toString36 : Q -> string) c r w h now s s',
    WordMuncher.onResults random toString36 c r w h now s = Some s' ->
    (List.length (WordMuncher.treats s') <= S (List.length (WordMuncher.treats s)))%nat
    /\ forall t', In t' (WordMuncher.treats s') ->
         exists t,
           (In t (WordMuncher.treats s) \/ WordTreat.y t = (-50)%Q)
           /\ WordTreat.active t = true
           /\ (t' = Spec.mesh_fall t \/ t' = WordTreat.set_active false (Spec.mesh_fall t))
           /\ (WordTreat.active t' = true -> (WordTreat.y t' <= h + 50)%Q).
Proof.
  intros random toString36 c r w h now s s' H.
  apply mesh_frame_parts in H. destruct H as (n & tr & ts & s2 & Hsp & El & ->).
  assert (Et : WordMuncher.treats
                 (WordMuncher.adviceTrigger c now
                    (WordMuncher.set_particles
                       (particleLoop 0.02 (WordMuncher.particles s2))
                       (WordMuncher.set_treats ts s2))) = ts).
  { unfold WordMuncher.adviceTrigger. destruct (_ >? _)%Z; reflexivity. }
  rewrite Et.
  match type of El with WordMuncher.treatLoop _ _ _ _ ?s1 = _ =>
    pose proof (mesh_treatLoop_length random c h tr s1) as Hlen;
    pose proof (mesh_treatLoop_image random c h tr s1) as Him end.
  rewrite El in Hlen, Him. cbn [fst] in Hlen, Him. split.
  - destruct Hsp as [[-> _] | (t0 & -> & _)]; [lia |].
    rewrite length_app in Hlen. cbn [List.length] in Hlen. lia.
  - intros t' Hin. destruct (Him t' Hin) as (t & Hin0 & Hr). exists t. split; [| exact Hr].
    destruct Hsp as [[-> _] | (t0 & -> & _ & _ & _ & Hy & _)]; [left; exact Hin0 |].
    apply in_app_or in Hin0. destruct Hin0 as [Hin0 | [<- | []]];
      [left; exact Hin0 | right; exact Hy].
Qed.

Lemma mesh_frame_moves_witness :
  exists s',
    WordMuncher.onResults (Spec.replay Scenario.correct_spawn) JS.toString36 Scenario.apple
      (Results.mk None) 800 600 1000 WordMuncher.init = Some s'
    /\ ((List.length (WordMuncher.treats s')
         <= S (List.length (WordMuncher.treats WordMuncher.init)))%nat
        /\ forall t', In t' (WordMuncher.treats s') ->
             exists t,
               (In t (WordMuncher.treats WordMuncher.init) \/ WordTreat.y t = (-50)%Q)
               /\ WordTreat.active t = true
               /\ (t' = Spec.mesh_fall t
                   \/ t' = WordTreat.set_active false (Spec.mesh_fall t))
               /\ (WordTreat.active t' = true -> (WordTreat.y t' <= 600 + 50)%Q)).
Proof.
  eexists. split; [vm_compute; reflexivity |].
  apply (mesh_frame_moves_every_treat (Spec.replay Scenario.correct_spawn) JS.toString36
           Scenario.apple (Results.mk None) 800%Q 600%Q 1000%Z WordMuncher.init).
  vm_compute. reflexivity.
Defined.

(** X2 (frame physics of the point variant).  After [onResults] every treat
    in the store is a treat that was active before the frame, or the one
    spawned at [y = -50], moved down by its velocity and possibly flagged
    inactive; active treats are no lower than the height in force (600 when
    the container reports none) plus 50, and at most one entry was added. *)
Theorem cake_frame_moves_every_treat :
  forall (random : nat -> Q) (toString36 : Q -> string) c r cw ch now s,
    let s' := CakeMuncher.onResults random toString36 c r cw ch now s in
    let h := if Qeq_bool ch 0 then 600%Q else ch in
    (List.length (CakeMuncher.treats s') <= S (List.length (CakeMuncher.treats s)))%nat
    /\ forall t', In t' (CakeMuncher.treats s') ->
         exists t,
           (In t (CakeMuncher.treats s) \/ Treat.y t = (-50)%Q)
           /\ Treat.active t = true
           /\ (t' = Spec.cake_fall t \/ t' = Treat.set_active false (Spec.cake_fall t))
           /\ (Treat.active t' = true -> (Treat.y t' <= h + 50)%Q).
Proof.
  intros random toString36 c r cw ch now s. cbn zeta.
  destruct (cake_frame_parts random toString36 c r cw ch now s)
    as (n & tr & ts & s2 & Hsp & El & ->).
  assert (Et : CakeMuncher.treats
                 (CakeMuncher.aiTrigger c now
                    (CakeMuncher.set_particles
                       (particleLoop 0.02 (CakeMuncher.particles s2))
                       (CakeMuncher.set_treats ts s2))) = ts).
  { unfold CakeMuncher.aiTrigger, CakeMuncher.handleAiAnalysis.
    destruct (_ >? _)%Z; [| reflexivity]. destruct (_ || _); reflexivity. }
  rewrite Et.
  match type of El with CakeMuncher.treatLoop _ _ ?h0 _ ?s1 = _ =>
    pose proof (cake_treatLoop_length random c h0 tr s1) as Hlen;
    pose proof (cake_treatLoop_image random c h0 tr s1) as Him end.
  rewrite El in Hlen, Him. cbn [fst] in Hlen, Him. split.
  - destruct Hsp as [[-> _] | (t0 & -> & _)]; [lia |].
    rewrite length_app in Hlen. cbn [List.length] in Hlen. lia.
  - intros t' Hin. destruct (Him t' Hin) as (t & Hin0 & Hr). exists t. split; [| exact Hr].
    destruct Hsp as [[-> _] | (t0 & -> & _ & _ & _ & Hy & _)]; [left; exact Hin0 |].
    apply in_app_or in Hin0. destruct Hin0 as [Hin0 | [<- | []]];
      [left; exact Hin0 | right; exact Hy].
Qed.

(** X3 (frame physics of the face-api word game).  A stopped loop leaves the
    state alone.  A running frame keeps only words of the previous store, or
    the word spawned at [y = -60] when more than 1500 ms have passed since
    the last spawn, each moved down by exactly its velocity and no lower
    than the canvas height plus 60; at most one word was added. *)
Theorem faceapi_frame_moves_every_word :
  forall (random : nat -> Q) (toString36 : Q -> string) w h now s s',
    WordMuncherFaceApi.gameLoop random toString36 w h now s = Some s' ->
    (WordMuncherFaceApi.runningRef s = false -> s' = s)
    /\ (WordMuncherFaceApi.runningRef s = true ->
        (List.length (WordMuncherFaceApi.wordsRef s')
         <= S (List.length (WordMuncherFaceApi.wordsRef s)))%nat
        /\ forall w', In w' (WordMuncherFaceApi.wordsRef s') ->
             exists w0,
               (In w0 (WordMuncherFaceApi.wordsRef s)
                \/ WordMuncherFaceApi.FallingWord.y w0 = (-60)%Q
                   /\ (1500 < now - WordMuncherFaceApi.lastSpawnRef s)%Z)
               /\ w' = Spec.faceapi_fall w0
               /\ (WordMuncherFaceApi.FallingWord.y w' <= h + 60)%Q).
Proof.
  intros random toString36 w h now s s' H. split; intro Hr.
  - unfold WordMuncherFaceApi.gameLoop in H. rewrite Hr in H. cbn [negb] in H.
    injection H as <-. reflexivity.
  - apply (faceapi_frame_parts random toString36 w h now s s' Hr) in H.
    destruct H as (l & n & tr & ws & s2 & Hsp & El & ->).
    cbn [WordMuncherFaceApi.wordsRef WordMuncherFaceApi.set_particlesRef
         WordMuncherFaceApi.set_wordsRef].
    match type of El with WordMuncherFaceApi.wordLoop _ ?m _ _ ?s1 = _ =>
      pose proof (faceapi_wordLoop_length random m h tr s1) as Hlen;
      pose proof (faceapi_wordLoop_image random m h tr s1) as Him end.
    rewrite El in Hlen, Him. cbn [fst] in Hlen, Him. split.
    + destruct Hsp as [(-> & _) | (t0 & -> & _)]; [lia |].
      rewrite length_app in Hlen. cbn [List.length] in Hlen. lia.
    + intros w' Hin. destruct (Him w' Hin) as (w0 & Hin0 & Hr0). exists w0.
      split; [| exact Hr0].
      destruct Hsp as [(-> & _) | (t0 & -> & _ & Hlate & _ & _ & Hy & _)];
        [left; exact Hin0 |].
      apply in_app_or in Hin0. destruct Hin0 as [Hin0 | [<- | []]];
        [left; exact Hin0 | right; split; [exact Hy | exact Hlate]].
Qed.

Lemma faceapi_frame_moves_witness :
  exists s',
    WordMuncherFaceApi.gameLoop (Spec.replay [0; 0.1; 0.5; 0.5; 0.5]%Q) JS.toString36
      800 600 2000 WordMuncherFaceApi.init = Some s'
    /\ List.length (WordMuncherFaceApi.wordsRef s') = 1%nat
    /\ ((WordMuncherFaceApi.runningRef WordMuncherFaceApi.init = false
         -> s' = WordMuncherFaceApi.init)
        /\ (WordMuncherFaceApi.runningRef WordMuncherFaceApi.init = true ->
            (List.length (WordMuncherFaceApi.wordsRef s')
             <= S (List.length (WordMuncherFaceApi.wordsRef WordMuncherFaceApi.init)))%nat
            /\ forall w', In w' (WordMuncherFaceApi.wordsRef s') ->
                 exists w0,
                   (In w0 (WordMuncherFaceApi.wordsRef WordMuncherFaceApi.init)
                    \/ WordMuncherFaceApi.FallingWord.y w0 = (-60)%Q
                       /\ (1500 < 2000 - WordMuncherFaceApi.lastSpawnRef
                                            WordMuncherFaceApi.init)%Z)
                   /\ w' = Spec.faceapi_fall w0
                   /\ (WordMuncherFaceApi.FallingWord.y w' <= 600 + 60)%Q)).
Proof.
  eexists. split; [vm_compute; reflexivity |]. split; [reflexivity |].
  apply (faceapi_frame_moves_every_word (Spec.replay [0; 0.1; 0.5; 0.5; 0.5]%Q)
           JS.toString36 800%Q 600%Q 2000%Z WordMuncherFaceApi.init).
  vm_compute. reflexivity.
Defined.

Lemma mesh_treatLoop_flagged (random : nat -> Q) c h ts : forall s,
  (forall t, In t ts -> WordTreat.active t = false) ->
  WordMuncher.treatLoop random c h ts s = ([], s).
Proof.
  induction ts as [| t ts IH]; intros s Hall; [reflexivity |].
  cbn [WordMuncher.treatLoop]. rewrite IH by (intros u Hu; apply Hall; right; exact Hu).
  unfold WordMuncher.visit. rewrite (Hall t (or_introl eq_refl)). reflexivity.
Qed.

Lemma cake_treatLoop_flagged (random : nat -> Q) c h ts : forall s,
  (forall t, In t ts -> Treat.active t = false) ->
  CakeMuncher.treatLoop random c h ts s = ([], s).
Proof.
  induction ts as [| t ts IH]; intros s Hall; [reflexivity |].
  cbn [CakeMuncher.treatLoop]. rewrite IH by (intros u Hu; apply Hall; right; exact Hu).
  unfold CakeMuncher.visit. rewrite (Hall t (or_introl eq_refl)). reflexivity.
Qed.

(** X4 (a treat is scored at most once).  In the two FaceMesh variants a
    consumed treat stays in the array flagged inactive: whatever the mouth and
    the canvas, its next visit splices it out and changes nothing, and a
    store holding only flagged treats is emptied by the loop without any
    effect.  In the face-api variant a consumed word is spliced out in the
    visit that consumes it. *)
Theorem consumed_treat_is_never_scored_again :
  forall random : nat -> Q,
    (forall c h t s,
        Spec.mesh_bites h t s = true ->
        exists gone,
          WordMuncher.visit random c h t s
          = (Some gone, WordMuncher.eat random c (Spec.mesh_fall t) s)
          /\ gone = WordTreat.set_active false (Spec.mesh_fall t)
          /\ forall c' h' s', WordMuncher.visit random c' h' gone s' = (None, s'))
    /\ (forall c h ts s,
        (forall t, In t ts -> WordTreat.active t = false) ->
        WordMuncher.treatLoop random c h ts s = ([], s))
    /\ (forall c h t s,
        Spec.cake_bites h t s = true ->
        exists gone,
          CakeMuncher.visit random c h t s
          = (Some gone, CakeMuncher.eat random c (Spec.cake_fall t) s)
          /\ gone = Treat.set_active false (Spec.cake_fall t)
          /\ forall c' h' s', CakeMuncher.visit random c' h' gone s' = (None, s'))
    /\ (forall c h ts s,
        (forall t, In t ts -> Treat.active t = false) ->
        CakeMuncher.treatLoop random c h ts s = ([], s))
    /\ (forall mouth h w s,
        Spec.faceapi_bites mouth h w s = true ->
        WordMuncherFaceApi.visit random mouth h w s
        = (None, WordMuncherFaceApi.eat random (Spec.faceapi_fall w) s)).
Proof.
  intro random. split; [| split; [| split; [| split]]].
  - intros c h t s Hb. eexists. split; [| split; [reflexivity |]].
    + apply (proj1 (mesh_visit_bites random c h t s) Hb).
    + intros c' h' s'. reflexivity.
  - intros c h ts s. apply mesh_treatLoop_flagged.
  - intros c h t s Hb. eexists. split; [| split; [reflexivity |]].
    + apply (proj1 (cake_visit_bites random c h t s) Hb).
    + intros c' h' s'. reflexivity.
  - intros c h ts s. apply cake_treatLoop_flagged.
  - intros mouth h w s Hb. apply (proj1 (faceapi_visit_bites random mouth h w s) Hb).
Qed.

Lemma consumed_treat_witness :
  Spec.mesh_bites 600 Scenario.treat_at_69 Scenario.low_mouth = true
  /\ exists gone,
       WordMuncher.visit (Spec.replay []) Scenario.apple 600 Scenario.treat_at_69
         Scenario.low_mouth
       = (Some gone,
          WordMuncher.eat (Spec.replay []) Scenario.apple
            (Spec.mesh_fall Scenario.treat_at_69) Scenario.low_mouth)
       /\ gone = WordTreat.set_active false (Spec.mesh_fall Scenario.treat_at_69)
       /\ forall c' h' s', WordMuncher.visit (Spec.replay []) c' h' gone s' = (None, s').
Proof.
  split; [vm_compute; reflexivity |].
  apply (proj1 (consumed_treat_is_never_scored_again (Spec.replay []))).
  vm_compute. reflexivity.
Defined.

Lemma scaled_draw_bounds (u d : Q) :
  (0 <= u)%Q -> (u < 1)%Q -> (0 <= d)%Q -> (0 <= u * d <= d)%Q.
Proof. intros H0 H1 Hd. split; nra. Qed.

(** X5 (where treats spawn).  With draws in [0,1), a spawn appends exactly
    one treat, above the canvas and inside the side margins once the canvas is
    wide enough: in the FaceMesh word game at [y = -50] with
    [75 <= x <= width - 75] (for [width >= 150]) and a speed in [1.5, 3.5);
    in the point variant at [y = -50] with [50 <= x <= width - 50] (for
    [width >= 100]), a speed in [2, 5), scale 1 and the points and emoji of
    its category, between 100 and 1000 points; in the face-api word game at
    [y = -60] with [100 <= x <= width - 100] (for [width >= 200]), a speed
    in [2, 4) and a defined emoji. *)
Theorem spawned_treat_starts_above_the_canvas_inside_the_margins :
  forall (random : nat -> Q) (toString36 : Q -> string),
    Spec.unit_draws random ->
    (forall width W s s',
        WordMuncher.spawnTreat random toString36 width W s = Some s' ->
        exists t,
          WordMuncher.treats s' = WordMuncher.treats s ++ [t]
          /\ WordTreat.active t = true
          /\ WordTreat.y t = (-50)%Q
          /\ (1.5 <= WordTreat.velocity t < 3.5)%Q
          /\ ((150 <= width)%Q -> (75 <= WordTreat.x t <= width - 75)%Q))
    /\ (forall width s,
        exists t,
          CakeMuncher.treats (CakeMuncher.spawnTreat random toString36 width s)
          = CakeMuncher.treats s ++ [t]
          /\ Treat.active t = true
          /\ Treat.y t = (-50)%Q
          /\ (2 <= Treat.velocity t < 5)%Q
          /\ ((100 <= width)%Q -> (50 <= Treat.x t <= width - 50)%Q)
          /\ Treat.scale t = 1%Q
          /\ Treat.points t = CakeMuncher.points_of (Treat.type t)
          /\ Treat.emoji t = CakeMuncher.emoji_of (Treat.type t)
          /\ (100 <= Treat.points t <= 1000)%Z)
    /\ (forall width s s',
        WordMuncherFaceApi.spawnWord random toString36 width s = Some s' ->
        exists t,
          WordMuncherFaceApi.wordsRef s' = WordMuncherFaceApi.wordsRef s ++ [t]
          /\ WordMuncherFaceApi.FallingWord.y t = (-60)%Q
          /\ (2 <= WordMuncherFaceApi.FallingWord.velocity t < 4)%Q
          /\ ((200 <= width)%Q ->
              (100 <= WordMuncherFaceApi.FallingWord.x t <= width - 100)%Q)
          /\ WordMuncherFaceApi.FallingWord.emoji t <> None).
Proof.
  intros random toString36 Hu. split; [| split].
  - intros width W s s' H. apply mesh_spawnTreat_geometry in H.
    destruct H as (t & n & -> & _ & Ha & Hx & Hy & Hv). exists t.
    split; [reflexivity |]. split; [exact Ha |]. split; [exact Hy |].
    destruct (Hu (n - 1)%nat) as [A0 A1]. destruct (Hu (n - 2)%nat) as [B0 B1].
    split; [rewrite Hv; lra |]. intro Hw. rewrite Hx.
    assert (D : (0 <= width - 150)%Q) by lra.
    pose proof (scaled_draw_bounds _ _ B0 B1 D). lra.
  - intros width s.
    destruct (cake_spawnTreat_geometry random toString36 width s)
      as (t & -> & Ha & Hx & Hy & Hv & _ & Hp & He & Hs).
    exists t. split; [reflexivity |]. split; [exact Ha |]. split; [exact Hy |].
    destruct (Hu (CakeMuncher.draws s + 3)%nat) as [A0 A1].
    destruct (Hu (CakeMuncher.draws s + 2)%nat) as [B0 B1].
    split; [rewrite Hv; lra |]. split.
    { intro Hw. rewrite Hx.
      assert (D : (0 <= width - 100)%Q) by lra.
      pose proof (scaled_draw_bounds _ _ B0 B1 D). lra. }
    split; [exact Hs |]. split; [exact Hp |]. split; [exact He |].
    rewrite Hp. destruct (Treat.type t); cbn; lia.
  - intros width s s' H. apply faceapi_spawnWord_geometry in H.
    destruct H as (t & n & -> & _ & Hx & Hy & Hv & He). exists t.
    split; [reflexivity |]. split; [exact Hy |].
    destruct (Hu (n - 1)%nat) as [A0 A1]. destruct (Hu (n - 2)%nat) as [B0 B1].
    split; [rewrite Hv; lra |]. split.
    { intro Hw. rewrite Hx.
      assert (D : (0 <= width - 200)%Q) by lra.
      pose proof (scaled_draw_bounds _ _ B0 B1 D). lra. }
    rewrite He. destruct (Hu (WordMuncherFaceApi.draws s)) as [C0 C1].
    destruct (index_in_range WordMuncherFaceApi.TREAT_TYPES
                (Qfloor (random (WordMuncherFaceApi.draws s)
                         * JS.len WordMuncherFaceApi.TREAT_TYPES))) as [ty [Ety _]].
    { apply (floor_draw _ 5 C0 C1). lia. }
    rewrite Ety. discriminate.
Qed.

Lemma spawned_treat_witness :
  Spec.unit_draws (Spec.replay [])
  /\ exists t,
       CakeMuncher.treats
         (CakeMuncher.spawnTreat (Spec.replay []) JS.toString36 800 CakeMuncher.init)
       = CakeMuncher.treats CakeMuncher.init ++ [t]
       /\ Treat.active t = true
       /\ Treat.y t = (-50)%Q
       /\ (2 <= Treat.velocity t < 5)%Q
       /\ ((100 <= 800)%Q -> (50 <= Treat.x t <= 800 - 50)%Q)
       /\ Treat.scale t = 1%Q
       /\ Treat.points t = CakeMuncher.points_of (Treat.type t)
       /\ Treat.emoji t = CakeMuncher.emoji_of (Treat.type t)
       /\ (100 <= Treat.points t <= 1000)%Z.
Proof.
  assert (Hu : Spec.unit_draws (Spec.replay [])).
  { apply (replay_unit []). constructor. }
  split; [exact Hu |].
  apply (proj1 (proj2 (spawned_treat_starts_above_the_canvas_inside_the_margins
                         (Spec.replay []) JS.toString36 Hu))).
Defined.

(** ** Invariants of every run *)

(** X6 (treats only fall, at a bounded speed).  With draws in [0,1), in
    every state a run of the FaceMesh word game can reach each stored treat
    has a speed in [1.5, 3.5) and is no higher than its spawn line
    [y = -50]; in the face-api word game each stored word has a speed in
    [2, 4) and is no higher than [y = -60]. *)
Theorem falling_speed_is_bounded_on_every_run :
  forall (random : nat -> Q) (toString36 : Q -> string),
    Spec.unit_draws random ->
    (forall s, Spec.mesh_reachable random toString36 s ->
       forall t, In t (WordMuncher.treats s) ->
         (1.5 <= WordTreat.velocity t < 3.5)%Q /\ (-50 <= WordTreat.y t)%Q)
    /\ (forall s, Spec.faceapi_reachable random toString36 s ->
       forall w, In w (WordMuncherFaceApi.wordsRef s) ->
         (2 <= WordMuncherFaceApi.FallingWord.velocity w < 4)%Q
         /\ (-60 <= WordMuncherFaceApi.FallingWord.y w)%Q).
Proof.
  intros random toString36 Hu. split.
  - intros s Hr. exact (mesh_motion_ok_reachable random toString36 Hu s Hr).
  - intros s Hr. exact (faceapi_motion_ok_reachable random toString36 Hu s Hr).
Qed.

Lemma falling_speed_witness :
  exists s, Scenario.twin_spawns = Some s
    /\ List.length (WordMuncher.treats s) = 2%nat
    /\ forall t, In t (WordMuncher.treats s) ->
         (1.5 <= WordTreat.velocity t < 3.5)%Q /\ (-50 <= WordTreat.y t)%Q.
Proof.
  eexists. split; [vm_compute; reflexivity |]. split; [reflexivity |].
  apply (proj1 (falling_speed_is_bounded_on_every_run
                  (Spec.replay [0.01; 0; 0.1; 0.5; 0.5; 0.5; 0.01; 0; 0.1; 0.5; 0.25; 0.5]%Q)
                  JS.toString36
                  (replay_unit
                     [0.01; 0; 0.1; 0.5; 0.5; 0.5; 0.01; 0; 0.1; 0.5; 0.25; 0.5]%Q
                     ltac:(repeat constructor; lra)))).
  exists [WordMuncher.Frame (Results.mk None) 800 600 1000;
          WordMuncher.Frame (Results.mk None) 800 600 1016].
  vm_compute. reflexivity.
Defined.

(** X7 (the displayed values mirror the refs).  In every reachable state of
    the two word games the React [score] equals [scoreRef]; in the face-api
    game the React [quizIndex] equals [quizIndexRef], which stays a valid
    index of the eight-entry quiz list. *)
Theorem displayed_score_mirrors_the_score_ref :
  forall (random : nat -> Q) (toString36 : Q -> string),
    (forall s, Spec.mesh_reachable random toString36 s ->
       WordMuncher.score s = WordMuncher.scoreRef s)
    /\ (forall s, Spec.faceapi_reachable random toString36 s ->
       WordMuncherFaceApi.score s = WordMuncherFaceApi.scoreRef s
       /\ WordMuncherFaceApi.quizIndex s = WordMuncherFaceApi.quizIndexRef s
       /\ (0 <= WordMuncherFaceApi.quizIndexRef s
           < Z.of_nat (List.length WordMuncherFaceApi.QUIZ_LIST))%Z).
Proof.
  intros random toString36. split.
  - intros s Hr. exact (proj1 (mesh_books_ok_reachable random toString36 s Hr)).
  - intros s Hr.
    destruct (faceapi_books_ok_reachable random toString36 s Hr) as (Hs & Hq & Hi & _).
    split; [exact Hs |]. split; [exact Hq | exact Hi].
Qed.

Lemma displayed_score_witness :
  exists s, Scenario.wrong_bite = Some s
    /\ WordMuncher.score s = WordMuncher.scoreRef s.
Proof.
  eexists. split; [vm_compute; reflexivity |].
  apply (proj1 (displayed_score_mirrors_the_score_ref
                  (Spec.replay [0.01; 0; 0.9; 0; 0.5; 0.5; 0.5]%Q) JS.toString36)).
  exists [WordMuncher.Frame Scenario.mouth_at_top 800 600 1000].
  vm_compute. reflexivity.
Defined.

(** X8 (the particle stores hold live particles only).  In every reachable
    state of the two word games each stored particle has a life in (0, 1]:
    a particle whose life is used up never survives the frame that ages
    it. *)
Theorem stored_particles_are_alive :
  forall (random : nat -> Q) (toString36 : Q -> string),
    (forall s, Spec.mesh_reachable random toString36 s ->
       forall p, In p (WordMuncher.particles s) -> (0 < Particle.life p <= 1)%Q)
    /\ (forall s, Spec.faceapi_reachable random toString36 s ->
       forall p, In p (WordMuncherFaceApi.particlesRef s) -> (0 < Particle.life p <= 1)%Q).
Proof.
  intros random toString36. split.
  - intros s Hr. exact (proj2 (mesh_books_ok_reachable random toString36 s Hr)).
  - intros s Hr.
    destruct (faceapi_books_ok_reachable random toString36 s Hr) as (_ & _ & _ & Hp).
    exact Hp.
Qed.

Lemma stored_particles_witness :
  exists s, Scenario.wrong_bite = Some s
    /\ List.length (WordMuncher.particles s) = 10%nat
    /\ forall p, In p (WordMuncher.particles s) -> (0 < Particle.life p <= 1)%Q.
Proof.
  eexists. split; [vm_compute; reflexivity |]. split; [reflexivity |].
  apply (proj1 (stored_particles_are_alive
                  (Spec.replay [0.01; 0; 0.9; 0; 0.5; 0.5; 0.5]%Q) JS.toString36)).
  exists [WordMuncher.Frame Scenario.mouth_at_top 800 600 1000].
  vm_compute. reflexivity.
Defined.

(** ** Particles *)

Lemma particle_frames_succ (step : Q) (n : nat) (ps : list Particle.t) :
  Spec.particle_frames step (S n) ps = Spec.particle_frames step n (particleLoop step ps).
Proof. unfold Spec.particle_frames. apply Nat.iter_succ_r. Qed.

Lemma particle_frames_gone (step : Q) (n : nat) : forall ps,
  (forall p, In p ps -> (Particle.life p <= inject_Z (Z.of_nat (S n)) * step)%Q) ->
  Spec.particle_frames step (S n) ps = [].
Proof.
  induction n as [| n IH]; intros ps Hl.
  - rewrite particle_frames_succ. cbn.
    destruct (particleLoop step ps) as [| p rest] eqn:E; [reflexivity |].
    assert (Hin : In p (particleLoop step ps)) by (rewrite E; left; reflexivity).
    apply particleLoop_survivor in Hin. destruct Hin as (q & Hq & _ & Hlt).
    specialize (Hl q Hq). change (inject_Z (Z.of_nat 1)) with 1%Q in Hl. exfalso. lra.
  - rewrite particle_frames_succ. apply IH. intros p Hin.
    apply particleLoop_survivor in Hin. destruct Hin as (q & Hq & -> & _).
    specialize (Hl q Hq). cbn [Particle.age Particle.life].
    rewrite Nat2Z.inj_succ in Hl. unfold Z.succ in Hl.
    rewrite inject_Z_plus in Hl. change (inject_Z 1) with 1%Q in Hl. lra.
Qed.

Lemma particle_frames_kept (step : Q) (n : nat) : forall ps p,
  (0 <= step)%Q -> In p ps -> (inject_Z (Z.of_nat n) * step < Particle.life p)%Q ->
  exists p', In p' (Spec.particle_frames step n ps)
    /\ (Particle.life p' == Particle.life p - inject_Z (Z.of_nat n) * step)%Q
    /\ (Particle.x p' == Particle.x p + inject_Z (Z.of_nat n) * Particle.vx p)%Q
    /\ (Particle.y p' == Particle.y p + inject_Z (Z.of_nat n) * Particle.vy p)%Q
    /\ Particle.vx p' = Particle.vx p /\ Particle.vy p' = Particle.vy p
    /\ Particle.color p' = Particle.color p /\ Particle.size p' = Particle.size p.
Proof.
  induction n as [| n IH]; intros ps p Hs Hin Hl.
  - exists p. split; [exact Hin |]. cbn. repeat split; ring.
  - rewrite particle_frames_succ.
    rewrite Nat2Z.inj_succ in Hl |- *. unfold Z.succ in Hl |- *.
    rewrite inject_Z_plus in Hl |- *. change (inject_Z 1) with 1%Q in Hl |- *.
    set (k := inject_Z (Z.of_nat n)) in *.
    assert (Hk : (0 <= k)%Q).
    { unfold k. change 0%Q with (inject_Z 0). rewrite <- Zle_Qle. lia. }
    assert (Hks : (0 <= k * step)%Q) by nra.
    destruct (IH (particleLoop step ps) (Particle.age step p) Hs) as (p' & Hin' & H1 & H2 & H3 & H4 & H5 & H6 & H7).
    + apply particleLoop_survivor. exists p. split; [exact Hin |]. split; [reflexivity |]. lra.
    + cbn [Particle.age Particle.life]. fold k. lra.
    + exists p'. split; [exact Hin' |]. fold k in H1, H2, H3.
      cbn [Particle.age Particle.life Particle.x Particle.y Particle.vx Particle.vy
           Particle.color Particle.size] in H1, H2, H3, H4, H5, H6, H7.
      repeat split; try assumption.
      * rewrite H1. ring.
      * rewrite H2. ring.
      * rewrite H3. ring.
Qed.

(** X9 (how long a particle lasts).  The particle loop removes a particle on
    the first frame at which its life, lowered by the step of each frame, is
    no longer positive: a store whose particles have at most [n] steps of
    life left is empty after [n >= 1] frames, and a particle with more than
    [n] steps left is still stored after [n] frames, having moved [n] times
    its velocity, with its speed, colour and size unchanged. *)
Theorem particles_last_as_long_as_their_life :
  forall (step : Q) (n : nat) (ps : list Particle.t),
    ((0 < n)%nat ->
     (forall p, In p ps -> (Particle.life p <= inject_Z (Z.of_nat n) * step)%Q) ->
     Spec.particle_frames step n ps = [])
    /\ ((0 <= step)%Q ->
        forall p, In p ps -> (inject_Z (Z.of_nat n) * step < Particle.life p)%Q ->
        exists p', In p' (Spec.particle_frames step n ps)
          /\ (Particle.life p' == Particle.life p - inject_Z (Z.of_nat n) * step)%Q
          /\ (Particle.x p' == Particle.x p + inject_Z (Z.of_nat n) * Particle.vx p)%Q
          /\ (Particle.y p' == Particle.y p + inject_Z (Z.of_nat n) * Particle.vy p)%Q
          /\ Particle.vx p' = Particle.vx p /\ Particle.vy p' = Particle.vy p
          /\ Particle.color p' = Particle.color p /\ Particle.size p' = Particle.size p).
Proof.
  intros step n ps. split.
  - intros Hn Hl. destruct n as [| n]; [lia |]. apply particle_frames_gone. exact Hl.
  - intros Hs p Hin Hl. apply particle_frames_kept; assumption.
Qed.

Lemma particle_lifetime_witness :
  Spec.particle_frames 0.02 60 [Scenario.spark] = []
  /\ exists p', In p' (Spec.particle_frames 0.02 40 [Scenario.spark])
       /\ (Particle.x p' == 10 + 40 * 3)%Q.
Proof.
  split.
  - apply (proj1 (particles_last_as_long_as_their_life 0.02 60 [Scenario.spark])).
    + lia.
    + intros p [<- | []]. vm_compute. discriminate.
  - destruct (proj2 (particles_last_as_long_as_their_life 0.02 40 [Scenario.spark])
                ltac:(vm_compute; discriminate) Scenario.spark
                (or_introl eq_refl) ltac:(vm_compute; reflexivity))
      as (p' & Hin & _ & Hx & _).
    exists p'. split; [exact Hin | exact Hx].
Defined.

(** ** Score accounting *)

(** X10 (what a frame does to the score of the word games).  Starting from a
    score that is not negative, a frame adds 100 for every correct treat
    consumed and takes at most 50 for every incorrect one: the score after
    the frame lies between [score + 100 * correct - 50 * wrong] and
    [score + 100 * correct], where the bites are counted over the store as
    the treat loop finds it: the store before the frame with, when the
    frame spawns, the treat the spawner appended. *)
Theorem word_frame_score_bounds :
  forall (random : nat -> Q) (toString36 : Q -> string),
    (forall c r w h now s s',
        WordMuncher.onResults random toString36 c r w h now s = Some s' ->
        (0 <= WordMuncher.scoreRef s)%Z ->
        exists s0,
          Spec.mesh_loop_start random toString36 c r w h s = Some s0
          /\ (WordMuncher.treats s0 = WordMuncher.treats s
              \/ exists t, WordMuncher.treats s0 = WordMuncher.treats s ++ [t])
          /\ let visited := WordMuncher.treats s0 in
             let gained := (100 * Z.of_nat (Spec.mesh_correct_bites h visited s0))%Z in
             let lost := (50 * Z.of_nat (Spec.mesh_wrong_bites h visited s0))%Z in
             (WordMuncher.scoreRef s + gained - lost <= WordMuncher.scoreRef s'
              <= WordMuncher.scoreRef s + gained)%Z)
    /\ (forall w h now s s',
        WordMuncherFaceApi.runningRef s = true ->
        WordMuncherFaceApi.gameLoop random toString36 w h now s = Some s' ->
        (0 <= WordMuncherFaceApi.scoreRef s)%Z ->
        exists s0,
          Spec.faceapi_loop_start random toString36 w now s = Some s0
          /\ (WordMuncherFaceApi.wordsRef s0 = WordMuncherFaceApi.wordsRef s
              \/ exists t, WordMuncherFaceApi.wordsRef s0
                           = WordMuncherFaceApi.wordsRef s ++ [t])
          /\ let visited := WordMuncherFaceApi.wordsRef s0 in
             let mouth := WordMuncherFaceApi.mouthPosRef s in
             let gained :=
               (100 * Z.of_nat (Spec.faceapi_correct_bites mouth h visited s0))%Z in
             let lost := (50 * Z.of_nat (Spec.faceapi_wrong_bites mouth h visited s0))%Z in
             (WordMuncherFaceApi.scoreRef s + gained - lost <= WordMuncherFaceApi.scoreRef s'
              <= WordMuncherFaceApi.scoreRef s + gained)%Z).
Proof.
  intros random toString36. split.
  - intros c r w h now s s' H H0.
    apply mesh_frame_from_start in H. destruct H as (s0 & ts & s2 & Hs0 & El & ->).
    destruct (mesh_loop_start_fields random toString36 c r w h s s0 Hs0)
      as (_ & _ & Es & _ & _ & _ & Htr).
    pose proof (mesh_treatLoop_score random c h (WordMuncher.treats s0) s0) as Hl.
    cbn zeta in Hl. rewrite El in Hl. cbn [snd] in Hl.
    destruct Hl as (_ & Hb & _ & _); [rewrite Es; exact H0 |].
    exists s0. split; [exact Hs0 |]. split; [exact Htr |]. cbn zeta.
    set (s3 := WordMuncher.set_particles _ (WordMuncher.set_treats ts s2)).
    assert (As : WordMuncher.scoreRef (WordMuncher.adviceTrigger c now s3)
                 = WordMuncher.scoreRef s2)
      by (unfold WordMuncher.adviceTrigger; destruct (_ >? _)%Z; reflexivity).
    rewrite As, <- Es. exact Hb.
  - intros w h now s s' Hr H H0.
    apply (faceapi_frame_from_start random toString36 w h now s s' Hr) in H.
    destruct H as (s0 & ws & s2 & Hs0 & El & ->).
    destruct (faceapi_loop_start_fields random toString36 w now s s0 Hs0)
      as (_ & _ & Es & _ & _ & Htr).
    pose proof (faceapi_wordLoop_score random (WordMuncherFaceApi.mouthPosRef s) h
                  (WordMuncherFaceApi.wordsRef s0) s0) as Hl.
    cbn zeta in Hl. rewrite El in Hl. cbn [snd] in Hl.
    destruct Hl as (_ & Hb & _); [rewrite Es; exact H0 |].
    exists s0. split; [exact Hs0 |]. split; [exact Htr |]. cbn zeta.
    cbn [WordMuncherFaceApi.scoreRef WordMuncherFaceApi.set_particlesRef
         WordMuncherFaceApi.set_wordsRef].
    rewrite <- Es. exact Hb.
Qed.

Lemma word_frame_score_witness :
  exists s',
    WordMuncher.onResults (Spec.replay [0.01; 0; 0.9; 0; 0.5; 0.5; 0.5]%Q) JS.toString36
      Scenario.apple Scenario.mouth_at_top 800 600 1000 WordMuncher.init = Some s'
    /\ WordMuncher.scoreRef s' = 0%Z
    /\ exists s0,
         Spec.mesh_loop_start (Spec.replay [0.01; 0; 0.9; 0; 0.5; 0.5; 0.5]%Q) JS.toString36
           Scenario.apple Scenario.mouth_at_top 800 600 WordMuncher.init = Some s0
         /\ (WordMuncher.treats s0 = WordMuncher.treats WordMuncher.init
             \/ exists t, WordMuncher.treats s0 = WordMuncher.treats WordMuncher.init ++ [t])
         /\ let visited := WordMuncher.treats s0 in
            let gained := (100 * Z.of_nat (Spec.mesh_correct_bites 600 visited s0))%Z in
            let lost := (50 * Z.of_nat (Spec.mesh_wrong_bites 600 visited s0))%Z in
            (WordMuncher.scoreRef WordMuncher.init + gained - lost
             <= WordMuncher.scoreRef s'
             <= WordMuncher.scoreRef WordMuncher.init + gained)%Z.
Proof.
  eexists. split; [vm_compute; reflexivity |]. split; [reflexivity |].
  apply (proj1 (word_frame_score_bounds
                  (Spec.replay [0.01; 0; 0.9; 0; 0.5; 0.5; 0.5]%Q) JS.toString36)
           Scenario.apple Scenario.mouth_at_top 800%Q 600%Q 1000%Z WordMuncher.init).
  - vm_compute. reflexivity.
  - vm_compute. discriminate.
Defined.

(** X11 (what a frame does to the score of the point variant).  [onResults]
    adds to the score ref, for every treat consumed on the frame, the
    treat's points times the multiplier its closure captured, and nothing
    else; the consumed treats are counted over the store as the treat loop
    finds it: the store before the frame with, when the frame spawns, the
    treat [spawnTreat] appended, whose points are those of its category. *)
Theorem cake_frame_adds_points_times_multiplier :
  forall (random : nat -> Q) (toString36 : Q -> string) c r cw ch now s,
    let s' := CakeMuncher.onResults random toString36 c r cw ch now s in
    let h := if Qeq_bool ch 0 then 600%Q else ch in
    let s0 := Spec.cake_loop_start random toString36 r cw ch s in
    (CakeMuncher.treats s0 = CakeMuncher.treats s
     \/ exists t, CakeMuncher.treats s0 = CakeMuncher.treats s ++ [t]
                  /\ Treat.active t = true
                  /\ Treat.points t = CakeMuncher.points_of (Treat.type t))
    /\ CakeMuncher.scoreRef s'
       = (CakeMuncher.scoreRef s
          + Spec.cake_gain h (CakeMuncher.treats s0) s0 * CakeMuncher.multiplier c)%Z.
Proof.
  intros random toString36 c r cw ch now s. cbv zeta.
  split; [apply cake_loop_start_spawn |].
  destruct (cake_frame_from_start random toString36 c r cw ch now s)
    as (ts & s2 & El & ->).
  destruct (cake_loop_start_fields random toString36 r cw ch s) as (_ & _ & Es & _).
  match type of El with CakeMuncher.treatLoop _ _ ?h0 ?tr ?s1 = _ =>
    pose proof (cake_treatLoop_score random c h0 tr s1) as Hl end.
  cbv zeta in Hl. rewrite El in Hl. cbn [snd] in Hl.
  destruct Hl as (Hb & _).
  set (s3 := CakeMuncher.set_particles _ (CakeMuncher.set_treats ts s2)).
  assert (As : CakeMuncher.scoreRef (CakeMuncher.aiTrigger c now s3)
               = CakeMuncher.scoreRef s2).
  { unfold CakeMuncher.aiTrigger, CakeMuncher.handleAiAnalysis.
    destruct (_ >? _)%Z; [| reflexivity]. destruct (_ || _); reflexivity. }
  rewrite As, Hb, Es. reflexivity.
Qed.

(** ** Particle bursts *)

Ltac fresh_from_draws Hu Hp p Hin :=
  destruct (Hp p Hin) as (Hx & Hy & Hl & Hc & k & Hvx & Hvy & Hsz);
  destruct (Hu k) as [A0 A1]; destruct (Hu (S k)) as [B0 B1];
  destruct (Hu (S (S k))) as [C0 C1];
  unfold Spec.fresh_particle; rewrite Hvx, Hvy, Hsz;
  split; [exact Hx |]; split; [exact Hy |]; split; [exact Hl |]; split; [exact Hc |];
  split; [lra |]; split; lra.

(** X12 (the burst of a bite).  With draws in [0,1), the collision branch
    appends one burst of particles at the position of the consumed treat,
    each at full life: 20 green or 10 red ones in the FaceMesh word game
    (each velocity component in [-5, 5), the lower end taken at draw 0;
    size in [2, 6)), 12 in the colour of the category in the point variant
    (velocity components in [-5, 5), size in [3, 8)), 15 green or red ones
    in the face-api word game (velocity components in [-6, 6), size in
    [3, 8)). *)
Theorem a_bite_emits_one_burst_of_fresh_particles :
  forall random : nat -> Q,
    Spec.unit_draws random ->
    (forall c t s,
        exists ps,
          WordMuncher.particles (WordMuncher.eat random c t s)
          = WordMuncher.particles s ++ ps
          /\ List.length ps = (if WordTreat.isCorrect t then 20 else 10)%nat
          /\ forall p, In p ps ->
               Spec.fresh_particle (WordTreat.x t) (WordTreat.y t)
                 (if WordTreat.isCorrect t then "#4ade80" else "#f87171")%string 5 2 6 p)
    /\ (forall c t s,
        exists ps,
          CakeMuncher.particles (CakeMuncher.eat random c t s)
          = CakeMuncher.particles s ++ ps
          /\ List.length ps = 12%nat
          /\ forall p, In p ps ->
               Spec.fresh_particle (Treat.x t) (Treat.y t)
                 (CakeMuncher.color_of (Treat.type t)) 5 3 8 p)
    /\ (forall w s,
        exists ps,
          WordMuncherFaceApi.particlesRef (WordMuncherFaceApi.eat random w s)
          = WordMuncherFaceApi.particlesRef s ++ ps
          /\ List.length ps = 15%nat
          /\ forall p, In p ps ->
               Spec.fresh_particle (WordMuncherFaceApi.FallingWord.x w)
                 (WordMuncherFaceApi.FallingWord.y w)
                 (if WordMuncherFaceApi.FallingWord.isCorrect w
                  then "#4ade80" else "#f87171")%string 6 3 8 p).
Proof.
  intros random Hu. split; [| split].
  - intros c t s. unfold WordMuncher.eat. destruct (WordTreat.isCorrect t).
    + match goal with |- context [WordMuncher.createParticles _ ?x ?y ?col ?n ?s1] =>
        destruct (mesh_createParticles_burst random x y col n s1) as (ps & Hn & He & Hp);
        rewrite He end.
      exists ps. split; [reflexivity |]. split; [exact Hn |].
      intros p Hin. fresh_from_draws Hu Hp p Hin.
    + match goal with |- context [WordMuncher.createParticles _ ?x ?y ?col ?n ?s1] =>
        destruct (mesh_createParticles_burst random x y col n s1) as (ps & Hn & He & Hp);
        rewrite He end.
      exists ps. split; [reflexivity |]. split; [exact Hn |].
      intros p Hin. fresh_from_draws Hu Hp p Hin.
  - intros c t s. unfold CakeMuncher.eat, CakeMuncher.createCrumbs.
    match goal with |- context [CakeMuncher.createCrumbsLoop _ ?n ?x ?y ?col ?s1] =>
      destruct (cake_createCrumbsLoop_burst random x y col n s1) as (ps & Hn & He & Hp);
      rewrite He end.
    exists ps. split; [reflexivity |]. split; [exact Hn |].
    intros p Hin. fresh_from_draws Hu Hp p Hin.
  - intros w s. unfold WordMuncherFaceApi.eat, WordMuncherFaceApi.createParticles.
    destruct (WordMuncherFaceApi.FallingWord.isCorrect w).
    + match goal with
      |- context [WordMuncherFaceApi.createParticlesLoop _ ?n ?x ?y ?col ?s1] =>
        destruct (faceapi_createParticlesLoop_burst random x y col n s1)
          as (ps & Hn & He & Hp); rewrite He end.
      exists ps. split; [reflexivity |]. split; [exact Hn |].
      intros p Hin. fresh_from_draws Hu Hp p Hin.
    + match goal with
      |- context [WordMuncherFaceApi.createParticlesLoop _ ?n ?x ?y ?col ?s1] =>
        destruct (faceapi_createParticlesLoop_burst random x y col n s1)
          as (ps & Hn & He & Hp); rewrite He end.
      exists ps. split; [reflexivity |]. split; [exact Hn |].
      intros p Hin. fresh_from_draws Hu Hp p Hin.
Qed.

Lemma burst_witness :
  Spec.unit_draws (Spec.replay [])
  /\ exists ps,
       WordMuncher.particles
         (WordMuncher.eat (Spec.replay []) Scenario.apple Scenario.treat_at_69
            Scenario.low_mouth)
       = WordMuncher.particles Scenario.low_mouth ++ ps
       /\ List.length ps
          = (if WordTreat.isCorrect Scenario.treat_at_69 then 20 else 10)%nat
       /\ forall p, In p ps ->
            Spec.fresh_particle (WordTreat.x Scenario.treat_at_69)
              (WordTreat.y Scenario.treat_at_69)
              (if WordTreat.isCorrect Scenario.treat_at_69
               then "#4ade80" else "#f87171")%string 5 2 6 p.
Proof.
  assert (Hu : Spec.unit_draws (Spec.replay [])).
  { apply (replay_unit []). constructor. }
  split; [exact Hu |].
  apply (proj1 (a_bite_emits_one_burst_of_fresh_particles (Spec.replay []) Hu)).
Defined.

(** ** The mouth *)

Lemma sqrt_gtb_real (s c : Q) :
  (0 <= c)%Q ->
  JS.sqrt_gtb s c = true <-> (0 <= s)%Q /\ (Q2R c < sqrt (Q2R s))%R.
Proof.
  intro Hc0. unfold JS.sqrt_gtb. rewrite andb_true_iff, orb_true_iff, leb_true, !ltb_true.
  assert (Hc := Qle_Rle _ _ Hc0). rewrite RMicromega.Q2R_0 in Hc. split.
  - intros [Hs [Hneg | Hlt]]; [exfalso; lra |]. split; [exact Hs |].
    apply Qlt_Rlt in Hlt. rewrite Q2R_mult in Hlt.
    rewrite <- (sqrt_square (Q2R c)) by lra.
    apply sqrt_lt_1; nra.
  - intros [Hs Hlt]. split; [exact Hs |]. right.
    assert (Hs' := Qle_Rle _ _ Hs). rewrite RMicromega.Q2R_0 in Hs'.
    assert (Hsq := sqrt_sqrt (Q2R s) Hs').
    apply Rlt_Qlt. rewrite Q2R_mult. nra.
Qed.

Lemma sqrt_gtb_distance (a b : Point.t) (c : Q) :
  (0 <= c)%Q ->
  JS.sqrt_gtb (JS.pow2 (Point.x a - Point.x b) + JS.pow2 (Point.y a - Point.y b)) c = true
  <-> (Q2R c < Spec.distance a b)%R.
Proof.
  intro Hc. rewrite (sqrt_gtb_real _ _ Hc). unfold Spec.distance, JS.pow2.
  rewrite Q2R_plus, !Q2R_mult, !Q2R_minus. split; [tauto |].
  intro H. split; [| exact H].
  generalize (Point.x a - Point.x b)%Q (Point.y a - Point.y b)%Q.
  intros dx dy. nra.
Qed.

(** X13 (where the FaceMesh variants put the mouth).  With a face in the
    result, both variants take the midpoint of landmarks 13 and 14 of the
    first face and scale it to the canvas; the word game mirrors it
    horizontally, so its mouth is the point variant's reflected in the
    vertical centre line.  Lips inside the picture give a mouth inside the
    canvas.  Further faces in the result change nothing, and the two
    variants agree on whether the mouth is open. *)
Theorem mouth_is_the_scaled_lip_midpoint :
  forall (lm : nat -> Point.t) (rest : list (nat -> Point.t)) (w h : Q)
         (s : WordMuncher.State) (sc : CakeMuncher.State),
    let r := Results.mk (Some (lm :: rest)) in
    let m := WordMuncher.mouthPos (WordMuncher.detect r w h s) in
    let mc := CakeMuncher.mouthPos (CakeMuncher.detect r w h sc) in
    Point.x mc = ((Point.x (lm 13%nat) + Point.x (lm 14%nat)) / 2 * w)%Q
    /\ Point.y mc = ((Point.y (lm 13%nat) + Point.y (lm 14%nat)) / 2 * h)%Q
    /\ (Point.x m == w - Point.x mc)%Q
    /\ Point.y m = Point.y mc
    /\ (Spec.in_picture (lm 13%nat) -> Spec.in_picture (lm 14%nat) ->
        (0 <= w)%Q -> (0 <= h)%Q ->
        (0 <= Point.x m <= w)%Q /\ (0 <= Point.x mc <= w)%Q /\ (0 <= Point.y m <= h)%Q)
    /\ WordMuncher.detect r w h s
       = WordMuncher.detect (Results.mk (Some [lm])) w h s
    /\ CakeMuncher.detect r w h sc
       = CakeMuncher.detect (Results.mk (Some [lm])) w h sc
    /\ WordMuncher.isMouthOpen (WordMuncher.detect r w h s)
       = CakeMuncher.isMouthOpen (CakeMuncher.detect r w h sc).
Proof.
  intros lm rest w h s sc. cbn zeta.
  unfold WordMuncher.detect, CakeMuncher.detect.
  cbn [Results.multiFaceLandmarks WordMuncher.mouthPos WordMuncher.set_isMouthOpen
       WordMuncher.set_mouthPos CakeMuncher.mouthPos CakeMuncher.set_isMouthOpen
       CakeMuncher.set_mouthPos WordMuncher.isMouthOpen CakeMuncher.isMouthOpen
       Point.x Point.y].
  split; [reflexivity |]. split; [reflexivity |]. split; [field |]. split; [reflexivity |].
  split; [| repeat split].
  intros [[A0 A1] [A2 A3]] [[B0 B1] [B2 B3]] Hw Hh.
  set (mx := ((Point.x (lm 13%nat) + Point.x (lm 14%nat)) / 2)%Q).
  set (my := ((Point.y (lm 13%nat) + Point.y (lm 14%nat)) / 2)%Q).
  assert (Emx : (mx == (Point.x (lm 13%nat) + Point.x (lm 14%nat)) * (1 # 2))%Q)
    by (unfold mx; field).
  assert (Emy : (my == (Point.y (lm 13%nat) + Point.y (lm 14%nat)) * (1 # 2))%Q)
    by (unfold my; field).
  assert (Hmx : (0 <= mx <= 1)%Q) by (rewrite Emx; split; lra).
  assert (Hmy : (0 <= my <= 1)%Q) by (rewrite Emy; split; lra).
  clear Emx Emy. clearbody mx my. repeat split; nra.
Qed.

Lemma mouth_midpoint_witness :
  let m := WordMuncher.mouthPos
             (WordMuncher.detect Scenario.mouth_at_top 800 600 WordMuncher.init) in
  (0 <= Point.x m <= 800)%Q /\ (0 <= Point.y m <= 600)%Q.
Proof.
  cbn zeta.
  destruct (mouth_is_the_scaled_lip_midpoint
              (fun n => match n with 13%nat => Point.mk 0.5 0 | _ => Point.mk 0.5 0.05 end)
              [] 800 600 WordMuncher.init CakeMuncher.init)
    as (_ & _ & _ & _ & H & _).
  destruct H as (Hx & _ & Hy).
  - split; cbn; split; lra.
  - split; cbn; split; lra.
  - lra.
  - lra.
  - split; [exact Hx | exact Hy].
Defined.

(** X14 (when the mouth counts as open).  In the FaceMesh variants the flag
    is set exactly when the Euclidean distance of the two lip landmarks, in
    normalized picture coordinates, exceeds 0.045, whatever the canvas size.
    In the face-api variant a detection tick on a running game with a ready
    video and a face of positive box height sets the flag exactly when the
    vertical lip gap exceeds 0.06 of the box height, copies it to the React
    state and marks the face as detected; a tick on a video that is not
    ready, or after the loop was stopped, changes nothing. *)
Theorem mouth_is_open_when_the_lip_gap_exceeds_the_threshold :
  (forall lm rest w h s,
      WordMuncher.isMouthOpen
        (WordMuncher.detect (Results.mk (Some (lm :: rest))) w h s) = true
      <-> (Q2R 0.045 < Spec.distance (lm 13%nat) (lm 14%nat))%R)
  /\ (forall lm rest w h s,
      CakeMuncher.isMouthOpen
        (CakeMuncher.detect (Results.mk (Some (lm :: rest))) w h s) = true
      <-> (Q2R 0.045 < Spec.distance (lm 13%nat) (lm 14%nat))%R)
  /\ (forall readyState d cw ch vw vh s,
      WordMuncherFaceApi.runningRef s = true -> (2 <= readyState)%Z ->
      (0 < WordMuncherFaceApi.Detection.box_height d)%Q ->
      let s' := WordMuncherFaceApi.detectFace readyState (Some d) cw ch vw vh s in
      (WordMuncherFaceApi.isMouthOpenRef s' = true
       <-> (0.06 * WordMuncherFaceApi.Detection.box_height d
            < Qabs (Point.y (WordMuncherFaceApi.Detection.positions d 66%nat)
                    - Point.y (WordMuncherFaceApi.Detection.positions d 62%nat)))%Q)
      /\ WordMuncherFaceApi.mouthOpen s' = WordMuncherFaceApi.isMouthOpenRef s'
      /\ WordMuncherFaceApi.faceDetected s' = true)
  /\ (forall readyState d cw ch vw vh s,
      WordMuncherFaceApi.runningRef s = false \/ (readyState < 2)%Z ->
      WordMuncherFaceApi.detectFace readyState d cw ch vw vh s = s).
Proof.
  split; [| split; [| split]].
  - intros lm rest w h s. unfold WordMuncher.detect.
    cbn [Results.multiFaceLandmarks WordMuncher.isMouthOpen WordMuncher.set_isMouthOpen].
    apply sqrt_gtb_distance. unfold WordMuncher.MOUTH_OPEN_THRESHOLD. lra.
  - intros lm rest w h s. unfold CakeMuncher.detect.
    cbn [Results.multiFaceLandmarks CakeMuncher.isMouthOpen CakeMuncher.set_isMouthOpen].
    apply sqrt_gtb_distance. unfold CakeMuncher.MOUTH_OPEN_THRESHOLD. lra.
  - intros readyState d cw ch vw vh s Hr Hrs Hb. cbn zeta.
    unfold WordMuncherFaceApi.detectFace. rewrite Hr.
    assert (E : (readyState <? 2)%Z = false) by (apply Z.ltb_ge; lia).
    rewrite E. cbn [negb orb].
    cbn [WordMuncherFaceApi.isMouthOpenRef WordMuncherFaceApi.setMouthOpen
         WordMuncherFaceApi.set_isMouthOpenRef WordMuncherFaceApi.mouthOpen
         WordMuncherFaceApi.faceDetected WordMuncherFaceApi.set_mouthPosRef
         WordMuncherFaceApi.setFaceDetected].
    split; [| split; reflexivity].
    rewrite gtb_true. unfold WordMuncherFaceApi.MOUTH_OPEN_THRESHOLD.
    set (g := Qabs _). set (b := WordMuncherFaceApi.Detection.box_height d) in *.
    split; intro H.
    + apply (Qmult_lt_r _ _ b Hb) in H.
      assert (E2 : (g / b * b == g)%Q) by (field; lra).
      rewrite E2 in H. exact H.
    + apply (Qmult_lt_r _ _ b Hb).
      assert (E2 : (g / b * b == g)%Q) by (field; lra).
      rewrite E2. exact H.
  - intros readyState d cw ch vw vh s [Hr | Hrs]; unfold WordMuncherFaceApi.detectFace.
    + rewrite Hr. reflexivity.
    + apply Z.ltb_lt in Hrs. rewrite Hrs, orb_true_r. reflexivity.
Qed.

Lemma mouth_open_witness :
  WordMuncherFaceApi.isMouthOpenRef
    (WordMuncherFaceApi.detectFace 4 (Some Scenario.open_face) 800 600 640 480
       WordMuncherFaceApi.init) = true.
Proof.
  apply (proj2 (proj1 (proj1 (proj2 (proj2
           mouth_is_open_when_the_lip_gap_exceeds_the_threshold))
           4%Z Scenario.open_face 800%Q 600%Q 640%Q 480%Q WordMuncherFaceApi.init
           eq_refl ltac:(lia) ltac:(vm_compute; reflexivity)))).
  vm_compute. reflexivity.
Defined.

(** ** Clocks: spawns and advice requests *)

Section FaceApiClock.
Variable random : nat -> Q.
Variable toString36 : Q -> string.
Import WordMuncherFaceApi.

Lemma faceapi_eat_keeps_clock l w s :
  lastSpawnRef s = l /\ runningRef s = true ->
  lastSpawnRef (eat random w s) = l /\ runningRef (eat random w s) = true.
Proof.
  intros [Hl Hr]. destruct (faceapi_eat_shape random w s) as [ps ->].
  destruct (FallingWord.isCorrect w); split; assumption.
Qed.

(** The spawn clock of one running frame. *)
Lemma faceapi_frame_spawn_clock w h now s s' :
  runningRef s = true ->
  gameLoop random toString36 w h now s = Some s' ->
  runningRef s' = true
  /\ ((now - lastSpawnRef s <= 1500)%Z ->
      lastSpawnRef s' = lastSpawnRef s
      /\ (List.length (wordsRef s') <= List.length (wordsRef s))%nat)
  /\ ((1500 < now - lastSpawnRef s)%Z -> lastSpawnRef s' = now).
Proof.
  intros Hr H. apply (faceapi_frame_parts random toString36 w h now s s' Hr) in H.
  destruct H as (l & n & tr & ws & s2 & Hsp & El & ->).
  pose proof (faceapi_wordLoop_inv random
                (fun s0 => lastSpawnRef s0 = l /\ runningRef s0 = true)
                (mouthPosRef s) h (faceapi_eat_keeps_clock l)) as Hinv.
  match type of El with wordLoop _ _ _ _ ?s1 = _ =>
    specialize (Hinv tr s1);
    pose proof (faceapi_wordLoop_length random (mouthPosRef s) h tr s1) as Hlen end.
  rewrite El in Hinv, Hlen. cbn [snd fst] in Hinv, Hlen.
  destruct Hinv as [Hl2 Hr2]; [split; [reflexivity | exact Hr] |].
  cbn [runningRef lastSpawnRef wordsRef set_particlesRef set_wordsRef].
  split; [exact Hr2 |]. split.
  - intro Hle. destruct Hsp as [(-> & _ & -> & _) | (t & _ & _ & Hlt & _)]; [| lia].
    split; [exact Hl2 | exact Hlen].
  - intro Hlt. destruct Hsp as [(_ & _ & _ & Hle) | (t & _ & -> & _)]; [lia | exact Hl2].
Qed.

End FaceApiClock.

(** X15 (words spawn at most once per 1500 ms).  A running frame of the
    face-api game spawns only when more than 1500 ms have passed since the
    last spawn, and then stamps the spawn clock with the time of the frame:
    a frame inside the interval leaves the clock alone and does not lengthen
    the word store, so after a frame that spawned, no frame within the next
    1500 ms adds a word. *)
Theorem faceapi_words_spawn_at_most_once_per_interval :
  forall (random : nat -> Q) (toString36 : Q -> string),
    (forall w h now s s',
        WordMuncherFaceApi.runningRef s = true ->
        WordMuncherFaceApi.gameLoop random toString36 w h now s = Some s' ->
        WordMuncherFaceApi.runningRef s' = true
        /\ ((now - WordMuncherFaceApi.lastSpawnRef s <= 1500)%Z ->
            WordMuncherFaceApi.lastSpawnRef s' = WordMuncherFaceApi.lastSpawnRef s
            /\ (List.length (WordMuncherFaceApi.wordsRef s')
                <= List.length (WordMuncherFaceApi.wordsRef s))%nat)
        /\ ((1500 < now - WordMuncherFaceApi.lastSpawnRef s)%Z ->
            WordMuncherFaceApi.lastSpawnRef s' = now))
    /\ (forall w h now w2 h2 now2 s s1 s2,
        WordMuncherFaceApi.runningRef s = true ->
        (1500 < now - WordMuncherFaceApi.lastSpawnRef s)%Z ->
        (now2 - now <= 1500)%Z ->
        WordMuncherFaceApi.gameLoop random toString36 w h now s = Some s1 ->
        WordMuncherFaceApi.gameLoop random toString36 w2 h2 now2 s1 = Some s2 ->
        WordMuncherFaceApi.lastSpawnRef s2 = now
        /\ (List.length (WordMuncherFaceApi.wordsRef s2)
            <= List.length (WordMuncherFaceApi.wordsRef s1))%nat).
Proof.
  intros random toString36. split.
  - intros w h now s s'. apply faceapi_frame_spawn_clock.
  - intros w h now w2 h2 now2 s s1 s2 Hr Hlate Hsoon H1 H2.
    destruct (faceapi_frame_spawn_clock random toString36 w h now s s1 Hr H1)
      as (Hr1 & _ & Hstamp).
    specialize (Hstamp Hlate).
    destruct (faceapi_frame_spawn_clock random toString36 w2 h2 now2 s1 s2 Hr1 H2)
      as (_ & Hkeep & _).
    rewrite Hstamp in Hkeep. exact (Hkeep Hsoon).
Qed.

Lemma faceapi_spawn_interval_witness :
  exists s1 s2,
    WordMuncherFaceApi.gameLoop (Spec.replay [0; 0.1; 0.5; 0.5; 0.5]%Q) JS.toString36
      800 600 2000 WordMuncherFaceApi.init = Some s1
    /\ WordMuncherFaceApi.gameLoop (Spec.replay [0; 0.1; 0.5; 0.5; 0.5]%Q) JS.toString36
         800 600 3500 s1 = Some s2
    /\ List.length (WordMuncherFaceApi.wordsRef s1) = 1%nat
    /\ (WordMuncherFaceApi.lastSpawnRef s2 = 2000%Z
        /\ (List.length (WordMuncherFaceApi.wordsRef s2)
            <= List.length (WordMuncherFaceApi.wordsRef s1))%nat).
Proof.
  eexists. eexists. split; [vm_compute; reflexivity |].
  split; [vm_compute; reflexivity |]. split; [reflexivity |].
  apply (proj2 (faceapi_words_spawn_at_most_once_per_interval
                  (Spec.replay [0; 0.1; 0.5; 0.5; 0.5]%Q) JS.toString36)
           800%Q 600%Q 2000%Z 800%Q 600%Q 3500%Z WordMuncherFaceApi.init).
  - reflexivity.
  - vm_compute. reflexivity.
  - vm_compute. discriminate.
  - vm_compute. reflexivity.
  - vm_compute. reflexivity.
Defined.

Section AdviceClock.
Variable random : nat -> Q.
Variable toString36 : Q -> string.




End AdviceClock.



(** ** Frames that cannot fail *)

(** X17 (the face-api game never reads outside its arrays).  With draws in
    [0,1), from every reachable state an animation frame and a detection
    tick complete; the only event that cannot happen is a quiz-advance timer
    firing when none is pending.  The quiz index the spawner reads is always
    a valid index of the list. *)
Theorem faceapi_frames_always_complete :
  forall (random : nat -> Q) (toString36 : Q -> string),
    Spec.unit_draws random ->
    forall s, Spec.faceapi_reachable random toString36 s ->
      (exists quiz, JS.index WordMuncherFaceApi.QUIZ_LIST (WordMuncherFaceApi.quizIndexRef s)
                    = Some quiz)
      /\ (forall w h now,
            exists s', WordMuncherFaceApi.gameLoop random toString36 w h now s = Some s')
      /\ (forall e,
            WordMuncherFaceApi.step random toString36 e s = None ->
            e = WordMuncherFaceApi.AdvanceTimer /\ WordMuncherFaceApi.timeouts s = 0%nat).
Proof.
  intros random toString36 Hu s Hr.
  destruct (faceapi_books_ok_reachable random toString36 s Hr) as (_ & _ & Hi & _).
  split; [| split].
  - destruct (index_in_range WordMuncherFaceApi.QUIZ_LIST (WordMuncherFaceApi.quizIndexRef s))
      as [quiz [Eq _]].
    { vm_compute List.length. lia. }
    exists quiz. exact Eq.
  - intros w h now. apply faceapi_gameLoop_total; assumption.
  - intros e He. destruct e as [w h now | rs d cw ch vw vh |]; cbn [WordMuncherFaceApi.step] in He.
    + destruct (faceapi_gameLoop_total random toString36 w h now s Hu Hi) as [s' E].
      rewrite E in He. discriminate.
    + discriminate.
    + destruct (WordMuncherFaceApi.timeouts s); [split; reflexivity | discriminate].
Qed.

Lemma faceapi_frames_complete_witness :
  exists s,
    WordMuncherFaceApi.run (Spec.replay []) JS.toString36
      [WordMuncherFaceApi.AnimationFrame 800 600 2000] WordMuncherFaceApi.init = Some s
    /\ forall w h now,
         exists s', WordMuncherFaceApi.gameLoop (Spec.replay []) JS.toString36 w h now s
                    = Some s'.
Proof.
  eexists. split; [vm_compute; reflexivity |].
  apply (faceapi_frames_always_complete (Spec.replay []) JS.toString36
           (replay_unit [] ltac:(constructor))).
  exists [WordMuncherFaceApi.AnimationFrame 800 600 2000]. vm_compute. reflexivity.
Defined.

(** ** The quiz cycle *)

Lemma quiz_eqb_eq (a b : Quiz.t) : Quiz.eqb a b = true <-> a = b.
Proof.
  unfold Quiz.eqb. rewrite !andb_true_iff, !String.eqb_eq. destruct a, b; cbn. split.
  - intros [[[-> ->] ->] ->]. reflexivity.
  - intro H. injection H as -> -> -> ->. repeat split.
Qed.

Lemma indexOf_absent (l : list Quiz.t) (q : Quiz.t) :
  ~ In q l -> JS.indexOf Quiz.eqb l q = (-1)%Z.
Proof.
  induction l as [| a l IH]; intro Hn; [reflexivity |].
  cbn [JS.indexOf]. destruct (Quiz.eqb a q) eqn:E.
  - apply quiz_eqb_eq in E. exfalso. apply Hn. left. exact E.
  - rewrite IH by (intro H; apply Hn; right; exact H). reflexivity.
Qed.

(** X18 (the quiz list is one cycle).  [nextQuiz] walks the eight quiz
    entries in order and wraps: from any entry, eight advances come back to
    it and fewer do not; a captured quiz that is not an entry of the list
    (its [indexOf] is -1) leads to the first entry.  In the face-api game
    one advance replaces the index by the remainder of its successor by 8
    (with the sign of the dividend), publishes it and empties the word
    store; from any non-negative index the new index is a valid one, and
    eight advances bring a valid index back to itself. *)
Theorem quiz_list_is_one_cycle :
  (forall q, In q WordMuncher.QUIZ_LIST ->
     Nat.iter 8 Spec.successor_of q = q
     /\ forall k, (0 < k < 8)%nat -> Nat.iter k Spec.successor_of q <> q)
  /\ (forall q s, ~ In q WordMuncher.QUIZ_LIST ->
        WordMuncher.currentQuiz (WordMuncher.nextQuiz q s) = Spec.quiz_at 0)
  /\ (forall s,
        let s' := WordMuncherFaceApi.advanceQuiz s in
        WordMuncherFaceApi.quizIndexRef s'
        = Z.rem (WordMuncherFaceApi.quizIndexRef s + 1) 8
        /\ ((0 <= WordMuncherFaceApi.quizIndexRef s)%Z ->
            (0 <= WordMuncherFaceApi.quizIndexRef s' < 8)%Z)
        /\ WordMuncherFaceApi.quizIndex s' = WordMuncherFaceApi.quizIndexRef s'
        /\ WordMuncherFaceApi.wordsRef s' = [])
  /\ (forall s, (0 <= WordMuncherFaceApi.quizIndexRef s < 8)%Z ->
        WordMuncherFaceApi.quizIndexRef (Nat.iter 8 WordMuncherFaceApi.advanceQuiz s)
        = WordMuncherFaceApi.quizIndexRef s).
Proof.
  split; [| split; [| split]].
  - intros q Hq.
    repeat (destruct Hq as [<- | Hq];
            [split; [vm_compute; reflexivity |];
             intros k Hk;
             do 8 (destruct k as [| k]; [try lia; vm_compute; discriminate |]); lia |]).
    destruct Hq.
  - intros q s Hn. unfold WordMuncher.nextQuiz.
    cbn [WordMuncher.currentQuiz WordMuncher.set_treats WordMuncher.setCurrentQuiz].
    rewrite (indexOf_absent _ _ Hn). reflexivity.
  - intro s. cbn zeta. unfold WordMuncherFaceApi.advanceQuiz. cbn -[Z.rem].
    split; [reflexivity |].
    split; [intro H0; apply Z.rem_bound_pos; lia | split; reflexivity].
  - intros s Hi.
    assert (Hone : forall s0,
              WordMuncherFaceApi.quizIndexRef (WordMuncherFaceApi.advanceQuiz s0)
              = Z.rem (WordMuncherFaceApi.quizIndexRef s0 + 1) 8) by reflexivity.
    assert (Hstep : forall n,
              (0 <= WordMuncherFaceApi.quizIndexRef
                      (Nat.iter n WordMuncherFaceApi.advanceQuiz s) < 8)%Z
              /\ (WordMuncherFaceApi.quizIndexRef
                    (Nat.iter n WordMuncherFaceApi.advanceQuiz s)
                  = (WordMuncherFaceApi.quizIndexRef s + Z.of_nat n) mod 8)%Z).
    { induction n as [| n [Hb IH]].
      - split; [exact Hi |]. simpl. rewrite Z.add_0_r, Z.mod_small by exact Hi.
        reflexivity.
      - rewrite Nat.iter_succ, Hone. rewrite Z.rem_mod_nonneg by lia.
        split; [apply Z.mod_pos_bound; lia |].
        rewrite IH. rewrite Z.add_mod_idemp_l by lia. f_equal. lia. }
    destruct (Hstep 8%nat) as [_ H]. rewrite H.
    change (Z.of_nat 8) with 8%Z.
    rewrite <- Z.add_mod_idemp_r by lia. rewrite Z.mod_same by lia.
    rewrite Z.add_0_r. apply Z.mod_small. exact Hi.
Qed.

Lemma quiz_cycle_witness :
  Nat.iter 8 Spec.successor_of Scenario.apple = Scenario.apple
  /\ forall k, (0 < k < 8)%nat -> Nat.iter k Spec.successor_of Scenario.apple <> Scenario.apple.
Proof.
  apply (proj1 quiz_list_is_one_cycle Scenario.apple). left. reflexivity.
Defined.

(** ** Pronunciation audio *)

Lemma int16_of_bytes (lo hi : Z) :
  Spec.byte lo -> Spec.byte hi ->
  let u := (lo + 256 * hi)%Z in
  (if (u <? 32768)%Z then u else (u - 65536)%Z) = Spec.int16_le lo hi
  /\ (-32768 <= Spec.int16_le lo hi < 32768)%Z.
Proof.
  unfold Spec.byte, Spec.int16_le. intros Hlo Hhi. cbn zeta.
  destruct (lo + 256 * hi <? 32768)%Z eqn:E.
  - apply Z.ltb_lt in E. rewrite Z.mod_small by lia. lia.
  - apply Z.ltb_ge in E.
    replace ((lo + 256 * hi + 32768) mod 65536)%Z with (lo + 256 * hi - 32768)%Z.
    + lia.
    + apply (Z.mod_unique _ _ 1); lia.
Qed.

(** The elements of the 16-bit view of a byte array. *)
Lemma Int16Array_elements (n : nat) : forall data,
  (List.length data <= n)%nat -> Forall Spec.byte data ->
  (Nat.odd (List.length data) = true -> Audio.Int16Array data = None)
  /\ (Nat.odd (List.length data) = false ->
      exists l, Audio.Int16Array data = Some l
        /\ List.length l = Nat.div2 (List.length data)
        /\ forall k, (k < List.length l)%nat ->
             nth k l 0%Z = Spec.int16_le (nth (2 * k) data 0%Z) (nth (2 * k + 1) data 0%Z)
             /\ (-32768 <= nth k l 0%Z < 32768)%Z).
Proof.
  induction n as [| n IH]; intros data Hlen Hb.
  - destruct data; [| cbn in Hlen; lia]. split; [discriminate |].
    intros _. exists []. split; [reflexivity |]. split; [reflexivity |].
    intros k Hk. cbn in Hk. lia.
  - destruct data as [| lo [| hi rest]].
    + split; [discriminate |]. intros _. exists []. split; [reflexivity |].
      split; [reflexivity |]. intros k Hk. cbn in Hk. lia.
    + split; [reflexivity | discriminate].
    + inversion Hb as [| ? ? Hlo Hb1]; subst. inversion Hb1 as [| ? ? Hhi Hb2]; subst.
      cbn [List.length] in Hlen.
      destruct (IH rest ltac:(lia) Hb2) as [Hodd Heven].
      cbn [List.length]. rewrite Nat.odd_succ_succ. split.
      * intro Ho. cbn [Audio.Int16Array]. rewrite (Hodd Ho). reflexivity.
      * intro He. destruct (Heven He) as (l & El & Hl & Hk).
        cbn [Audio.Int16Array]. rewrite El. eexists. split; [reflexivity |].
        split; [cbn [List.length Nat.div2]; rewrite Hl; reflexivity |].
        intros k Hklt. destruct k as [| k].
        -- destruct (int16_of_bytes lo hi Hlo Hhi) as [E R]. cbn zeta in E.
           cbn [nth Nat.mul Nat.add]. rewrite E. split; [reflexivity | exact R].
        -- cbn [List.length] in Hklt.
           replace (2 * S k)%nat with (S (S (2 * k))) by lia.
           replace (S (S (2 * k)) + 1)%nat with (S (S (2 * k + 1))) by lia.
           cbn [nth]. apply Hk. lia.
Qed.

Lemma nth_map_seq {A} (f : nat -> A) (n i : nat) (d : A) :
  (i < n)%nat -> nth i (map f (seq 0 n)) d = f i.
Proof.
  intro Hi. rewrite (nth_indep _ d (f 0%nat)) by (rewrite length_map, length_seq; exact Hi).
  rewrite map_nth. rewrite seq_nth by exact Hi. reflexivity.
Qed.

(** What [decodeAudioData] returns, and when it throws. *)
Lemma decodeAudioData_shape :
  forall (supported : nat -> nat -> Z -> bool) (data : list Z) (sampleRate : Z)
         (numChannels : nat),
    Forall Spec.byte data ->
    let frames := (List.length data / 2 / numChannels)%nat in
    (Audio.decodeAudioData supported data sampleRate numChannels = None
     <-> Nat.odd (List.length data) = true \/ numChannels = 0%nat
         \/ supported numChannels frames sampleRate = false)
    /\ (forall buffer,
        Audio.decodeAudioData supported data sampleRate numChannels = Some buffer ->
        Audio.AudioBuffer.numberOfChannels buffer = numChannels
        /\ Audio.AudioBuffer.length buffer = frames
        /\ Audio.AudioBuffer.sampleRate buffer = sampleRate
        /\ List.length (Audio.AudioBuffer.channelData buffer) = numChannels
        /\ (forall channel, (channel < numChannels)%nat ->
              List.length (nth channel (Audio.AudioBuffer.channelData buffer) []) = frames)
        /\ forall channel i, (channel < numChannels)%nat -> (i < frames)%nat ->
             let k := (i * numChannels + channel)%nat in
             let sample :=
               nth i (nth channel (Audio.AudioBuffer.channelData buffer) []) 0%Q in
             (sample * 32768
              == inject_Z (Spec.int16_le (nth (2 * k) data 0%Z) (nth (2 * k + 1) data 0%Z)))%Q
             /\ (-1 <= sample < 1)%Q).
Proof.
  intros supported data sampleRate numChannels Hb. cbn zeta.
  destruct (Int16Array_elements (List.length data) data (Nat.le_refl _) Hb) as [Hodd Heven].
  unfold Audio.decodeAudioData.
  destruct (Nat.odd (List.length data)) eqn:Eo.
  - rewrite (Hodd eq_refl). split; [| discriminate].
    split; [intros _; left; reflexivity | reflexivity].
  - destruct (Heven eq_refl) as (l & -> & Hl & Hk). rewrite Nat.div2_div in Hl.
    rewrite <- Hl.
    destruct numChannels as [| nc].
    { split; [| discriminate]. split; [intros _; right; left; reflexivity | reflexivity]. }
    cbv iota. remember (S nc) as n eqn:En.
    destruct (supported n (List.length l / n)%nat sampleRate) eqn:Es.
    + split.
      { split; [discriminate |]. intros [H | [H | H]]; [discriminate | lia | congruence]. }
      intros buffer H. injection H as <-.
      cbn [Audio.AudioBuffer.numberOfChannels Audio.AudioBuffer.length
           Audio.AudioBuffer.sampleRate Audio.AudioBuffer.channelData].
      split; [reflexivity |]. split; [reflexivity |]. split; [reflexivity |].
      split; [rewrite length_map, length_seq; reflexivity |].
      split.
      { intros channel Hc. rewrite (nth_map_seq _ n channel [] Hc).
        rewrite length_map, length_seq. reflexivity. }
      intros channel i Hc Hi. cbn zeta.
      rewrite (nth_map_seq _ n channel [] Hc).
      rewrite (nth_map_seq _ (List.length l / n) i 0%Q Hi).
      assert (Hlt : (i * n + channel < List.length l)%nat).
      { pose proof (Nat.Div0.mul_div_le (List.length l) n) as Hd. nia. }
      destruct (Hk _ Hlt) as [-> Hr].
      set (v := Spec.int16_le _ _) in *. clearbody v.
      assert (H1 : (inject_Z (-32768) <= inject_Z v)%Q) by (rewrite <- Zle_Qle; lia).
      assert (H2 : (inject_Z v < inject_Z 32768)%Q) by (rewrite <- Zlt_Qlt; lia).
      change (inject_Z (-32768)) with (-32768)%Q in H1.
      change (inject_Z 32768) with 32768%Q in H2.
      assert (E : (inject_Z v / 32768 * 32768 == inject_Z v)%Q) by field.
      split; [exact E |].
      set (q := (inject_Z v / 32768)%Q) in *. clearbody q. split; lra.
    + split; [| discriminate].
      split; [intros _; right; right; reflexivity | reflexivity].
Qed.


(** X19 (what [decodeAudioData] produces).  The bytes are read as 16-bit
    little-endian two's complement PCM, interleaved by channel.  An odd
    byte count makes the 16-bit view throw; so do a channel count of zero
    and a buffer shape the audio context rejects.  Otherwise the buffer has
    the requested channels and rate, [bytes / 2 / channels] frames per
    channel (rounded down), and sample [i] of channel [c] is element
    [i * channels + c] of the view divided by 32768, a value in [-1, 1). *)
Theorem decoded_audio_is_16_bit_little_endian_pcm :
  forall (supported : nat -> nat -> Z -> bool) (data : list Z) (sampleRate : Z)
         (numChannels : nat),
    Forall Spec.byte data ->
    let frames := (List.length data / 2 / numChannels)%nat in
    (Audio.decodeAudioData supported data sampleRate numChannels = None
     <-> Nat.odd (List.length data) = true \/ numChannels = 0%nat
         \/ supported numChannels frames sampleRate = false)
    /\ (forall buffer,
        Audio.decodeAudioData supported data sampleRate numChannels = Some buffer ->
        Audio.AudioBuffer.numberOfChannels buffer = numChannels
        /\ Audio.AudioBuffer.length buffer = frames
        /\ Audio.AudioBuffer.sampleRate buffer = sampleRate
        /\ List.length (Audio.AudioBuffer.channelData buffer) = numChannels
        /\ (forall channel, (channel < numChannels)%nat ->
              List.length (nth channel (Audio.AudioBuffer.channelData buffer) []) = frames)
        /\ forall channel i, (channel < numChannels)%nat -> (i < frames)%nat ->
             let k := (i * numChannels + channel)%nat in
             let sample :=
               nth i (nth channel (Audio.AudioBuffer.channelData buffer) []) 0%Q in
             (sample * 32768
              == inject_Z (Spec.int16_le (nth (2 * k) data 0%Z) (nth (2 * k + 1) data 0%Z)))%Q
             /\ (-1 <= sample < 1)%Q).
Proof. exact decodeAudioData_shape. Qed.

Lemma decoded_audio_witness :
  exists buffer,
    Audio.decodeAudioData (fun _ _ _ => true) Scenario.two_samples 24000 1 = Some buffer
    /\ (Audio.AudioBuffer.numberOfChannels buffer = 1%nat
        /\ Audio.AudioBuffer.length buffer = (List.length Scenario.two_samples / 2 / 1)%nat
        /\ Audio.AudioBuffer.sampleRate buffer = 24000%Z
        /\ List.length (Audio.AudioBuffer.channelData buffer) = 1%nat
        /\ (forall channel, (channel < 1)%nat ->
              List.length (nth channel (Audio.AudioBuffer.channelData buffer) [])
              = (List.length Scenario.two_samples / 2 / 1)%nat)
        /\ forall channel i,
             (channel < 1)%nat -> (i < List.length Scenario.two_samples / 2 / 1)%nat ->
             let k := (i * 1 + channel)%nat in
             let sample :=
               nth i (nth channel (Audio.AudioBuffer.channelData buffer) []) 0%Q in
             (sample * 32768
              == inject_Z (Spec.int16_le (nth (2 * k) Scenario.two_samples 0%Z)
                             (nth (2 * k + 1) Scenario.two_samples 0%Z)))%Q
             /\ (-1 <= sample < 1)%Q).
Proof.
  eexists. split; [vm_compute; reflexivity |].
  apply (proj2 (decoded_audio_is_16_bit_little_endian_pcm (fun _ _ _ => true)
                  Scenario.two_samples 24000%Z 1%nat
                  ltac:(repeat constructor; unfold Spec.byte; lia))).
  vm_compute. reflexivity.
Defined.

(** The ways [playWordPronunciation] can end, case by case. *)
Lemma playWordPronunciation_cases :
  forall (atob : string -> option string) (supported : nat -> nat -> Z -> bool)
         (base64Audio : option string),
    let outcome := Audio.playWordPronunciation atob supported base64Audio in
    (outcome = Audio.Silent <-> base64Audio = None \/ base64Audio = Some EmptyString)
    /\ (Audio.isPlayingAudio outcome = false <-> outcome = Audio.Silent)
    /\ (forall base64 binaryString,
          base64Audio = Some base64 -> base64 <> EmptyString ->
          atob base64 = Some binaryString ->
          let bytes := String.length binaryString in
          (Nat.odd bytes = true -> outcome = Audio.Rejected)
          /\ (supported 1%nat (bytes / 2)%nat 24000%Z = false -> outcome = Audio.Rejected)
          /\ (Nat.odd bytes = false -> supported 1%nat (bytes / 2)%nat 24000%Z = true ->
              exists buffer samples,
                outcome = Audio.Started buffer
                /\ Audio.AudioBuffer.numberOfChannels buffer = 1%nat
                /\ Audio.AudioBuffer.sampleRate buffer = 24000%Z
                /\ Audio.AudioBuffer.length buffer = (bytes / 2)%nat
                /\ Audio.AudioBuffer.channelData buffer = [samples]
                /\ List.length samples = (bytes / 2)%nat
                /\ forall v, In v samples -> (-1 <= v < 1)%Q))
    /\ (forall base64,
          base64Audio = Some base64 -> base64 <> EmptyString -> atob base64 = None ->
          outcome = Audio.Rejected).
Proof.
  intros atob supported base64Audio. cbn zeta.
  destruct base64Audio as [[| a rest] |].
  - split; [split; [intros _; right; reflexivity | reflexivity] |].
    split; [split; reflexivity |].
    split; [intros base64 bin E Hne; injection E as <-; contradiction |].
    intros base64 E Hne. injection E as <-. contradiction.
  - set (b := String a rest).
    assert (Hplay : Audio.playWordPronunciation atob supported (Some b)
                    = match Audio.decodeBase64 atob b with
                      | None => Audio.Rejected
                      | Some audioBytes =>
                          match Audio.decodeAudioData supported audioBytes 24000 1 with
                          | None => Audio.Rejected
                          | Some audioBuffer => Audio.Started audioBuffer
                          end
                      end) by reflexivity.
    rewrite Hplay. clear Hplay. unfold Audio.decodeBase64.
    destruct (atob b) as [bin |] eqn:Ea.
    + set (bytes := map (fun c => Z.of_nat (nat_of_ascii c)) (list_ascii_of_string bin)).
      assert (Hb : Forall Spec.byte bytes).
      { unfold bytes. apply Forall_forall. intros z Hz. apply in_map_iff in Hz.
        destruct Hz as (c & <- & _). unfold Spec.byte.
        pose proof (nat_ascii_bounded c). lia. }
      assert (Hlen : List.length bytes = String.length bin).
      { unfold bytes. rewrite length_map. clear. induction bin as [| c bin IH];
          [reflexivity | cbn; rewrite IH; reflexivity]. }
      destruct (decodeAudioData_shape supported bytes 24000%Z 1%nat Hb) as [Hnone Hsome].
      rewrite Hlen, Nat.div_1_r in Hnone, Hsome.
      destruct (Audio.decodeAudioData supported bytes 24000 1) as [buffer |] eqn:Ed.
      * destruct (Hsome buffer eq_refl) as (Hc & Hl & Hr & Hn & Hcl & Hs).
        assert (Hok : Nat.odd (String.length bin) = false
                      /\ supported 1%nat (String.length bin / 2)%nat 24000%Z = true).
        { split.
          - destruct (Nat.odd (String.length bin)) eqn:Eo; [| reflexivity].
            assert (Hx : @None Audio.AudioBuffer.t = Some buffer)
              by (rewrite <- (proj2 Hnone (or_introl eq_refl)); reflexivity).
            discriminate.
          - destruct (supported 1%nat (String.length bin / 2)%nat 24000%Z) eqn:Es;
              [reflexivity |].
            assert (Hx : @None Audio.AudioBuffer.t = Some buffer)
              by (rewrite <- (proj2 Hnone (or_intror (or_intror eq_refl))); reflexivity).
            discriminate. }
        destruct Hok as [Ho Hsup].
        split; [split; [discriminate | intros [H | H]; discriminate] |].
        split; [split; discriminate |].
        split; [| intros base64 E Hne Hat; injection E as <-; rewrite Ea in Hat; discriminate].
        intros base64 bin' E Hne Hat. injection E as <-. rewrite Ea in Hat.
        injection Hat as <-. cbn zeta.
        split; [intro H; rewrite Ho in H; discriminate |].
        split; [intro H; rewrite Hsup in H; discriminate |]. intros _ _.
        destruct (Audio.AudioBuffer.channelData buffer) as [| samples [| more rest']] eqn:Ech;
          try (cbn in Hn; lia).
        exists buffer, samples. split; [reflexivity |]. split; [exact Hc |].
        split; [exact Hr |]. split; [exact Hl |]. split; [exact Ech |].
        assert (Hsl : List.length samples = (String.length bin / 2)%nat).
        { exact (Hcl 0%nat ltac:(lia)). }
        split; [exact Hsl |].
        intros v Hv. destruct (In_nth samples v 0%Q Hv) as (i & Hi & <-).
        rewrite Hsl in Hi. destruct (Hs 0%nat i ltac:(lia) Hi) as [_ Hrange].
        exact Hrange.
      * destruct (proj1 Hnone eq_refl) as [Ho | [H0 | Hsup]]; [| discriminate |].
        -- split; [split; [discriminate | intros [H | H]; discriminate] |].
           split; [split; discriminate |].
           split; [| intros base64 E Hne Hat; reflexivity].
           intros base64 bin' E Hne Hat. injection E as <-. rewrite Ea in Hat.
           injection Hat as <-. cbn zeta.
           split; [reflexivity |]. split; [reflexivity |].
           intro H. rewrite Ho in H. discriminate.
        -- split; [split; [discriminate | intros [H | H]; discriminate] |].
           split; [split; discriminate |].
           split; [| intros base64 E Hne Hat; reflexivity].
           intros base64 bin' E Hne Hat. injection E as <-. rewrite Ea in Hat.
           injection Hat as <-. cbn zeta.
           split; [reflexivity |]. split; [reflexivity |].
           intros _ H. rewrite Hsup in H. discriminate.
    + split; [split; [discriminate | intros [H | H]; discriminate] |].
      split; [split; discriminate |].
      split; [| intros base64 E Hne Hat; reflexivity].
      intros base64 bin E Hne Hat. injection E as <-. rewrite Ea in Hat. discriminate.
  - split; [split; [intros _; left; reflexivity | reflexivity] |].
    split; [split; reflexivity |].
    split; [intros base64 bin E; discriminate | intros base64 E; discriminate].
Qed.

(** X20 (how a pronunciation request ends).  When the speech service
    returns nothing, or an empty string, nothing is decoded and the playing
    flag is cleared at once: that is the only way the call itself clears
    it.  With audio, the bytes of the decoded string are turned into a mono
    24 kHz buffer with half as many frames as bytes and samples in [-1, 1),
    which is started; a string [atob] rejects, an odd byte count or a buffer
    the context rejects make the call throw with the flag still set. *)
Theorem pronunciation_playback_outcomes :
  forall (atob : string -> option string) (supported : nat -> nat -> Z -> bool)
         (base64Audio : option string),
    let outcome := Audio.playWordPronunciation atob supported base64Audio in
    (outcome = Audio.Silent <-> base64Audio = None \/ base64Audio = Some EmptyString)
    /\ (Audio.isPlayingAudio outcome = false
        <-> base64Audio = None \/ base64Audio = Some EmptyString)
    /\ (forall base64 binaryString,
          base64Audio = Some base64 -> base64 <> EmptyString ->
          atob base64 = Some binaryString ->
          let bytes := String.length binaryString in
          (Nat.odd bytes = true -> outcome = Audio.Rejected)
          /\ (supported 1%nat (bytes / 2)%nat 24000%Z = false -> outcome = Audio.Rejected)
          /\ (Nat.odd bytes = false -> supported 1%nat (bytes / 2)%nat 24000%Z = true ->
              exists buffer samples,
                outcome = Audio.Started buffer
                /\ Audio.AudioBuffer.numberOfChannels buffer = 1%nat
                /\ Audio.AudioBuffer.sampleRate buffer = 24000%Z
                /\ Audio.AudioBuffer.length buffer = (bytes / 2)%nat
                /\ Audio.AudioBuffer.channelData buffer = [samples]
                /\ List.length samples = (bytes / 2)%nat
                /\ forall v, In v samples -> (-1 <= v < 1)%Q))
    /\ (forall base64,
          base64Audio = Some base64 -> base64 <> EmptyString -> atob base64 = None ->
          outcome = Audio.Rejected).
Proof.
  intros atob supported base64Audio. cbn zeta.
  destruct (playWordPronunciation_cases atob supported base64Audio) as (H1 & H2 & H3 & H4).
  split; [exact H1 |]. split; [rewrite H2; exact H1 |]. split; [exact H3 | exact H4].
Qed.

Lemma pronunciation_witness :
  exists buffer samples,
    Audio.playWordPronunciation Scenario.atob_pcm (fun _ _ _ => true) (Some "AID/fw=="%string)
    = Audio.Started buffer
    /\ Audio.AudioBuffer.numberOfChannels buffer = 1%nat
    /\ Audio.AudioBuffer.sampleRate buffer = 24000%Z
    /\ Audio.AudioBuffer.length buffer = 2%nat
    /\ Audio.AudioBuffer.channelData buffer = [samples]
    /\ List.length samples = 2%nat
    /\ forall v, In v samples -> (-1 <= v < 1)%Q.
Proof.
  destruct (proj1 (proj2 (proj2
              (pronunciation_playback_outcomes Scenario.atob_pcm (fun _ _ _ => true)
                 (Some "AID/fw=="%string))))
              "AID/fw=="%string _ eq_refl ltac:(discriminate) eq_refl)
    as (_ & _ & H).
  exact (H eq_refl eq_refl).
Defined.

(** ** What is spoken *)

Section Spoken.
Variable random : nat -> Q.
Variable toString36 : Q -> string.
Import WordMuncher.

(** The words handed to the pronunciation during the treat loop, when every
    correct treat visited carries the word [W]. *)
Lemma mesh_treatLoop_spoken c h (W : string) ts : forall s,
  (forall t, In t ts -> WordTreat.isCorrect t = true -> WordTreat.word t = W) ->
  spoken (snd (treatLoop random c h ts s))
  = spoken s ++ repeat W (Spec.mesh_correct_bites h ts s).
Proof.
  induction ts as [| t ts IH]; intros s HW.
  - cbn. rewrite app_nil_r. reflexivity.
  - cbn [treatLoop].
    assert (HW' : forall u, In u ts -> WordTreat.isCorrect u = true -> WordTreat.word u = W)
      by (intros u Hu; apply HW; right; exact Hu).
    specialize (IH s HW').
    destruct (mesh_treatLoop_timers random c h ts s) as (_ & _ & Ho & Hp).
    destruct (treatLoop random c h ts s) as [rest s1]. cbn [snd] in IH, Ho, Hp.
    unfold Spec.mesh_correct_bites. cbn [filter].
    rewrite <- (mesh_bites_ext h t s1 s Ho Hp).
    fold (Spec.mesh_correct_bites h ts s).
    destruct (mesh_visit_bites random c h t s1) as [Hy Hn].
    destruct (Spec.mesh_bites h t s1).
    + rewrite (Hy eq_refl). cbn [snd andb].
      destruct (mesh_eat_shape random c
                  (WordTreat.set_y (WordTreat.y t + WordTreat.velocity t) t) s1)
        as [ps ->].
      cbn [WordTreat.set_y WordTreat.isCorrect WordTreat.word].
      destruct (WordTreat.isCorrect t) eqn:Ec; cbn [spoken List.length].
      * rewrite IH, (HW t (or_introl eq_refl) Ec).
        rewrite <- app_assoc. rewrite <- repeat_cons. reflexivity.
      * exact IH.
    + specialize (Hn eq_refl).
      destruct (visit random c h t s1) as [t' s2]. cbn [snd] in Hn. subst s2.
      cbn [andb]. destruct t'; cbn [snd]; exact IH.
Qed.

Lemma mesh_frame_spoken r w h now s s' :
  Spec.mesh_flags_agree s ->
  step random toString36 (Frame r w h now) s = Some s' ->
  exists s0,
    Spec.mesh_loop_start random toString36 (currentQuiz s) r w h s = Some s0
    /\ (treats s0 = treats s \/ exists t, treats s0 = treats s ++ [t])
    /\ spoken s'
       = spoken s ++ repeat (Quiz.word (currentQuiz s))
                       (Spec.mesh_correct_bites h (treats s0) s0).
Proof.
  intros Hfl H. cbn [step] in H. apply mesh_frame_from_start in H.
  destruct H as (s0 & ts & s2 & Hs0 & El & ->).
  destruct (mesh_loop_start_fields random toString36 _ r w h s s0 Hs0)
    as (_ & _ & _ & _ & _ & Esp & Htr).
  pose proof (mesh_treatLoop_spoken (currentQuiz s) h (Quiz.word (currentQuiz s))
                (treats s0) s0) as Hl.
  rewrite El in Hl. cbn [snd] in Hl.
  set (s3 := set_particles _ (set_treats ts s2)).
  assert (As : spoken (adviceTrigger (currentQuiz s) now s3) = spoken s2)
    by (unfold adviceTrigger; destruct (_ >? _)%Z; reflexivity).
  exists s0. split; [exact Hs0 |]. split; [exact Htr |].
  rewrite As, Hl, Esp; [reflexivity |].
  intros t Hin Hc.
  destruct (mesh_loop_start_spawn random toString36 _ r w h s s0 Hs0)
    as [E | (t0 & E & _ & Hcw & _)]; rewrite E in Hin.
  - apply (Hfl t Hin). exact Hc.
  - apply in_app_or in Hin. destruct Hin as [Hin | [<- | []]].
    + apply (Hfl t Hin). exact Hc.
    + apply Hcw. exact Hc.
Qed.

End Spoken.

(** X21 (only the target word is ever spoken).  In the FaceMesh word game a
    frame taken from a reachable state hands to the pronunciation exactly one
    word per correct treat consumed on that frame -- counted over the store
    as the treat loop finds it, the store before the frame with, when the
    frame spawns, the treat the spawner appended -- and each of them is the
    word of the quiz in force; incorrect bites, misses and the other events
    speak nothing. *)
Theorem every_correct_bite_speaks_the_target_word :
  forall (random : nat -> Q) (toString36 : Q -> string) s,
    Spec.mesh_reachable random toString36 s ->
    (forall r w h now s',
        WordMuncher.step random toString36 (WordMuncher.Frame r w h now) s = Some s' ->
        exists s0,
          Spec.mesh_loop_start random toString36 (WordMuncher.currentQuiz s) r w h s
          = Some s0
          /\ (WordMuncher.treats s0 = WordMuncher.treats s
              \/ exists t, WordMuncher.treats s0 = WordMuncher.treats s ++ [t])
          /\ WordMuncher.spoken s'
             = WordMuncher.spoken s
               ++ repeat (Quiz.word (WordMuncher.currentQuiz s))
                    (Spec.mesh_correct_bites h (WordMuncher.treats s0) s0))
    /\ (forall e s',
        e = WordMuncher.NextQuizTimer \/ e = WordMuncher.AdviceAnswer ->
        WordMuncher.step random toString36 e s = Some s' ->
        WordMuncher.spoken s' = WordMuncher.spoken s).
Proof.
  intros random toString36 s Hr. split.
  - intros r w h now s'. apply mesh_frame_spoken.
    apply (mesh_flags_agree_reachable random toString36 s Hr).
  - intros e s' [-> | ->] H; cbn [WordMuncher.step] in H.
    + destruct (WordMuncher.timeouts s); [discriminate |]. injection H as <-. reflexivity.
    + destruct (WordMuncher.requests s); [discriminate |]. injection H as <-. reflexivity.
Qed.

Lemma spoken_word_witness :
  exists s',
    WordMuncher.step (Spec.replay Scenario.correct_spawn) JS.toString36
      (WordMuncher.Frame Scenario.mouth_at_top 800 600 1000) WordMuncher.init = Some s'
    /\ WordMuncher.spoken s' = ["Apple"%string]
    /\ exists s0,
         Spec.mesh_loop_start (Spec.replay Scenario.correct_spawn) JS.toString36
           (WordMuncher.currentQuiz WordMuncher.init) Scenario.mouth_at_top 800 600
           WordMuncher.init = Some s0
         /\ (WordMuncher.treats s0 = WordMuncher.treats WordMuncher.init
             \/ exists t, WordMuncher.treats s0 = WordMuncher.treats WordMuncher.init ++ [t])
         /\ WordMuncher.spoken s'
            = WordMuncher.spoken WordMuncher.init
              ++ repeat (Quiz.word (WordMuncher.currentQuiz WordMuncher.init))
                   (Spec.mesh_correct_bites 600 (WordMuncher.treats s0) s0).
Proof.
  eexists. split; [vm_compute; reflexivity |]. split; [reflexivity |].
  apply (proj1 (every_correct_bite_speaks_the_target_word
                  (Spec.replay Scenario.correct_spawn) JS.toString36 WordMuncher.init
                  (ex_intro _ [] eq_refl))
           Scenario.mouth_at_top 800%Q 600%Q 1000%Z).
  vm_compute. reflexivity.
Defined.

(** ** The mouth of the face-api variant *)

Lemma scaled_midpoint_bounds (a b size canvas : Q) :
  (0 < size)%Q -> (0 <= canvas)%Q ->
  (0 <= a <= size)%Q -> (0 <= b <= size)%Q ->
  (0 <= (a + b) / 2 * (canvas / size) <= canvas)%Q.
Proof.
  intros Hs Hc Ha Hb.
  assert (E : ((a + b) / 2 * (canvas / size) == ((a + b) * (1 # 2) / size) * canvas)%Q)
    by (field; lra).
  rewrite E.
  assert (H0 : (0 <= (a + b) * (1 # 2) / size)%Q).
  { apply Qle_shift_div_l; [exact Hs | lra]. }
  assert (H1 : ((a + b) * (1 # 2) / size <= 1)%Q).
  { apply Qle_shift_div_r; [exact Hs | lra]. }
  generalize dependent ((a + b) * (1 # 2) / size)%Q. intros q _ H0 H1. split; nra.
Qed.

(** X22 (where the face-api variant puts the mouth).  On a running game
    with a ready video, a detected face moves the mouth to the midpoint of
    landmarks 62 and 66, scaled from video to canvas pixels and mirrored
    horizontally; lips inside the video frame give a mouth inside the
    canvas. *)
Theorem faceapi_mouth_is_mirrored_into_the_canvas :
  forall readyState d cw ch vw vh s,
    WordMuncherFaceApi.runningRef s = true -> (2 <= readyState)%Z ->
    let upper := WordMuncherFaceApi.Detection.positions d 62%nat in
    let lower := WordMuncherFaceApi.Detection.positions d 66%nat in
    let m := WordMuncherFaceApi.mouthPosRef
               (WordMuncherFaceApi.detectFace readyState (Some d) cw ch vw vh s) in
    Point.x m = (cw - (Point.x upper + Point.x lower) / 2 * (cw / vw))%Q
    /\ Point.y m = ((Point.y upper + Point.y lower) / 2 * (ch / vh))%Q
    /\ ((0 < vw)%Q -> (0 < vh)%Q -> (0 <= cw)%Q -> (0 <= ch)%Q ->
        (0 <= Point.x upper <= vw)%Q -> (0 <= Point.x lower <= vw)%Q ->
        (0 <= Point.y upper <= vh)%Q -> (0 <= Point.y lower <= vh)%Q ->
        (0 <= Point.x m <= cw)%Q /\ (0 <= Point.y m <= ch)%Q).
Proof.
  intros readyState d cw ch vw vh s Hr Hrs. cbn zeta.
  unfold WordMuncherFaceApi.detectFace. rewrite Hr.
  assert (E : (readyState <? 2)%Z = false) by (apply Z.ltb_ge; lia).
  rewrite E. cbn [negb orb].
  cbn [WordMuncherFaceApi.mouthPosRef WordMuncherFaceApi.setMouthOpen
       WordMuncherFaceApi.set_isMouthOpenRef WordMuncherFaceApi.set_mouthPosRef
       WordMuncherFaceApi.setFaceDetected Point.x Point.y].
  split; [reflexivity |]. split; [reflexivity |].
  intros Hvw Hvh Hcw Hch Hxu Hxl Hyu Hyl.
  pose proof (scaled_midpoint_bounds _ _ vw cw Hvw Hcw Hxu Hxl) as Hx.
  pose proof (scaled_midpoint_bounds _ _ vh ch Hvh Hch Hyu Hyl) as Hy.
  split; [| exact Hy]. split; lra.
Qed.

Lemma faceapi_mouth_witness :
  let m := WordMuncherFaceApi.mouthPosRef
             (WordMuncherFaceApi.detectFace 4 (Some Scenario.open_face) 800 600 640 480
                WordMuncherFaceApi.init) in
  (0 <= Point.x m <= 800)%Q /\ (0 <= Point.y m <= 600)%Q.
Proof.
  cbn zeta.
  destruct (faceapi_mouth_is_mirrored_into_the_canvas 4%Z Scenario.open_face
              800%Q 600%Q 640%Q 480%Q WordMuncherFaceApi.init eq_refl ltac:(lia))
    as (_ & _ & H).
  apply H; cbn; lra.
Defined.

(** ** Runs of the point variant *)

Section CakeRuns.
Variable random : nat -> Q.
Variable toString36 : Q -> string.
Import CakeMuncher.

Lemma cake_treatLoop_inv (P : State -> Prop) c h :
  (forall t s, P s -> P (eat random c t s)) ->
  forall ts s, P s -> P (snd (treatLoop random c h ts s)).
Proof.
  intros Heat ts. induction ts as [| t ts IH]; intros s Hs; [exact Hs |].
  cbn [treatLoop]. specialize (IH s Hs).
  destruct (treatLoop random c h ts s) as [rest s1]. cbn [snd] in IH.
  destruct (cake_visit_bites random c h t s1) as [Hy Hn].
  destruct (Spec.cake_bites h t s1).
  - rewrite (Hy eq_refl). cbn [snd]. apply Heat. exact IH.
  - specialize (Hn eq_refl).
    destruct (visit random c h t s1) as [t' s2]. cbn [snd] in Hn. subst s2.
    destruct t'; exact IH.
Qed.

Lemma cake_eat_keeps_books c t s :
  score s = scoreRef s /\ (forall p, In p (particles s) -> (Particle.life p <= 1)%Q) ->
  score (eat random c t s) = scoreRef (eat random c t s)
  /\ (forall p, In p (particles (eat random c t s)) -> (Particle.life p <= 1)%Q).
Proof.
  intros [Hs Hp]. split.
  - destruct (cake_eat_shape random c t s) as [ps ->]. reflexivity.
  - unfold eat, createCrumbs.
    match goal with |- context [createCrumbsLoop _ ?n ?x ?y ?col ?s1] =>
      destruct (cake_createCrumbsLoop_burst random x y col n s1) as (ps & _ & He & Hl);
      rewrite He end.
    cbn [particles set_draws set_particles setScore set_scoreRef].
    intros p Hin. apply in_app_or in Hin. destruct Hin as [Hin | Hin].
    + apply Hp, Hin.
    + destruct (Hl p Hin) as (_ & _ & E & _). rewrite E. lra.
Qed.

(** The points a tick can add are a non-negative multiple of 50 when every
    treat is worth the points of its category. *)
Lemma cake_gain_of_categories h ts s :
  (forall t, In t ts -> Treat.points t = points_of (Treat.type t)) ->
  (0 <= Spec.cake_gain h ts s)%Z /\ (50 | Spec.cake_gain h ts s)%Z.
Proof.
  unfold Spec.cake_gain. induction ts as [| t ts IH]; intro Hpt.
  - split; [cbn; lia | exists 0%Z; reflexivity].
  - destruct IH as [H0 [k Hk]]; [intros u Hu; apply Hpt; right; exact Hu |].
    cbn [filter]. destruct (Spec.cake_bites h t s); [| split; [exact H0 | exists k; exact Hk]].
    cbn [map fold_right]. rewrite (Hpt t (or_introl eq_refl)), Hk.
    destruct (Treat.type t); cbn [points_of]; split; try lia.
    + exists (2 + k)%Z; lia.
    + exists (4 + k)%Z; lia.
    + exists (10 + k)%Z; lia.
    + exists (3 + k)%Z; lia.
    + exists (6 + k)%Z; lia.
    + exists (20 + k)%Z; lia.
Qed.

(** A frame of the mounted component, by its effect on the books. *)
Lemma cake_frame_books r cw ch now s :
  Spec.cake_books_ok s ->
  let s' := onResults random toString36 mounted r cw ch now s in
  Spec.cake_books_ok s'
  /\ exists gain, (0 <= gain)%Z /\ (50 | gain)%Z /\ scoreRef s' = (scoreRef s + gain)%Z.
Proof.
  intros (Hs & Hpt & Hp). cbn zeta.
  destruct (cake_frame_parts random toString36 mounted r cw ch now s)
    as (n & tr & ts & s2 & Hsp & El & ->).
  assert (Htr : forall t, In t tr -> Treat.points t = points_of (Treat.type t)).
  { destruct Hsp as [[-> _] | (t0 & -> & _ & _ & _ & _ & _ & Hp0)]; [exact Hpt |].
    intros u Hin. apply in_app_or in Hin. destruct Hin as [Hin | [<- | []]];
      [apply Hpt, Hin | exact Hp0]. }
  match type of El with treatLoop _ _ ?h0 _ ?s1 = _ =>
    pose proof (cake_treatLoop_score random mounted h0 tr s1) as Hl;
    pose proof (cake_treatLoop_image random mounted h0 tr s1) as Him;
    pose proof (cake_gain_of_categories h0 tr s1 Htr) as Hg;
    pose proof (cake_treatLoop_inv
                  (fun s => score s = scoreRef s
                            /\ forall p, In p (particles s) -> (Particle.life p <= 1)%Q)
                  mounted h0 (cake_eat_keeps_books mounted) tr s1) as Hinv
  end.
  cbn zeta in Hl. rewrite El in Hl, Him, Hinv. cbn [snd fst] in Hl, Him, Hinv.
  destruct Hl as (Hb & _).
  match type of Hb with context [detect r ?w0 ?h0 s] =>
    destruct (cake_detect_shape r w0 h0 s) as (p & o & Ed); rewrite Ed in Hb, Hinv, Hg end.
  cbn [scoreRef score particles set_draws set_treats set_isMouthOpen set_mouthPos]
    in Hb, Hinv.
  destruct Hinv as [Hs2 Hp2]; [split; [exact Hs | intros q Hq; apply Hp, Hq] |].
  set (s3 := set_particles _ (set_treats ts s2)).
  assert (Hadv : score (aiTrigger mounted now s3) = score s2
                 /\ scoreRef (aiTrigger mounted now s3) = scoreRef s2
                 /\ treats (aiTrigger mounted now s3) = ts
                 /\ particles (aiTrigger mounted now s3)
                    = particleLoop 0.02 (particles s2)).
  { unfold aiTrigger, handleAiAnalysis.
    destruct (_ >? _)%Z; [| repeat split]. destruct (_ || _); repeat split. }
  destruct Hadv as (A1 & A2 & A3 & A4).
  split.
  - split; [rewrite A1, A2; exact Hs2 |]. split.
    + rewrite A3. intros t' Hin. destruct (Him t' Hin) as (t & Hin0 & _ & Hc & _).
      specialize (Htr t Hin0). destruct Hc as [E | E]; rewrite E; exact Htr.
    + rewrite A4. intros q Hin. apply particleLoop_survivor in Hin.
      destruct Hin as (q0 & Hq0 & -> & Hlt). specialize (Hp2 q0 Hq0). cbn. lra.
  - destruct Hg as [G0 G50]. eexists. split; [exact G0 |]. split; [exact G50 |].
    rewrite A2, Hb. cbn [multiplier mounted]. lia.
Qed.

Lemma cake_run_inv (P : State -> Prop) :
  (forall e s s', step random toString36 e s = Some s' -> P s -> P s') ->
  forall es s s', run random toString36 es s = Some s' -> P s -> P s'.
Proof.
  intros Hstep es. induction es as [| e es IH]; intros s s' Hrun Hs; cbn [run] in Hrun.
  - injection Hrun as <-. exact Hs.
  - destruct (step random toString36 e s) as [s1 |] eqn:E; [| discriminate].
    eapply IH; [exact Hrun |]. eapply Hstep; eassumption.
Qed.

Lemma cake_books_step e s s' :
  step random toString36 e s = Some s' ->
  Spec.cake_books_ok s /\ (0 <= scoreRef s)%Z /\ (50 | scoreRef s)%Z ->
  (Spec.cake_books_ok s' /\ (0 <= scoreRef s')%Z /\ (50 | scoreRef s')%Z)
  /\ (scoreRef s <= scoreRef s')%Z.
Proof.
  intros Hstep (Hok & H0 & H50). destruct e as [r cw ch now |]; cbn [step] in Hstep.
  - injection Hstep as <-.
    destruct (cake_frame_books r cw ch now s Hok) as (Hok' & gain & G0 & G50 & ->).
    split; [| lia]. split; [exact Hok' |]. split; [lia |].
    apply Z.divide_add_r; assumption.
  - destruct (requests s); [discriminate |]. injection Hstep as <-.
    split; [| cbn; lia]. split; [exact Hok |]. split; assumption.
Qed.

Lemma cake_books_reachable s :
  Spec.cake_reachable random toString36 s ->
  Spec.cake_books_ok s /\ (0 <= scoreRef s)%Z /\ (50 | scoreRef s)%Z.
Proof.
  intros [es Hrun].
  apply (cake_run_inv
           (fun s => Spec.cake_books_ok s /\ (0 <= scoreRef s)%Z /\ (50 | scoreRef s)%Z)
           (fun e s s' H Hs => proj1 (cake_books_step e s s' H Hs)) es _ _ Hrun).
  split; [split; [reflexivity | split; intros x []] |].
  split; [cbn; lia | exists 0%Z; reflexivity].
Qed.

Hypothesis draws_in_unit : Spec.unit_draws random.

Lemma cake_motion_ok_step e s s' :
  step random toString36 e s = Some s' -> Spec.cake_motion_ok s -> Spec.cake_motion_ok s'.
Proof.
  intros Hstep Ht. destruct e as [r cw ch now |]; cbn [step] in Hstep.
  - injection Hstep as <-.
    destruct (cake_frame_parts random toString36 mounted r cw ch now s)
      as (n & tr & ts & s2 & Hsp & El & ->).
    assert (Htr : forall t, In t tr ->
                    (2 <= Treat.velocity t < 5)%Q /\ (-50 <= Treat.y t)%Q).
    { destruct Hsp as [[-> _] | (t0 & -> & _ & _ & _ & Hy & Hv & _)]; [exact Ht |].
      intros u Hin. apply in_app_or in Hin. destruct Hin as [Hin | [<- | []]].
      - apply Ht, Hin.
      - rewrite Hy, Hv. destruct (draws_in_unit (draws s + 4)) as [H0 H1]. lra. }
    match type of El with treatLoop _ _ ?h0 _ ?s1 = _ =>
      pose proof (cake_treatLoop_image random mounted h0 tr s1) as Him end.
    rewrite El in Him. cbn [fst] in Him.
    assert (A3 : treats (aiTrigger mounted now
                           (set_particles (particleLoop 0.02 (particles s2))
                              (set_treats ts s2))) = ts).
    { unfold aiTrigger, handleAiAnalysis.
      destruct (_ >? _)%Z; [| reflexivity]. destruct (_ || _); reflexivity. }
    intros t' Hin. rewrite A3 in Hin. destruct (Him t' Hin) as (t & Hin0 & _ & Hc & _).
    destruct (Htr t Hin0) as [Hv Hy].
    destruct Hc as [E | E]; rewrite E; cbn; lra.
  - destruct (requests s); [discriminate |]. injection Hstep as <-. exact Ht.
Qed.

Lemma cake_motion_ok_reachable s :
  Spec.cake_reachable random toString36 s -> Spec.cake_motion_ok s.
Proof.
  intros [es Hrun].
  apply (cake_run_inv Spec.cake_motion_ok cake_motion_ok_step es _ _ Hrun).
  intros x [].
Qed.

End CakeRuns.

(** X23 (the books of the point variant).  In every state the mounted point
    variant can reach, the displayed score equals the score ref, which is a
    non-negative multiple of 50; every stored treat is worth the points of
    its category and every stored particle has a life in (0, 1]; no event
    ever lowers the score.  With draws in [0,1), every stored treat has a
    speed in [2, 5) and is no higher than its spawn line [y = -50]. *)
Theorem point_variant_score_only_grows :
  forall (random : nat -> Q) (toString36 : Q -> string),
    (forall s, Spec.cake_reachable random toString36 s ->
       CakeMuncher.score s = CakeMuncher.scoreRef s
       /\ (0 <= CakeMuncher.scoreRef s)%Z
       /\ (50 | CakeMuncher.scoreRef s)%Z
       /\ (forall t, In t (CakeMuncher.treats s) ->
             Treat.points t = CakeMuncher.points_of (Treat.type t))
       /\ (forall p, In p (CakeMuncher.particles s) -> (0 < Particle.life p <= 1)%Q))
    /\ (forall s e s',
          Spec.cake_reachable random toString36 s ->
          CakeMuncher.step random toString36 e s = Some s' ->
          (CakeMuncher.scoreRef s <= CakeMuncher.scoreRef s')%Z)
    /\ (Spec.unit_draws random ->
        forall s, Spec.cake_reachable random toString36 s ->
          forall t, In t (CakeMuncher.treats s) ->
            (2 <= Treat.velocity t < 5)%Q /\ (-50 <= Treat.y t)%Q).
Proof.
  intros random toString36. split; [| split].
  - intros s Hr.
    destruct (cake_books_reachable random toString36 s Hr) as ((Hs & Hpt & Hp) & H0 & H50).
    split; [exact Hs |]. split; [exact H0 |]. split; [exact H50 |].
    split; [exact Hpt | exact Hp].
  - intros s e s' Hr Hstep.
    exact (proj2 (cake_books_step random toString36 e s s' Hstep
                    (cake_books_reachable random toString36 s Hr))).
  - intros Hu s Hr. exact (cake_motion_ok_reachable random toString36 Hu s Hr).
Qed.

Lemma point_variant_score_witness :
  exists s,
    CakeMuncher.run (Spec.replay Scenario.one_spawn) JS.toString36
      [Scenario.first_analysis; Scenario.second_analysis] CakeMuncher.init = Some s
    /\ List.length (CakeMuncher.treats s) = 1%nat
    /\ (CakeMuncher.score s = CakeMuncher.scoreRef s
        /\ (0 <= CakeMuncher.scoreRef s)%Z
        /\ (50 | CakeMuncher.scoreRef s)%Z
        /\ (forall t, In t (CakeMuncher.treats s) ->
              Treat.points t = CakeMuncher.points_of (Treat.type t))
        /\ (forall p, In p (CakeMuncher.particles s) -> (0 < Particle.life p <= 1)%Q)).
Proof.
  eexists. split; [vm_compute; reflexivity |]. split; [reflexivity |].
  apply (proj1 (point_variant_score_only_grows (Spec.replay Scenario.one_spawn)
                  JS.toString36)).
  exists [Scenario.first_analysis; Scenario.second_analysis]. vm_compute. reflexivity.
Defined.

(** X24 (the busy flag does not hold back the analysis).  The only
    [onResults] the point variant ever installs sees the [isAiThinking] of
    the first render, so a frame sends an analysis request, with a copy of
    the treats as the loop left them, exactly when more than 5000 ms have
    passed since the last attempt and one of those treats is still active,
    whether or not an earlier request is pending. *)
Theorem analysis_is_sent_whether_or_not_one_is_pending :
  forall (random : nat -> Q) (toString36 : Q -> string) r cw ch now s s',
    CakeMuncher.step random toString36 (CakeMuncher.Frame r cw ch now) s = Some s' ->
    CakeMuncher.requests s'
    = (if (now - CakeMuncher.lastCaptureTime s >? 5000)%Z
          && negb (List.length (filter Treat.active (CakeMuncher.treats s')) =? 0)%nat
       then CakeMuncher.requests s ++ [CakeMuncher.treats s']
       else CakeMuncher.requests s)
    /\ (CakeMuncher.requests s' <> CakeMuncher.requests s ->
        CakeMuncher.isAiThinking s' = true).
Proof.
  intros random toString36 r cw ch now s s' H. cbn [CakeMuncher.step] in H.
  injection H as <-.
  destruct (cake_frame_parts random toString36 CakeMuncher.mounted r cw ch now s)
    as (n & tr & ts & s2 & _ & El & ->).
  match type of El with CakeMuncher.treatLoop _ _ ?h0 _ ?s1 = _ =>
    pose proof (cake_treatLoop_score random CakeMuncher.mounted h0 tr s1) as Hl end.
  cbn zeta in Hl. rewrite El in Hl. cbn [snd] in Hl.
  destruct Hl as (_ & _ & _ & Ha & Hb & _).
  match type of Ha with context [CakeMuncher.detect r ?w0 ?h0 s] =>
    destruct (cake_detect_shape r w0 h0 s) as (p & o & Ed); rewrite Ed in Ha, Hb end.
  cbn [CakeMuncher.lastCaptureTime CakeMuncher.requests CakeMuncher.set_draws
       CakeMuncher.set_treats CakeMuncher.set_isMouthOpen CakeMuncher.set_mouthPos]
    in Ha, Hb.
  unfold CakeMuncher.aiTrigger, CakeMuncher.handleAiAnalysis.
  cbn [CakeMuncher.lastCaptureTime CakeMuncher.set_particles CakeMuncher.set_treats
       CakeMuncher.isAiThinking_seen CakeMuncher.mounted orb
       CakeMuncher.treats CakeMuncher.set_lastCaptureTime].
  rewrite Ha.
  destruct (now - CakeMuncher.lastCaptureTime s >? 5000)%Z; cbn [andb].
  - destruct (List.length (filter Treat.active ts) =? 0)%nat eqn:En.
    + cbn [CakeMuncher.requests CakeMuncher.treats CakeMuncher.set_lastCaptureTime
           CakeMuncher.set_particles CakeMuncher.set_treats].
      rewrite En. cbn [negb]. split; [exact Hb |]. intro Hne. contradiction.
    + cbn [CakeMuncher.requests CakeMuncher.treats CakeMuncher.isAiThinking
           CakeMuncher.set_requests CakeMuncher.setIsAiThinking
           CakeMuncher.set_lastCaptureTime CakeMuncher.set_particles
           CakeMuncher.set_treats].
      rewrite En. cbn [negb]. rewrite Hb. split; [reflexivity |]. intros _. reflexivity.
  - cbn [CakeMuncher.requests CakeMuncher.set_particles CakeMuncher.set_treats].
    split; [exact Hb |]. intro Hne. contradiction.
Qed.

Lemma second_analysis_witness :
  exists s1 s2,
    CakeMuncher.step (Spec.replay Scenario.one_spawn) JS.toString36
      Scenario.first_analysis CakeMuncher.init = Some s1
    /\ CakeMuncher.isAiThinking s1 = true
    /\ List.length (CakeMuncher.requests s1) = 1%nat
    /\ CakeMuncher.step (Spec.replay Scenario.one_spawn) JS.toString36
         Scenario.second_analysis s1 = Some s2
    /\ List.length (CakeMuncher.requests s2) = 2%nat
    /\ CakeMuncher.requests s2
       = (if (10002 - CakeMuncher.lastCaptureTime s1 >? 5000)%Z
             && negb (List.length (filter Treat.active (CakeMuncher.treats s2)) =? 0)%nat
          then CakeMuncher.requests s1 ++ [CakeMuncher.treats s2]
          else CakeMuncher.requests s1).
Proof.
  eexists. eexists. split; [vm_compute; reflexivity |]. split; [reflexivity |].
  split; [reflexivity |]. split; [vm_compute; reflexivity |]. split; [reflexivity |].
  match goal with
  | |- CakeMuncher.requests ?s2
       = (if (_ - CakeMuncher.lastCaptureTime ?s1 >? _)%Z && _ then _ else _) =>
      refine (proj1 (analysis_is_sent_whether_or_not_one_is_pending
                       (Spec.replay Scenario.one_spawn) JS.toString36
                       (Results.mk None) 800%Q 600%Q 10002%Z s1 s2 _))
  end.
  vm_compute. reflexivity.
Defined.
